(** * HBTK: the Plot3D mesh reader and the VTK unstructured-grid writer

    A shallow embedding of [HBTK::Plot3D::Plot3DParser] (both revisions kept
    in the repository: [src/Plot3DParser.cpp] and the older
    [HBTK/Plot3DParser.cpp]) and of [HBTK::Vtk::VtkWriter], with the
    properties of the written specification stated and proved over it.

    Conventions.
    - C++ [int] is [Z] with the 32-bit wrap-around written out ([wrap_int]);
      loop counters bounded by an [int] bound never wrap and are plain [Z].
    - [char] and [unsigned char] are [Ascii.ascii]; [std::string] is [string];
      [std::vector<T>] is [list T], indexed writes are stdpp's [<[i:=x]>].
    - [double] is an opaque type: the development never computes with
      floating-point numbers, it only moves them around.
    - Code that throws is a function into [outcome]: either [Done] with a
      value, or [Raised] with the exception; both carry the final state. *)

From stdpp Require Import base tactics option list strings gmap numbers pretty.
From Stdlib Require Import ZArith Lia Ascii.

Local Open Scope Z_scope.

Abbreviation uchar := Ascii.ascii.

(** ** Machine integers *)

Definition INT_MAX : Z := 2 ^ 31 - 1.
Definition INT_MIN : Z := - 2 ^ 31.

(** Two's-complement reduction of a mathematical integer to [int]. *)
Definition wrap_int (z : Z) : Z := (z + 2 ^ 31) `mod` 2 ^ 32 - 2 ^ 31.

(** [(int) v.size()] *)
Definition int_of_size (n : nat) : Z := wrap_int (Z.of_nat n).

Lemma wrap_int_id z : INT_MIN ≤ z ≤ INT_MAX → wrap_int z = z.
Proof.
  unfold wrap_int, INT_MIN, INT_MAX. intros H.
  rewrite Z.mod_small; lia.
Qed.

Lemma wrap_int_range z : INT_MIN ≤ wrap_int z ≤ INT_MAX.
Proof.
  unfold wrap_int, INT_MIN, INT_MAX.
  pose proof (Z.mod_pos_bound (z + 2 ^ 31) (2 ^ 32) ltac:(lia)). lia.
Qed.

Lemma int_of_size_id n : Z.of_nat n ≤ INT_MAX → int_of_size n = Z.of_nat n.
Proof. intros H. apply wrap_int_id. unfold INT_MIN. lia. Qed.

(** ** Computations that may throw *)

Inductive outcome (E S A : Type) : Type :=
| Done (a : A) (s : S)
| Raised (e : E) (s : S).
Arguments Done {E S A} a s.
Arguments Raised {E S A} e s.

Definition M (E S A : Type) : Type := S → outcome E S A.

Definition ret {E S A} (a : A) : M E S A := fun s => Done a s.

Definition bind {E S A B} (c : M E S A) (k : A → M E S B) : M E S B :=
  fun s => match c s with
           | Done a s' => k a s'
           | Raised e s' => Raised e s'
           end.

Definition raise {E S A} (e : E) : M E S A := fun s => Raised e s.

(** [try { c } catch (...) { h }]: the handler sees the state at the throw. *)
Definition try_catch {E S A} (c : M E S A) (h : E → M E S A) : M E S A :=
  fun s => match c s with
           | Done a s' => Done a s'
           | Raised e s' => h e s'
           end.

Definition get {E S} : M E S S := fun s => Done s s.
Definition put {E S} (s : S) : M E S unit := fun _ => Done tt s.
Definition modify {E S} (f : S → S) : M E S unit := fun s => Done tt (f s).

(** The state a computation ends in, whether it returns or throws. *)
Definition final_state {E S A} (o : outcome E S A) : S :=
  match o with Done _ s => s | Raised _ s => s end.

(** Whether a computation returned. *)
Definition returned {E S A} (o : outcome E S A) : bool :=
  match o with Done _ _ => true | Raised _ _ => false end.

(** The exception a computation ended with, if any. *)
Definition raised {E S A} (o : outcome E S A) : option E :=
  match o with Done _ _ => None | Raised e _ => Some e end.

Declare Scope cpp_scope.
Delimit Scope cpp_scope with cpp.
Notation "x <- c1 ;; c2" := (bind c1 (fun x => c2))
  (at level 20, c1 at level 99, c2 at level 200, right associativity,
   format "'[v' x  <-  c1  ;;  '/' c2 ']'") : cpp_scope.
Notation "c1 ;; c2" := (bind c1 (fun _ => c2))
  (at level 100, c2 at level 200, right associativity,
   format "'[v' c1  ;;  '/' c2 ']'") : cpp_scope.
Local Open Scope cpp_scope.

(** [for (x : xs) body(x)], without [break]. *)
Fixpoint for_each {E S X} (xs : list X) (body : X → M E S unit) : M E S unit :=
  match xs with
  | [] => ret tt
  | x :: xs' => body x ;; for_each xs' body
  end.

(** [for (int i = 0; i < n; i++) body(i)] *)
Definition for_range {E S} (n : Z) (body : Z → M E S unit) : M E S unit :=
  for_each (seqZ 0 n) body.

Lemma returned_Done {E S} (o : outcome E S unit) :
  returned o = true → o = Done tt (final_state o).
Proof. destruct o as [[] s|e s]; [reflexivity | discriminate]. Qed.

Lemma raised_Raised {E S A} (o : outcome E S A) e :
  raised o = Some e → o = Raised e (final_state o).
Proof. destruct o as [a s|e' s]; [discriminate | by intros [= ->]]. Qed.

Lemma bind_Done {E S A B} (c : M E S A) (k : A → M E S B) s a s' :
  c s = Done a s' → bind c k s = k a s'.
Proof. unfold bind. by intros ->. Qed.

Lemma bind_Raised {E S A B} (c : M E S A) (k : A → M E S B) s e s' :
  c s = Raised e s' → bind c k s = Raised e s'.
Proof. unfold bind. by intros ->. Qed.

Lemma bind_Done_inv {E S A B} (c : M E S A) (k : A → M E S B) s b s2 :
  bind c k s = Done b s2 → ∃ a s1, c s = Done a s1 ∧ k a s1 = Done b s2.
Proof. unfold bind. destruct (c s) as [a s1|e s1]; [eauto | done]. Qed.

Lemma for_each_app {E S X} (xs ys : list X) (body : X → M E S unit) s :
  for_each (xs ++ ys) body s =
  (for_each xs body ;; for_each ys body) s.
Proof.
  revert s. induction xs as [|x xs IH]; intros s; simpl; [done|].
  unfold bind in *. destruct (body x s) as [[] s1|e s1]; [|done].
  apply IH.
Qed.

(** ** Hoare triples over [M]

    [triple P c Q R]: from a state satisfying [P], the computation [c] either
    returns [a] in a state satisfying [Q a], or throws [e] in a state
    satisfying [R e]. The computations are total functions, so a triple is a
    statement of total correctness. *)

Definition triple {E S A} (P : S → Prop) (c : M E S A)
    (Q : A → S → Prop) (R : E → S → Prop) : Prop :=
  ∀ s, P s → match c s with
             | Done a s' => Q a s'
             | Raised e s' => R e s'
             end.

Lemma triple_ret {E S A} (P : S → Prop) (a : A) (Q : A → S → Prop) (R : E → S → Prop) :
  (∀ s, P s → Q a s) → triple P (ret a) Q R.
Proof. intros H s Hs. simpl. auto. Qed.

Lemma triple_raise {E S A} (P : S → Prop) (e : E) (Q : A → S → Prop) (R : E → S → Prop) :
  (∀ s, P s → R e s) → triple P (raise e) Q R.
Proof. intros H s Hs. simpl. auto. Qed.

Lemma triple_bind {E S A B} (P : S → Prop) (c : M E S A) (k : A → M E S B)
    (Q : A → S → Prop) (Q' : B → S → Prop) (R : E → S → Prop) :
  triple P c Q R → (∀ a, triple (Q a) (k a) Q' R) → triple P (bind c k) Q' R.
Proof.
  intros Hc Hk s Hs. unfold bind. specialize (Hc s Hs).
  destruct (c s) as [a s1|e s1]; [by apply Hk | done].
Qed.

Lemma triple_conseq {E S A} (P P' : S → Prop) (c : M E S A)
    (Q Q' : A → S → Prop) (R R' : E → S → Prop) :
  triple P' c Q' R' → (∀ s, P s → P' s) → (∀ a s, Q' a s → Q a s) →
  (∀ e s, R' e s → R e s) → triple P c Q R.
Proof.
  intros Hc HP HQ HR s Hs. specialize (Hc s (HP s Hs)).
  destruct (c s); auto.
Qed.

Lemma triple_modify {E S} (P : S → Prop) (f : S → S) (Q : unit → S → Prop) (R : E → S → Prop) :
  (∀ s, P s → Q tt (f s)) → triple P (modify f) Q R.
Proof. intros H s Hs. simpl. auto. Qed.

Lemma triple_get {E S} (P : S → Prop) (Q : S → S → Prop) (R : E → S → Prop) :
  (∀ s, P s → Q s s) → triple P get Q R.
Proof. intros H s Hs. simpl. auto. Qed.

(** A loop keeps an invariant that every iteration keeps. *)
Lemma triple_for_each {E S X} (I : S → Prop) (xs : list X) (body : X → M E S unit)
    (R : E → S → Prop) :
  (∀ x, x ∈ xs → triple I (body x) (fun _ => I) R) →
  triple I (for_each xs body) (fun _ => I) R.
Proof.
  induction xs as [|x xs IH]; intros Hbody.
  - by apply triple_ret.
  - simpl. eapply triple_bind.
    + apply Hbody. by left.
    + intros u. apply IH. intros y Hy. apply Hbody. by right.
Qed.

Lemma triple_try_catch {E S A} (P : S → Prop) (c : M E S A) (h : E → M E S A)
    (Q : A → S → Prop) (R R' : E → S → Prop) :
  triple P c Q R' → (∀ e, triple (R' e) (h e) Q R) → triple P (try_catch c h) Q R.
Proof.
  intros Hc Hh s Hs. unfold try_catch. specialize (Hc s Hs).
  destruct (c s) as [a s1|e s1]; [done | by apply Hh].
Qed.

Lemma triple_seq {E S A B} (P : S → Prop) (Qm : S → Prop) (c1 : M E S A)
    (c2 : M E S B) (Q : B → S → Prop) (R : E → S → Prop) :
  triple P c1 (fun _ => Qm) R → triple Qm c2 Q R → triple P (c1 ;; c2) Q R.
Proof. intros H1 H2. eapply triple_bind; [apply H1 | intros ?; apply H2]. Qed.

Lemma triple_Done {E S A} (P : S → Prop) (c : M E S A)
    (Q : A → S → Prop) (R : E → S → Prop) s a s' :
  triple P c Q R → P s → c s = Done a s' → Q a s'.
Proof. intros Hc Hs Heq. specialize (Hc s Hs). by rewrite Heq in Hc. Qed.

Lemma triple_final_state {E S A} (P : S → Prop) (c : M E S A)
    (Q : A → S → Prop) (R : E → S → Prop) (I : S → Prop) s :
  triple P c Q R → P s → (∀ a s', Q a s' → I s') → (∀ e s', R e s' → I s') →
  I (final_state (c s)).
Proof.
  intros Hc Hs HQ HR. specialize (Hc s Hs).
  destruct (c s); simpl; eauto.
Qed.

(** * The VTK writer ([HBTK::Vtk::VtkWriter], second part of
      [src/Plot3DParser.cpp]) *)

Module VtkWriter.

(** [enum vtk_file_type], declared in [VtkWriter.h]: [None], [UnstructuredGrid]
    and the grid types that fall into the [default:] branch of [open_file].
    ([None] is spelled [NoneType] here, [None] being the option constructor.) *)
Inductive vtk_file_type := NoneType | UnstructuredGrid | OtherGrid.

Global Instance vtk_file_type_eq_dec : EqDecision vtk_file_type.
Proof. solve_decision. Defined.

(** What reaches the output stream: the calls made on the XML tag writer and
    the characters written with [operator<<]. *)
Inductive out_item :=
| XmlHeader (version encoding : string)
| OpenTag (name : string) (attrs : list (string * string))
| CloseTag (name : option string)
| OutChar (c : uchar).

(** How a call can fail. *)
Inductive failure :=
| runtime_error (what : string)   (* throw std::runtime_error(what) *)
| assert_failure                  (* a failed assert(): abort() *)
| terminate.                      (* throw; with no active exception *)

(** One cell of [VtkUnstructuredMeshHolder::cells]. *)
Record cell := mk_cell { cell_type : Z; node_ids : list Z }.

(** The writer object. [m_xml_writer] is the tag writer's stack of open tags
    (innermost first). *)
Record VtkWriter := mk_writer {
  m_written_xml_header : bool;
  m_file_type : vtk_file_type;
  ascii : bool;
  appended : bool;
  write_precision : Z;
  m_xml_writer : list string;
  m_appended_data : list (list uchar)
}.

(** [VtkWriter::VtkWriter()] *)
Definition constructor : VtkWriter :=
  {| m_written_xml_header := false; m_file_type := NoneType;
     ascii := false; appended := true; write_precision := 6;
     m_xml_writer := []; m_appended_data := [] |}.

Definition set_file_type (t : vtk_file_type) (w : VtkWriter) : VtkWriter :=
  {| m_written_xml_header := m_written_xml_header w; m_file_type := t;
     ascii := ascii w; appended := appended w;
     write_precision := write_precision w;
     m_xml_writer := m_xml_writer w; m_appended_data := m_appended_data w |}.

Definition set_xml_writer (k : list string) (w : VtkWriter) : VtkWriter :=
  {| m_written_xml_header := m_written_xml_header w; m_file_type := m_file_type w;
     ascii := ascii w; appended := appended w;
     write_precision := write_precision w;
     m_xml_writer := k; m_appended_data := m_appended_data w |}.

Definition set_appended_data (d : list (list uchar)) (w : VtkWriter) : VtkWriter :=
  {| m_written_xml_header := m_written_xml_header w; m_file_type := m_file_type w;
     ascii := ascii w; appended := appended w;
     write_precision := write_precision w;
     m_xml_writer := m_xml_writer w; m_appended_data := d |}.

(** The state a member function runs in: the object and the stream. *)
Definition wstate : Type := VtkWriter * list out_item.
Definition W (A : Type) : Type := M failure wstate A.

Definition this : W VtkWriter := fun s => Done (fst s) s.

Definition emit (o : out_item) : W unit :=
  modify (fun s : wstate => (fst s, snd s ++ [o])).

(** Modelled from the spec: the tag writer ([XmlWriter], not in src/), "a
    generic open/close-tag writer" for "nested, attributed markup":
    [open_tag] writes an opening tag and remembers it, [close_tag] closes the
    innermost tag still open. *)
Definition xml_writer_header (version encoding : string) : W unit :=
  emit (XmlHeader version encoding).

Definition open_tag (name : string) (attrs : list (string * string)) : W unit :=
  modify (fun s : wstate =>
    (set_xml_writer (name :: m_xml_writer (fst s)) (fst s),
     snd s ++ [OpenTag name attrs])).

Definition close_tag : W unit :=
  modify (fun s : wstate =>
    (set_xml_writer (tail (m_xml_writer (fst s))) (fst s),
     snd s ++ [CloseTag (head (m_xml_writer (fst s)))])).

(** [n] little-endian bytes of [z] (two's complement for a negative [z]). *)
Fixpoint le_bytes (n : nat) (z : Z) : list uchar :=
  match n with
  | O => []
  | S n' => Ascii.ascii_of_N (Z.to_N (z `mod` 256)) :: le_bytes n' (z `div` 256)
  end.

(** [m_appended_data.push_back(buffer)] *)
Definition push_appended (buffer : list uchar) : W unit :=
  modify (fun s : wstate =>
    (set_appended_data (m_appended_data (fst s) ++ [buffer]) (fst s), snd s)).

(** [appended_data_bytelength() const]:
    [int acc = 0; for (auto & arr : m_appended_data) acc += (int)arr.size();
     return acc;] *)
Definition bytelength (data : list (list uchar)) : Z :=
  foldl (fun acc arr => wrap_int (acc + int_of_size (length arr))) 0 data.

Definition appended_data_bytelength (w : VtkWriter) : Z :=
  bytelength (m_appended_data w).

(** What the writer takes from its environment: the build mode, the type
    [double], and the library functions it calls on values. *)
Class Env := {
  (** [assert] is compiled out when [NDEBUG] is defined. *)
  NDEBUG : bool;
  double : Type;
  (** The 8 bytes of a double, as [reinterpret_cast<const unsigned char*>]
      reads them. *)
  double_bytes : double → list uchar;
  (** [out << std::setprecision(p) << x] for a double and for an int. *)
  show_double : Z → double → string;
  show_int : Z → Z → string;
  (** [std::to_string(int)] *)
  to_string : Z → string;
  (** [HBTK::encode_base64] ([Base64.h]; its definition is not in src/). *)
  encode_base64 : list uchar → string
}.

Section Writer.

Context `{Env}.

(** [CartesianPoint3D] and [CartesianVector3D]: three doubles, read through
    [as_array()]. *)
Record Cartesian3D := mk_cartesian { c_x : double; c_y : double; c_z : double }.
Definition as_array (p : Cartesian3D) : list double := [c_x p; c_y p; c_z p].

Record VtkUnstructuredMeshHolder := mk_mesh {
  points : list Cartesian3D;
  cells : list cell
}.

(** The named field collections are iterated as sequences of
    [(name, values)] pairs. *)
Record VtkUnstructuredDataset := mk_dataset {
  mesh : VtkUnstructuredMeshHolder;
  integer_point_data : list (string * list Z);
  scalar_point_data : list (string * list double);
  vector_point_data : list (string * list Cartesian3D);
  integer_cell_data : list (string * list Z);
  scalar_cell_data : list (string * list double);
  vector_cell_data : list (string * list Cartesian3D)
}.

Definition assert (c : bool) : W unit :=
  if NDEBUG then ret tt else if c then ret tt else raise assert_failure.

Definition chars (s : string) : list uchar := String.list_ascii_of_string s.

Definition newline : uchar := Ascii.ascii_of_nat 10.
Definition space : uchar := Ascii.ascii_of_nat 32.

(** [encode_base64(&*buffer.begin(), (int)buffer.size())], then the string
    copied back into a byte vector. *)
Definition base64_buffer (raw : list uchar) : list uchar :=
  chars (encode_base64 (take (Z.to_nat (int_of_size (length raw))) raw)).

(** The tail shared by the four [vtk_data_array_generate_buffer]:
    [if (appended) m_appended_data.push_back(buffer); return buffer;] *)
Definition submit_if_appended (buffer : list uchar) : W (list uchar) :=
  w <- this ;;
  (if appended w then push_appended buffer else ret tt) ;;
  ret buffer.

(** [vtk_data_array_generate_buffer(const std::vector<double>&)] *)
Definition vtk_data_array_generate_buffer_double (scalars : list double)
    : W (list uchar) :=
  w <- this ;;
  let buffer :=
    if ascii w then
      concat (map (fun sca => chars (show_double (write_precision w) sca)
                              ++ [newline]) scalars)
    else
      base64_buffer (le_bytes 8 (8 * Z.of_nat (length scalars))
                     ++ concat (map double_bytes scalars)) in
  submit_if_appended buffer.

(** [vtk_data_array_generate_buffer(const std::vector<int>&)] *)
Definition vtk_data_array_generate_buffer_int (integers : list Z)
    : W (list uchar) :=
  w <- this ;;
  let buffer :=
    if ascii w then
      concat (map (fun sca => chars (show_int (write_precision w) sca)
                              ++ [newline]) integers)
    else
      base64_buffer (le_bytes 8 (8 * Z.of_nat (length integers))
                     ++ concat (map (le_bytes 8) integers)) in
  submit_if_appended buffer.

(** [vtk_data_array_generate_buffer] for [CartesianVector3D] and for
    [CartesianPoint3D]: the two bodies are the same text. *)
Definition vtk_data_array_generate_buffer_vector (vectors : list Cartesian3D)
    : W (list uchar) :=
  w <- this ;;
  let buffer :=
    if ascii w then
      concat (map (fun vect =>
                concat (map (fun doub =>
                  chars (show_double (write_precision w) doub) ++ [space])
                  (as_array vect)) ++ [newline]) vectors)
    else
      base64_buffer (le_bytes 8 (8 * Z.of_nat (length vectors) * 3)
                     ++ concat (map (fun vec =>
                          concat (map double_bytes (as_array vec))) vectors)) in
  submit_if_appended buffer.

Definition vtk_data_array_generate_buffer_point (pnts : list Cartesian3D)
    : W (list uchar) :=
  vtk_data_array_generate_buffer_vector pnts.

(** [vtk_data_array_format_options() const] *)
Definition vtk_data_array_format_options : W (list (string * string)) :=
  w <- this ;;
  if appended w then
    if ascii w then raise terminate
    else ret [("format", "appended");
              ("Offset", to_string (appended_data_bytelength w))]
  else
    if ascii w then ret [("format", "ascii")]
    else ret [("format", "binary")].

(** The body shared by the four [vtk_data_array] overloads, which differ in
    the [type] and [NumberOfComponents] attributes and in the
    [vtk_data_array_generate_buffer] overload they call. *)
Definition vtk_data_array_body (type_ ncomp : string) (name : string)
    (generate_buffer : W (list uchar)) : W unit :=
  let xml_params := [("type", type_); ("Name", name);
                     ("NumberOfComponents", ncomp)] in
  format_params <- vtk_data_array_format_options ;;
  let xml_params := xml_params ++ format_params in
  open_tag "DataArray" xml_params ;;
  data <- generate_buffer ;;
  w <- this ;;
  (if negb (appended w)
   then for_each data (fun ch => emit (OutChar ch))
   else ret tt) ;;
  close_tag.

Definition vtk_data_array_double (name : string) (scalars : list double) : W unit :=
  vtk_data_array_body "Float64" "1" name
    (vtk_data_array_generate_buffer_double scalars).

Definition vtk_data_array_int (name : string) (ints : list Z) : W unit :=
  vtk_data_array_body "Int64" "1" name
    (vtk_data_array_generate_buffer_int ints).

Definition vtk_data_array_vector (name : string) (vects : list Cartesian3D) : W unit :=
  vtk_data_array_body "Float64" "3" name
    (vtk_data_array_generate_buffer_vector vects).

Definition vtk_data_array_point (name : string) (pnts : list Cartesian3D) : W unit :=
  vtk_data_array_body "Float64" "3" name
    (vtk_data_array_generate_buffer_point pnts).

(** [xml_header] *)
Definition xml_header : W unit := xml_writer_header "1.0" "UTF-8".

(** [vtk_unstructured_file_header] *)
Definition vtk_unstructured_file_header : W unit :=
  open_tag "VTKFile" [("type", "UnstructuredGrid"); ("version", "1.0");
                      ("byte_order", "LittleEndian");
                      ("header_type", "UInt64")] ;;
  open_tag "UnstructuredGrid" [].

(** [open_file] *)
Definition open_file (file_type : vtk_file_type) : W unit :=
  w <- this ;;
  (if negb (m_written_xml_header w) then xml_header else ret tt) ;;
  match file_type with
  | UnstructuredGrid =>
      vtk_unstructured_file_header ;;
      modify (fun s : wstate => (set_file_type file_type (fst s), snd s))
  | _ =>
      raise (runtime_error
        "HBTK::Vtk::VtkWriter::open_file: Given invalid file type (probably None). ")
  end.

(** [vtk_unstructured_piece] *)
Definition vtk_unstructured_piece (num_points num_cells : Z) : W unit :=
  open_tag "Piece" [("NumberOfPoints", to_string num_points);
                    ("NumberOfCells", to_string num_cells)].

(** The three loops of [vtk_unstructured_cells] over [scratch]. *)

(** [std::vector<int> scratch(mesh.cells.size());
     for (int i = 0; i < (int)mesh.cells.size(); i++)
       scratch[i] = mesh.cells[i].cell_type;] *)
Definition scratch_types (cs : list cell) : list Z :=
  foldl (fun scratch i =>
           <[Z.to_nat i := from_option cell_type 0 (cs !! Z.to_nat i)]> scratch)
        (replicate (length cs) 0)
        (seqZ 0 (int_of_size (length cs))).

(** [int offset_counter = 0;
     for (int i = 0; i < (int)mesh.cells.size(); i++) {
       offset_counter += (int)mesh.cells[i].node_ids.size();
       scratch[i] = offset_counter; }] *)
Definition offsets_step (cs : list cell) (st : Z * list Z) (i : Z) : Z * list Z :=
  let offset_counter :=
    wrap_int (st.1 + int_of_size
                (length (from_option node_ids [] (cs !! Z.to_nat i)))) in
  (offset_counter, <[Z.to_nat i := offset_counter]> st.2).

Definition scratch_offsets (cs : list cell) (scratch : list Z) : list Z :=
  (foldl (offsets_step cs) (0, scratch) (seqZ 0 (int_of_size (length cs)))).2.

(** [scratch.clear();
     for (auto & cell : mesh.cells)
       for (auto & node : cell.node_ids) scratch.push_back(node);] *)
Definition scratch_connectivity (cs : list cell) : list Z :=
  foldl (fun scratch cell =>
           foldl (fun scratch node => scratch ++ [node]) scratch (node_ids cell))
        [] cs.

(** [vtk_unstructured_cells] *)
Definition vtk_unstructured_cells (mesh : VtkUnstructuredMeshHolder) : W unit :=
  open_tag "Cells" [] ;;
  let scratch := scratch_types (cells mesh) in
  vtk_data_array_int "types" scratch ;;
  let scratch := scratch_offsets (cells mesh) scratch in
  vtk_data_array_int "offsets" scratch ;;
  let scratch := scratch_connectivity (cells mesh) in
  vtk_data_array_int "connectivity" scratch ;;
  close_tag.

(** [vtk_unstructured_mesh] *)
Definition vtk_unstructured_mesh (mesh : VtkUnstructuredMeshHolder) : W unit :=
  open_tag "Points" [] ;;
  vtk_data_array_point "Points" (points mesh) ;;
  close_tag ;;
  vtk_unstructured_cells mesh.

(** [vtk_unstructured_point_data] *)
Definition vtk_unstructured_point_data (data : VtkUnstructuredDataset) : W unit :=
  open_tag "PointData" [] ;;
  for_each (integer_point_data data)
    (fun subset => vtk_data_array_int subset.1 subset.2) ;;
  for_each (scalar_point_data data)
    (fun subset => vtk_data_array_double subset.1 subset.2) ;;
  for_each (vector_point_data data)
    (fun subset => vtk_data_array_vector subset.1 subset.2) ;;
  close_tag.

(** [vtk_unstructured_cell_data] *)
Definition vtk_unstructured_cell_data (data : VtkUnstructuredDataset) : W unit :=
  open_tag "CellData" [] ;;
  for_each (integer_cell_data data)
    (fun subset => vtk_data_array_int subset.1 subset.2) ;;
  for_each (scalar_cell_data data)
    (fun subset => vtk_data_array_double subset.1 subset.2) ;;
  for_each (vector_cell_data data)
    (fun subset => vtk_data_array_vector subset.1 subset.2) ;;
  close_tag.

(** [write_piece] *)
Definition write_piece (data : VtkUnstructuredDataset) : W unit :=
  w <- this ;;
  assert (negb (bool_decide (m_file_type w = NoneType))) ;;
  assert (negb (ascii w && appended w)) ;;
  (if negb (bool_decide (m_file_type w = UnstructuredGrid)) then
     raise (runtime_error
       "HBTK::Vtk::VtkWriter::write_piece(..., VtkUnstructuredGrid): VtkFileType is not unstructured grid! ")
   else ret tt) ;;
  vtk_unstructured_piece (int_of_size (length (points (mesh data))))
                         (int_of_size (length (cells (mesh data)))) ;;
  vtk_unstructured_mesh (mesh data) ;;
  vtk_unstructured_point_data data ;;
  vtk_unstructured_cell_data data ;;
  close_tag.

(** [close_file] *)
Definition close_file : W unit :=
  close_tag ;;
  w <- this ;;
  (if negb (bool_decide (int_of_size (length (m_appended_data w)) = 0)) then
     (if ascii w
      then open_tag "AppendedData" [("encoding", "ascii")]
      else open_tag "AppendedData" [("encoding", "base64")]) ;;
     emit (OutChar "_"%char) ;;
     for_each (m_appended_data w)
       (fun s => for_each s (fun c => emit (OutChar c))) ;;
     close_tag
   else ret tt) ;;
  close_tag.

End Writer.

End VtkWriter.


(** * The Plot3D reader ([HBTK::Plot3D::Plot3DParser]) *)

Module Plot3D.

(** ** The input stream

    [std::ifstream] as the parser uses it: the characters not read yet and
    the two state bits that decide what a read does. A stream is [good] when
    neither bit is set; [!input_stream] is [failbit]. *)
Record ifstream := mk_ifstream { buf : string; eofbit : bool; failbit : bool }.

Definition good (s : ifstream) : bool := negb (eofbit s) && negb (failbit s).

Definition set_failbit (s : ifstream) : ifstream :=
  {| buf := buf s; eofbit := eofbit s; failbit := true |}.

(** What the parser can throw. *)
Inductive exn :=
| throw_int (n : Z)      (* throw <int>; *)
| length_error           (* std::vector::resize beyond max_size() *)
| invalid_number         (* std::stoi, std::stod: no conversion, or out of range *)
| malformed_stream       (* the binary reading helpers *)
| assert_failure.        (* a failed assert(): abort() *)

(** Characters up to the first newline, and what follows it (if there is
    one): the extraction loop of [std::getline]. *)
Fixpoint until_newline (s : string) : string * option string :=
  match s with
  | EmptyString => (EmptyString, None)
  | String c s' =>
      if Ascii.eqb c (Ascii.ascii_of_nat 10) then (EmptyString, Some s')
      else let r := until_newline s' in (String c r.1, r.2)
  end.

(** [std::isspace] in the "C" locale. *)
Definition isspace (c : uchar) : bool :=
  let n := Ascii.nat_of_ascii c in
  (n =? 32)%nat || ((9 <=? n)%nat && (n <=? 13)%nat).

Fixpoint skip_ws (s : string) : string :=
  match s with
  | EmptyString => EmptyString
  | String c s' => if isspace c then skip_ws s' else s
  end.

(** The first [n] characters, when there are that many. *)
Fixpoint take_bytes (n : nat) (s : string) : option (list uchar * string) :=
  match n with
  | O => Some ([], s)
  | S n' =>
      match s with
      | EmptyString => None
      | String c s' =>
          match take_bytes n' s' with
          | Some (bs, rest) => Some (c :: bs, rest)
          | None => None
          end
      end
  end.

(** A little-endian [int] from its bytes. *)
Fixpoint le_unsigned (bs : list uchar) : Z :=
  match bs with
  | [] => 0
  | b :: bs' => Z.of_N (Ascii.N_of_ascii b) + 256 * le_unsigned bs'
  end.

Definition le_int (bs : list uchar) : Z := wrap_int (le_unsigned bs).

(** What the parser takes from its environment: the build mode, the type
    [double] with its default value 0.0, the type of the state the registered
    callbacks capture and may change, and the functions declared outside
    src/. *)
Class Env := {
  (** [assert] is compiled out when [NDEBUG] is defined. *)
  NDEBUG : bool;
  double : Type;
  zero : double;
  World : Type;
  (** [std::atoi]; [std::stoi] and [std::stod] ([None] when they throw). *)
  atoi : string → Z;
  stoi : string → option Z;
  stod : string → option double;
  (** The number parser behind [operator>>(double&)], given the text after
      leading white space; [None] when it begins with no number. *)
  scan_double : string → option (double * string);
  (** The reading of a [double] from its 8 bytes. *)
  double_of_bytes : list uchar → double;
  (** [HBTK::tokenise]: split a line into tokens. *)
  tokenise : string → list string;
  (** [StructuredMeshBlock3D::coord], as the older revision uses it:
      [auto coord = mesh.coord(i, j, k); std::get<N>(coord) = value;]
      where [coord] is a copy of what [mesh.coord] returns. If that is a
      tuple of references into the block the assignment reaches the block;
      if it is a tuple of values the assignment changes the local copy only.
      [coord_is_view] selects the first reading. *)
  coord_is_view : bool
}.

Section Parser.

Context `{Env}.

(** ** Mesh blocks *)

(** A coordinate triple, read and written by component index. *)
Record coord3 := mk_coord3 { c0 : double; c1 : double; c2 : double }.

Definition get_component (c : coord3) (xyz_idx : Z) : double :=
  if xyz_idx =? 0 then c0 c else if xyz_idx =? 1 then c1 c else c2 c.

Definition set_component (c : coord3) (xyz_idx : Z) (v : double) : coord3 :=
  if xyz_idx =? 0 then mk_coord3 v (c1 c) (c2 c)
  else if xyz_idx =? 1 then mk_coord3 (c0 c) v (c2 c)
  else if xyz_idx =? 2 then mk_coord3 (c0 c) (c1 c) v
  else c.

(** Modelled from the spec: [StructuredMeshBlock3D] (not in src/), "an ordered
    rectangular grid of coordinate tuples, indexed by integer position
    (i, j, k)", whose extents are set before any coordinate is written or
    read. The storage is a finite map from index triples; a cell that was
    never written reads as the default coordinate (0, 0, 0). *)
Record StructuredMeshBlock3D := mk_block3 {
  extent : Z * Z * Z;
  storage : gmap (Z * Z * Z) coord3
}.

Definition new_block3 : StructuredMeshBlock3D :=
  {| extent := (0, 0, 0); storage := ∅ |}.

Definition set_extent (e : Z * Z * Z) (m : StructuredMeshBlock3D)
    : StructuredMeshBlock3D :=
  {| extent := e; storage := ∅ |}.

Definition coord (m : StructuredMeshBlock3D) (idx : Z * Z * Z) : coord3 :=
  default (mk_coord3 zero zero zero) (storage m !! idx).

Definition set_coord (m : StructuredMeshBlock3D) (idx : Z * Z * Z) (c : coord3)
    : StructuredMeshBlock3D :=
  {| extent := extent m; storage := <[idx := c]> (storage m) |}.

(** Modelled from the spec: [StructuredMeshBlock2D], the 2D variant: pairs
    indexed by (i, j). *)
Record StructuredMeshBlock2D := mk_block2 {
  extent_2d : Z * Z;
  storage_2d : gmap (Z * Z) (double * double)
}.

Definition new_block2 : StructuredMeshBlock2D :=
  {| extent_2d := (0, 0); storage_2d := ∅ |}.

Definition set_extent_2d (e : Z * Z) (m : StructuredMeshBlock2D)
    : StructuredMeshBlock2D :=
  {| extent_2d := e; storage_2d := ∅ |}.

Definition coord_2d (m : StructuredMeshBlock2D) (idx : Z * Z) : double * double :=
  default (zero, zero) (storage_2d m !! idx).

Definition set_coord_2d (m : StructuredMeshBlock2D) (idx : Z * Z)
    (c : double * double) : StructuredMeshBlock2D :=
  {| extent_2d := extent_2d m; storage_2d := <[idx := c]> (storage_2d m) |}.

(** ** Consumers

    A registered [std::function<bool(Block)>]. The block is a by-value
    parameter: the callee works on its own object. Besides the returned flag
    and the change to the captured state, the model returns that object as
    the callee left it, so that what the caller does with it is explicit. *)
Definition consumer (Block : Type) : Type := Block → World → bool * Block * World.

(** The parser object. *)
Record Plot3DParser := mk_parser {
  single_block : bool;
  parse_as_binary : bool;
  number_of_dimensions : Z;
  m_mesh_2d_functions : list (consumer StructuredMeshBlock2D);
  m_mesh_3d_functions : list (consumer StructuredMeshBlock3D)
}.

(** [Plot3DParser::Plot3DParser()] *)
Definition constructor : Plot3DParser :=
  {| single_block := false; parse_as_binary := true; number_of_dimensions := -1;
     m_mesh_2d_functions := []; m_mesh_3d_functions := [] |}.

(** [add_2D_block_function], [add_3D_block_function]: [push_back]. *)
Definition add_2D_block_function (func : consumer StructuredMeshBlock2D)
    (this : Plot3DParser) : Plot3DParser :=
  {| single_block := single_block this; parse_as_binary := parse_as_binary this;
     number_of_dimensions := number_of_dimensions this;
     m_mesh_2d_functions := m_mesh_2d_functions this ++ [func];
     m_mesh_3d_functions := m_mesh_3d_functions this |}.

Definition add_3D_block_function (func : consumer StructuredMeshBlock3D)
    (this : Plot3DParser) : Plot3DParser :=
  {| single_block := single_block this; parse_as_binary := parse_as_binary this;
     number_of_dimensions := number_of_dimensions this;
     m_mesh_2d_functions := m_mesh_2d_functions this;
     m_mesh_3d_functions := m_mesh_3d_functions this ++ [func] |}.

(** ** The observable history of a parse

    Every action on the stream, every block allocation and every callback
    invocation is appended to a log; the log is not read by the parser. *)
Inductive event :=
| Getline (line : string)        (* std::getline: this_line afterwards *)
| Extract (v : double)           (* input_stream >> tmp_val *)
| RecordOpen (len : Z)           (* record_open: the leading length *)
| RecordClose (len : Z)          (* record_close: the trailing length *)
| UnpackInt (v : Z)              (* unpack_binary_to_struct, int *)
| UnpackDouble (v : double)      (* unpack_binary_to_struct, double *)
| SetExtent (e : Z * Z * Z)      (* mesh.set_extent on a fresh block *)
| Call3D (idx : nat) (b : StructuredMeshBlock3D) (r : bool)
| Call2D (idx : nat) (b : StructuredMeshBlock2D) (r : bool).

(** The state of a running parse: the stream, the local variables of the
    parsing function, the callbacks' world, and the log. *)
Record pstate := mk_pstate {
  input_stream : ifstream;
  this_line : string;
  line_number : Z;
  extents : list (list Z);
  mesh : StructuredMeshBlock3D;
  fortran_input : Z;            (* the record length record_open stored *)
  world : World;
  log : list event
}.

Definition P (A : Type) : Type := M exn pstate A.

Definition set_input_stream (v : ifstream) (st : pstate) : pstate :=
  mk_pstate v (this_line st) (line_number st) (extents st) (mesh st)
            (fortran_input st) (world st) (log st).
Definition set_this_line (v : string) (st : pstate) : pstate :=
  mk_pstate (input_stream st) v (line_number st) (extents st) (mesh st)
            (fortran_input st) (world st) (log st).
Definition set_line_number (v : Z) (st : pstate) : pstate :=
  mk_pstate (input_stream st) (this_line st) v (extents st) (mesh st)
            (fortran_input st) (world st) (log st).
Definition set_extents (v : list (list Z)) (st : pstate) : pstate :=
  mk_pstate (input_stream st) (this_line st) (line_number st) v (mesh st)
            (fortran_input st) (world st) (log st).
Definition set_mesh (v : StructuredMeshBlock3D) (st : pstate) : pstate :=
  mk_pstate (input_stream st) (this_line st) (line_number st) (extents st) v
            (fortran_input st) (world st) (log st).
Definition set_fortran_input (v : Z) (st : pstate) : pstate :=
  mk_pstate (input_stream st) (this_line st) (line_number st) (extents st)
            (mesh st) v (world st) (log st).
Definition set_world (v : World) (st : pstate) : pstate :=
  mk_pstate (input_stream st) (this_line st) (line_number st) (extents st)
            (mesh st) (fortran_input st) v (log st).
Definition add_log (e : event) (st : pstate) : pstate :=
  mk_pstate (input_stream st) (this_line st) (line_number st) (extents st)
            (mesh st) (fortran_input st) (world st) (log st ++ [e]).

(** The state [main_parser] starts in. *)
Definition initial_state (input : ifstream) (w : World) : pstate :=
  mk_pstate input EmptyString 0 [] new_block3 0 w [].

Definition assert (c : bool) : P unit :=
  if NDEBUG then ret tt else if c then ret tt else raise assert_failure.

(** ** Reading text *)

(** [std::getline(input_stream, this_line)]. On a stream that is not good the
    call only sets [failbit] and leaves [this_line] as it was. Otherwise the
    line is extracted; reaching the end of the input sets [eofbit], and
    [failbit] too when no character at all was extracted. *)
Definition getline : P unit :=
  modify (fun st =>
    let s := input_stream st in
    let st' :=
      if good s then
        let r := until_newline (buf s) in
        match r.2 with
        | Some rest =>
            set_this_line r.1 (set_input_stream (mk_ifstream rest false false) st)
        | None =>
            set_this_line r.1
              (set_input_stream
                 (mk_ifstream EmptyString true (bool_decide (r.1 = EmptyString))) st)
        end
      else set_input_stream (set_failbit s) st in
    add_log (Getline (this_line st')) st').

(** [double tmp_val = 0; input_stream >> tmp_val;] and the value of
    [tmp_val] afterwards. A failed extraction sets [failbit] and leaves 0. *)
Definition extract_double : P double :=
  fun st =>
    let s := input_stream st in
    let r :=
      if good s then
        match skip_ws (buf s) with
        | EmptyString => (zero, mk_ifstream EmptyString true true)
        | text =>
            match scan_double text with
            | Some (v, rest) =>
                (v, mk_ifstream rest (bool_decide (rest = EmptyString)) false)
            | None => (zero, mk_ifstream text false true)
            end
        end
      else (zero, set_failbit s) in
    Done r.1 (add_log (Extract r.1) (set_input_stream r.2 st)).

(** [line_number++] *)
Definition incr_line_number : P unit :=
  modify (fun st => set_line_number (wrap_int (line_number st + 1)) st).

(** ** Reading binary data *)

(** Modelled from the spec: [unpack_binary_to_struct] (not in src/) reads the
    bytes of the struct from the stream; "any short read ... is a fatal
    malformed-stream condition". *)
Definition read_bytes (n : nat) : P (list uchar) :=
  fun st =>
    let s := input_stream st in
    if good s then
      match take_bytes n (buf s) with
      | Some (bs, rest) =>
          Done bs (set_input_stream (mk_ifstream rest false false) st)
      | None =>
          Raised malformed_stream
                 (set_input_stream (mk_ifstream EmptyString true true) st)
      end
    else Raised malformed_stream st.

Definition unpack_int : P Z :=
  bs <- read_bytes 4 ;;
  modify (add_log (UnpackInt (le_int bs))) ;;
  ret (le_int bs).

Definition unpack_double : P double :=
  bs <- read_bytes 8 ;;
  modify (add_log (UnpackDouble (double_of_bytes bs))) ;;
  ret (double_of_bytes bs).

(** Modelled from the spec: [FortranSequentialInputStream] (not in src/).
    "[open_record] reads a fixed-width integer giving the number of payload
    bytes that will follow and stores it as the expected record length";
    "[close_record] reads the trailing fixed-width integer and fails if it
    does not equal the value read at [open_record]". The integer is taken to
    be 4 bytes wide. *)
Definition record_open : P unit :=
  bs <- read_bytes 4 ;;
  modify (fun st => add_log (RecordOpen (le_int bs))
                            (set_fortran_input (le_int bs) st)).

Definition record_close : P unit :=
  bs <- read_bytes 4 ;;
  modify (add_log (RecordClose (le_int bs))) ;;
  st <- get ;;
  if bool_decide (le_int bs = fortran_input st) then ret tt
  else raise malformed_stream.

(** ** Parsing ([src/Plot3DParser.cpp]) *)

(** [apply_function_to_input_array]: [k] outermost, [j] in the middle, [i]
    innermost. *)
Definition apply_function_to_input_array (i_ext j_ext k_ext : Z)
    (func : Z → Z → Z → P unit) : P unit :=
  for_range k_ext (fun k =>
    for_range j_ext (fun j =>
      for_range i_ext (fun i => func i j k))).

(** One call [function(mesh)]: the block is copied into the callee's
    parameter; the flag comes back, the callee's copy is dropped. *)
Definition invoke {Block : Type} (ev : nat → Block → bool → event) (idx : nat)
    (function : consumer Block) (b : Block) : P bool :=
  fun st =>
    let r := function b (world st) in
    Done r.1.1 (add_log (ev idx b r.1.1) (set_world r.2 st)).

(** [for (auto & function : fs) { if (!function(b)) break; }], [idx] being
    the position of the head of [fs] in the registered list. *)
Fixpoint call_functions {Block : Type} (ev : nat → Block → bool → event)
    (idx : nat) (fs : list (consumer Block)) (b : Block) : P unit :=
  match fs with
  | [] => ret tt
  | function :: fs' =>
      r <- invoke ev idx function b ;;
      if negb r then ret tt else call_functions ev (S idx) fs' b
  end.

(** [extents[m][n]] and [extents[m][n] = v]. *)
Definition extents_at (ex : list (list Z)) (m n : Z) : Z :=
  default 0 (default [] (ex !! Z.to_nat m) !! Z.to_nat n).

Definition extents_set (ex : list (list Z)) (m n : Z) (v : Z) : list (list Z) :=
  alter (fun vect => <[Z.to_nat n := v]> vect) (Z.to_nat m) ex.

(** [for (auto &vect : extents) { vect.resize(number_of_blocks); }]. The
    [int] is converted to [size_t]: a negative count is beyond [max_size()]
    and [resize] throws [std::length_error]. *)
Definition resize_extents (number_of_blocks : Z) : P unit :=
  st <- get ;;
  match extents st with
  | [] => ret tt
  | _ =>
      if number_of_blocks <? 0 then raise length_error
      else modify (set_extents
                     (map (resize (Z.to_nat number_of_blocks) 0) (extents st)))
  end.

(** The body of the extents loop of [parse_ascii]. *)
Definition read_extents_line (dimensions : Z) (n : Z) : P unit :=
  getline ;;
  incr_line_number ;;
  st <- get ;;
  let strings := tokenise (this_line st) in
  (if int_of_size (length strings) <? dimensions
   then raise (throw_int (line_number st)) else ret tt) ;;
  for_range dimensions (fun m =>
    match stoi (default EmptyString (strings !! Z.to_nat m)) with
    | Some v => modify (fun st => set_extents (extents_set (extents st) m n v) st)
    | None => raise invalid_number
    end).

(** [HBTK::StructuredMeshBlock3D mesh; ... mesh.set_extent({i_ext, j_ext, k_ext});] *)
Definition allocate_block (dimensions : Z) (n : Z) : P (Z * Z * Z) :=
  st <- get ;;
  let i_ext := extents_at (extents st) 0 n in
  let j_ext := extents_at (extents st) 1 n in
  let k_ext := if dimensions =? 3 then extents_at (extents st) 2 n else 1 in
  modify (fun st => add_log (SetExtent (i_ext, j_ext, k_ext))
                      (set_mesh (set_extent (i_ext, j_ext, k_ext) new_block3) st)) ;;
  ret (i_ext, j_ext, k_ext).

(** [auto coord = mesh.coord({i, j, k}); coord[xyz_idx] = v;
     mesh.set_coord({i, j, k}, coord);] *)
Definition store_component (i j k : Z) (xyz_idx : Z) (v : double) : P unit :=
  modify (fun st =>
    let coord_ := coord (mesh st) (i, j, k) in
    let coord_ := set_component coord_ xyz_idx v in
    set_mesh (set_coord (mesh st) (i, j, k) coord_) st).

(** The lambda [read_bin] of [parse_ascii]. *)
Definition read_bin_ascii (i j k : Z) (xyz_idx : Z) : P unit :=
  tmp_val <- extract_double ;;
  store_component i j k xyz_idx tmp_val.

(** The lambda [read_bin] of [parse_binary]. *)
Definition read_bin_binary (i j k : Z) (xyz_idx : Z) : P unit :=
  v <- unpack_double ;;
  store_component i j k xyz_idx v.

(** [HBTK::StructuredMeshBlock2D mesh2d; mesh2d.set_extent({i_ext, j_ext});
     for (i...) for (j...) { auto coord = mesh.coord({i, j, 0});
                             mesh2d.coord({i, j}) = {coord[0], coord[1]}; }] *)
Definition project_2d (m : StructuredMeshBlock3D) (i_ext j_ext : Z)
    : StructuredMeshBlock2D :=
  foldl (fun mesh2d i =>
           foldl (fun mesh2d j =>
                    let coord_ := coord m (i, j, 0) in
                    set_coord_2d mesh2d (i, j) (c0 coord_, c1 coord_))
                 mesh2d (seqZ 0 j_ext))
        (set_extent_2d (i_ext, j_ext) new_block2) (seqZ 0 i_ext).

(** The part of the block loop that the two parsing functions share, after
    the X and Y passes: the Z pass and the 3D callbacks, or the projection
    and the 2D callbacks. *)
Definition finish_block (this : Plot3DParser) (dimensions : Z)
    (read_bin : Z → Z → Z → Z → P unit) (i_ext j_ext k_ext : Z) : P unit :=
  if dimensions =? 3 then
    apply_function_to_input_array i_ext j_ext k_ext
      (fun i j k => read_bin i j k 2) ;;
    st <- get ;;
    call_functions Call3D 0 (m_mesh_3d_functions this) (mesh st)
  else
    st <- get ;;
    let mesh2d := project_2d (mesh st) i_ext j_ext in
    call_functions Call2D 0 (m_mesh_2d_functions this) mesh2d.

(** The body of the block loop of [parse_ascii]. *)
Definition parse_block_ascii (this : Plot3DParser) (dimensions : Z) (n : Z) : P unit :=
  e <- allocate_block dimensions n ;;
  let i_ext := e.1.1 in let j_ext := e.1.2 in let k_ext := e.2 in
  apply_function_to_input_array i_ext j_ext k_ext
    (fun i j k => read_bin_ascii i j k 0) ;;
  apply_function_to_input_array i_ext j_ext k_ext
    (fun i j k => read_bin_ascii i j k 1) ;;
  finish_block this dimensions read_bin_ascii i_ext j_ext k_ext.

(** [parse_ascii] *)
Definition parse_ascii (this : Plot3DParser) (dimensions : Z) : P unit :=
  assert (dimensions <=? 3) ;;
  assert (dimensions >=? 2) ;;
  modify (set_extents (replicate (Z.to_nat dimensions) [])) ;;
  modify (set_this_line EmptyString) ;;
  modify (set_line_number 1) ;;
  try_catch
    (number_of_blocks <-
       (if single_block this then ret 1
        else
          getline ;;
          incr_line_number ;;
          st <- get ;;
          ret (atoi (this_line st))) ;;
     resize_extents number_of_blocks ;;
     for_range number_of_blocks (read_extents_line dimensions) ;;
     for_range number_of_blocks (parse_block_ascii this dimensions))
    (fun _ => st <- get ;; raise (throw_int (line_number st))).

(** The body of the block loop of [parse_binary]. *)
Definition parse_block_binary (this : Plot3DParser) (dimensions : Z) (n : Z) : P unit :=
  e <- allocate_block dimensions n ;;
  let i_ext := e.1.1 in let j_ext := e.1.2 in let k_ext := e.2 in
  record_open ;;
  apply_function_to_input_array i_ext j_ext k_ext
    (fun i j k => read_bin_binary i j k 0) ;;
  apply_function_to_input_array i_ext j_ext k_ext
    (fun i j k => read_bin_binary i j k 1) ;;
  finish_block this dimensions read_bin_binary i_ext j_ext k_ext ;;
  record_close.

(** [parse_binary] *)
Definition parse_binary (this : Plot3DParser) (dimensions : Z) : P unit :=
  assert (dimensions >? 1) ;;
  assert (dimensions <=? 3) ;;
  modify (set_extents (replicate (Z.to_nat dimensions) [])) ;;
  number_of_blocks <-
    (if single_block this then ret 1
     else
       record_open ;;
       v <- unpack_int ;;
       record_close ;;
       if v <? 1 then raise (throw_int (-1)) else ret v) ;;
  resize_extents number_of_blocks ;;
  record_open ;;
  for_range number_of_blocks (fun n =>
    for_range dimensions (fun m =>
      v <- unpack_int ;;
      modify (fun st => set_extents (extents_set (extents st) m n v) st))) ;;
  record_close ;;
  try_catch
    (for_range number_of_blocks (parse_block_binary this dimensions))
    (fun _ => raise (throw_int 1)).

(** [parse_2d], [parse_3d] *)
Definition parse_2d (this : Plot3DParser) : P unit :=
  if parse_as_binary this then parse_binary this 2 else parse_ascii this 2.

Definition parse_3d (this : Plot3DParser) : P unit :=
  if parse_as_binary this then parse_binary this 3 else parse_ascii this 3.

(** [main_parser]; [error_stream] is the state of the error stream, which
    the parser tests and never writes to. *)
Definition main_parser (this : Plot3DParser) (error_stream : bool) : P unit :=
  st <- get ;;
  (if failbit (input_stream st) then raise (throw_int (-1)) else ret tt) ;;
  (if negb error_stream then raise (throw_int (-1)) else ret tt) ;;
  assert ((number_of_dimensions this =? 2) || (number_of_dimensions this =? 3)) ;;
  if number_of_dimensions this =? 2 then parse_2d this
  else if number_of_dimensions this =? 3 then parse_3d this
  else assert false.

(** ** Parsing, older revision ([HBTK/Plot3DParser.cpp]) *)

(** [std::getline(input_stream, this_line); line_number++;
     auto coord = mesh.coord(i, j, k);
     std::get<N>(coord) = std::stod(this_line);] *)
Definition HBTK_read_line (i j k : Z) (N : Z) : P unit :=
  getline ;;
  incr_line_number ;;
  st <- get ;;
  match stod (this_line st) with
  | Some v => if coord_is_view then store_component i j k N v else ret tt
  | None => raise invalid_number
  end.

(** The body of the block loop of the older [parse_ascii]. *)
Definition HBTK_parse_block_ascii (this : Plot3DParser) (dimensions : Z) (n : Z)
    : P unit :=
  e <- allocate_block dimensions n ;;
  let i_ext := e.1.1 in let j_ext := e.1.2 in let k_ext := e.2 in
  for_range k_ext (fun k => for_range j_ext (fun j => for_range i_ext (fun i =>
    HBTK_read_line i j k 0))) ;;
  for_range k_ext (fun k => for_range j_ext (fun j => for_range i_ext (fun i =>
    HBTK_read_line i j k 1))) ;;
  if dimensions =? 3 then
    for_range k_ext (fun k => for_range j_ext (fun j => for_range i_ext (fun i =>
      HBTK_read_line i j k 1))) ;;
    st <- get ;;
    call_functions Call3D 0 (m_mesh_3d_functions this) (mesh st)
  else
    st <- get ;;
    let mesh2d := project_2d (mesh st) i_ext j_ext in
    call_functions Call2D 0 (m_mesh_2d_functions this) mesh2d.

(** The older [parse_ascii]. *)
Definition HBTK_parse_ascii (this : Plot3DParser) (dimensions : Z) : P unit :=
  assert (dimensions <=? 3) ;;
  assert (dimensions >=? 2) ;;
  modify (set_extents (replicate (Z.to_nat dimensions) [])) ;;
  modify (set_this_line EmptyString) ;;
  modify (set_line_number 1) ;;
  try_catch
    (number_of_blocks <-
       (if single_block this then ret 1
        else
          getline ;;
          incr_line_number ;;
          st <- get ;;
          ret (atoi (this_line st))) ;;
     resize_extents number_of_blocks ;;
     for_range number_of_blocks (read_extents_line dimensions) ;;
     for_range number_of_blocks (HBTK_parse_block_ascii this dimensions))
    (fun _ => st <- get ;; raise (throw_int (line_number st))).

End Parser.

End Plot3D.


(** * Properties of the VTK writer *)

Module VtkWriterSpec.
Import VtkWriter.

Section Spec.

Context `{Env}.

(** The number of nodes of a cell, and of a list of cells. *)
Definition node_count (c : cell) : nat := length (node_ids c).
Definition total_nodes (cs : list cell) : nat := sum_list_with node_count cs.

Lemma total_nodes_take_le (cs : list cell) (m : nat) :
  (total_nodes (take m cs) ≤ total_nodes cs)%nat.
Proof.
  unfold total_nodes. rewrite <- (take_drop m cs) at 2.
  rewrite sum_list_with_app. lia.
Qed.

Lemma total_nodes_take_S (cs : list cell) (m : nat) (c : cell) :
  cs !! m = Some c →
  total_nodes (take (S m) cs) = (total_nodes (take m cs) + node_count c)%nat.
Proof.
  intros Hc. unfold total_nodes. rewrite (take_S_r _ _ _ Hc).
  rewrite sum_list_with_app. simpl. lia.
Qed.

Lemma total_nodes_take_mono (cs : list cell) (i j : nat) :
  (i ≤ j)%nat → (total_nodes (take i cs) ≤ total_nodes (take j cs))%nat.
Proof.
  intros Hij. replace (take i cs) with (take i (take j cs)).
  - apply total_nodes_take_le.
  - rewrite take_take. f_equal. lia.
Qed.

(** The state of the offsets loop after its first [m] iterations. *)
Lemma offsets_loop_prefix (cs : list cell) (scratch : list Z) (m : nat) :
  length scratch = length cs →
  Z.of_nat (total_nodes cs) ≤ INT_MAX →
  (m ≤ length cs)%nat →
  let st := foldl (offsets_step cs) (0, scratch) (seqZ 0 (Z.of_nat m)) in
  st.1 = Z.of_nat (total_nodes (take m cs)) ∧
  length st.2 = length cs ∧
  (∀ i, (i < m)%nat → st.2 !! i = Some (Z.of_nat (total_nodes (take (S i) cs)))) ∧
  (∀ i, (m ≤ i)%nat → st.2 !! i = scratch !! i).
Proof.
  intros Hlen Htot. induction m as [|m IH]; intros Hm; simpl.
  - split_and!; [done | done | intros; lia | done].
  - rewrite seqZ_S, foldl_snoc. simpl.
    destruct IH as (IH1 & IH2 & IH3 & IH4); [lia|].
    set (st := foldl (offsets_step cs) (0, scratch) (seqZ 0 (Z.of_nat m))) in *.
    destruct (lookup_lt_is_Some_2 cs m ltac:(lia)) as [c Hc].
    unfold offsets_step. rewrite Z.add_0_l, Nat2Z.id, Hc. simpl.
    assert (Hstep : wrap_int (st.1 + int_of_size (length (node_ids c)))
                    = Z.of_nat (total_nodes (take (S m) cs))).
    { pose proof (total_nodes_take_le cs (S m)) as Hle.
      rewrite (total_nodes_take_S _ _ _ Hc) in Hle |- *.
      unfold node_count in *.
      rewrite int_of_size_id by lia. rewrite IH1.
      rewrite wrap_int_id; [lia | unfold INT_MIN; lia]. }
    rewrite Hstep. split_and!.
    + done.
    + by rewrite length_insert.
    + intros i Hi. destruct (decide (i = m)) as [->|Hne].
      * rewrite list_lookup_insert_eq; [done | lia].
      * rewrite list_lookup_insert_ne by done. apply IH3. lia.
    + intros i Hi. rewrite list_lookup_insert_ne by lia. apply IH4. lia.
Qed.

Lemma scratch_types_length (cs : list cell) :
  length (scratch_types cs) = length cs.
Proof.
  unfold scratch_types.
  generalize (seqZ 0 (int_of_size (length cs))). intros l.
  assert (Hgen : ∀ scratch : list Z,
    length (foldl (fun scratch i =>
       <[Z.to_nat i := from_option cell_type 0 (cs !! Z.to_nat i)]> scratch)
       scratch l) = length scratch).
  { induction l as [|i l IH]; intros scratch; simpl; [done|].
    rewrite IH. apply length_insert. }
  rewrite Hgen. apply length_replicate.
Qed.

Lemma scratch_types_correct (cs : list cell) :
  Z.of_nat (length cs) ≤ INT_MAX →
  scratch_types cs = map cell_type cs.
Proof.
  intros Hlen. unfold scratch_types. rewrite int_of_size_id by done.
  assert (Hgen : ∀ m scratch, (m ≤ length cs)%nat → length scratch = length cs →
    foldl (fun scratch i =>
       <[Z.to_nat i := from_option cell_type 0 (cs !! Z.to_nat i)]> scratch)
       scratch (seqZ 0 (Z.of_nat m))
    = map cell_type (take m cs) ++ drop m scratch).
  { induction m as [|m IH]; intros scratch Hm Hs.
    - by rewrite drop_0.
    - rewrite seqZ_S, foldl_snoc, IH by (done || lia).
      rewrite Z.add_0_l, Nat2Z.id.
      destruct (lookup_lt_is_Some_2 cs m ltac:(lia)) as [c Hc].
      rewrite Hc. simpl. rewrite (take_S_r _ _ _ Hc), map_app. simpl.
      rewrite insert_app_r_alt by (rewrite length_map, length_take; lia).
      rewrite length_map, length_take.
      replace (m - m `min` length cs)%nat with 0%nat by lia.
      destruct (drop m scratch) as [|y ys] eqn:Hd.
      + apply (f_equal length) in Hd. rewrite length_drop in Hd. simpl in Hd. lia.
      + simpl. rewrite <- app_assoc. simpl. do 2 f_equal.
        replace (S m) with (m + 1)%nat by lia.
        by rewrite <- drop_drop, Hd. }
  rewrite Hgen; [| lia | apply length_replicate].
  rewrite firstn_all, drop_ge by (rewrite length_replicate; lia).
  by rewrite app_nil_r.
Qed.

Lemma scratch_connectivity_correct (cs : list cell) :
  scratch_connectivity cs = concat (map node_ids cs).
Proof.
  unfold scratch_connectivity.
  assert (Hin : ∀ (l acc : list Z),
            foldl (fun scratch node => scratch ++ [node]) acc l = acc ++ l).
  { induction l as [|x l IH]; intros acc; simpl.
    - by rewrite app_nil_r.
    - rewrite IH, <- app_assoc. done. }
  assert (Hout : ∀ acc : list Z,
    foldl (fun scratch cell =>
             foldl (fun scratch node => scratch ++ [node]) scratch (node_ids cell))
          acc cs = acc ++ concat (map node_ids cs)).
  { induction cs as [|c cs IH]; intros acc; simpl.
    - by rewrite app_nil_r.
    - rewrite IH, Hin, <- app_assoc. done. }
  apply Hout.
Qed.

Lemma length_concat_node_ids (cs : list cell) :
  length (concat (map node_ids cs)) = total_nodes cs.
Proof.
  induction cs as [|c cs IH]; simpl; [done|].
  rewrite length_app, IH. done.
Qed.

(** C4. For a mesh whose cell count and total node count fit in an [int],
    [vtk_unstructured_cells] hands three arrays to [vtk_data_array]: the cell
    types, an [offsets] array with one entry per cell, entry [i] being the sum
    of the node counts of cells [0..i] (so the array is non-decreasing and its
    last entry is the length of the connectivity array), and a [connectivity]
    array that is the concatenation, in order, of the cells' node indices,
    whose length is the sum of the node counts. *)
Theorem cells_offsets_and_connectivity (mesh : VtkUnstructuredMeshHolder) :
  Z.of_nat (length (cells mesh)) ≤ INT_MAX →
  Z.of_nat (total_nodes (cells mesh)) ≤ INT_MAX →
  ∃ offsets connectivity : list Z,
    vtk_unstructured_cells mesh
    = (open_tag "Cells" [] ;;
       vtk_data_array_int "types" (map cell_type (cells mesh)) ;;
       vtk_data_array_int "offsets" offsets ;;
       vtk_data_array_int "connectivity" connectivity ;;
       close_tag)
    ∧ length offsets = length (cells mesh)
    ∧ (∀ i, (i < length (cells mesh))%nat →
         offsets !! i = Some (Z.of_nat (total_nodes (take (S i) (cells mesh)))))
    ∧ (∀ i j x y, (i ≤ j)%nat →
         offsets !! i = Some x → offsets !! j = Some y → x ≤ y)
    ∧ (cells mesh ≠ [] → list.last offsets = Some (Z.of_nat (length connectivity)))
    ∧ connectivity = concat (map node_ids (cells mesh))
    ∧ length connectivity = total_nodes (cells mesh).
Proof.
  intros Hcells Htotal. set (cs := cells mesh) in *.
  exists (scratch_offsets cs (scratch_types cs)), (scratch_connectivity cs).
  pose proof (offsets_loop_prefix cs (scratch_types cs) (length cs)
                (scratch_types_length cs) Htotal (le_n _)) as (_ & Hlen & Hat & _).
  assert (Hoff : scratch_offsets cs (scratch_types cs)
                 = (foldl (offsets_step cs) (0, scratch_types cs)
                          (seqZ 0 (Z.of_nat (length cs)))).2).
  { unfold scratch_offsets. by rewrite int_of_size_id. }
  rewrite <- Hoff in Hlen, Hat.
  assert (Hconn : length (scratch_connectivity cs) = total_nodes cs).
  { rewrite scratch_connectivity_correct. apply length_concat_node_ids. }
  split_and!.
  - unfold vtk_unstructured_cells. fold cs.
    by rewrite scratch_types_correct.
  - exact Hlen.
  - exact Hat.
  - intros i j x y Hij Hi Hj.
    pose proof (lookup_lt_Some _ _ _ Hi) as Hi'.
    pose proof (lookup_lt_Some _ _ _ Hj) as Hj'.
    rewrite Hlen in Hi', Hj'.
    rewrite Hat in Hi by done. rewrite Hat in Hj by done.
    injection Hi as <-. injection Hj as <-.
    apply inj_le, total_nodes_take_mono. lia.
  - intros Hne. rewrite last_lookup, Hlen.
    destruct cs as [|c cs'] eqn:Hcs; [done|].
    rewrite Hat by (simpl; lia). rewrite Hconn.
    do 3 f_equal. simpl Init.Nat.pred. rewrite <- Hcs.
    replace (S (length cs')) with (length cs) by (by rewrite Hcs).
    rewrite Hcs. apply firstn_all.
  - apply scratch_connectivity_correct.
  - exact Hconn.
Qed.

(** The attributes [vtk_data_array] gives the tag of an array. *)
Definition array_attrs (type_ ncomp name : string) (fmt : list (string * string))
    : list (string * string) :=
  [("type", type_); ("Name", name); ("NumberOfComponents", ncomp)] ++ fmt.

Lemma emit_chars (data : list uchar) (w : VtkWriter) (out : list out_item) :
  for_each data (fun ch => emit (OutChar ch)) (w, out)
  = Done tt (w, out ++ map OutChar data).
Proof.
  revert out. induction data as [|c data IH]; intros out; simpl.
  - by rewrite app_nil_r.
  - unfold bind, emit, modify. simpl. rewrite IH, <- app_assoc. done.
Qed.

(** A data array in appended mode: the tag carries the offset, the buffer
    goes to [m_appended_data], nothing is written between the tags. *)
Lemma vtk_data_array_body_appended type_ ncomp name (bufgen : VtkWriter → list uchar)
    hdr ft prec k data out :
  vtk_data_array_body type_ ncomp name (w <- this ;; submit_if_appended (bufgen w))
    (mk_writer hdr ft false true prec k data, out)
  = Done tt
      (mk_writer hdr ft false true prec k
         (data ++ [bufgen (mk_writer hdr ft false true prec ("DataArray" :: k) data)]),
       out ++ [OpenTag "DataArray"
                 (array_attrs type_ ncomp name
                    [("format", "appended");
                     ("Offset", to_string (bytelength data))]);
               CloseTag (Some "DataArray")]).
Proof.
  cbn. unfold close_tag, modify, set_appended_data, set_xml_writer; cbn.
  rewrite <- app_assoc. reflexivity.
Qed.

(** A data array written inline (ascii or binary). *)
Lemma vtk_data_array_body_inline type_ ncomp name (bufgen : VtkWriter → list uchar)
    hdr ft a prec k data out :
  vtk_data_array_body type_ ncomp name (w <- this ;; submit_if_appended (bufgen w))
    (mk_writer hdr ft a false prec k data, out)
  = Done tt
      (mk_writer hdr ft a false prec k data,
       out ++ [OpenTag "DataArray"
                 (array_attrs type_ ncomp name
                    [("format", if a then "ascii" else "binary")])]
           ++ map OutChar (bufgen (mk_writer hdr ft a false prec ("DataArray" :: k) data))
           ++ [CloseTag (Some "DataArray")]).
Proof.
  unfold vtk_data_array_body, vtk_data_array_format_options, bind at 1; cbn.
  destruct a; cbn; unfold bind; cbn; rewrite emit_chars; cbn;
    unfold close_tag, modify, set_appended_data, set_xml_writer; cbn;
    rewrite <- !app_assoc; reflexivity.
Qed.

Lemma vtk_data_array_body_conflict type_ ncomp name gen hdr ft prec k data out :
  vtk_data_array_body type_ ncomp name gen
    (mk_writer hdr ft true true prec k data, out)
  = Raised terminate (mk_writer hdr ft true true prec k data, out).
Proof. reflexivity. Qed.

(** The four generators have the form the lemmas above expect. *)
Definition buffer_form (gen : W (list uchar)) : Prop :=
  ∃ bufgen : VtkWriter → list uchar,
    gen = (w <- this ;; submit_if_appended (bufgen w)).

Lemma buffer_form_double scalars :
  buffer_form (vtk_data_array_generate_buffer_double scalars).
Proof. eexists (fun w => _). reflexivity. Qed.

Lemma buffer_form_int integers :
  buffer_form (vtk_data_array_generate_buffer_int integers).
Proof. eexists (fun w => _). reflexivity. Qed.

Lemma buffer_form_vector vectors :
  buffer_form (vtk_data_array_generate_buffer_vector vectors).
Proof. eexists (fun w => _). reflexivity. Qed.

(** ** Offsets and buffers *)

(** The values of the [Offset] attributes of the [DataArray] tags of an
    output, in the order the tags were written. *)
Definition offset_of (o : out_item) : list string :=
  match o with
  | OpenTag name attrs =>
      if bool_decide (name = "DataArray")
      then (filter (fun a : string * string => a.1 = "Offset") attrs).*2
      else []
  | _ => []
  end.

Definition offset_attrs (out : list out_item) : list string :=
  concat (map offset_of out).

(** What [appended_data_bytelength] returned when each of the buffers was
    submitted: its value on the buffers submitted before. *)
Definition running_offsets (data : list (list uchar)) : list Z :=
  map (fun i => bytelength (take i data)) (seq 0 (length data)).

(** The invariant of the writer: the offsets written so far are the running
    byte lengths of the buffers submitted so far. *)
Definition offsets_agree (s : wstate) : Prop :=
  offset_attrs (snd s) = map to_string (running_offsets (m_appended_data (fst s))).

Lemma offset_attrs_app out1 out2 :
  offset_attrs (out1 ++ out2) = offset_attrs out1 ++ offset_attrs out2.
Proof. unfold offset_attrs. by rewrite map_app, concat_app. Qed.

Lemma offset_attrs_chars (cs : list uchar) : offset_attrs (map OutChar cs) = [].
Proof. induction cs as [|c cs IH]; [done | apply IH]. Qed.

Lemma running_offsets_snoc data b :
  running_offsets (data ++ [b]) = running_offsets data ++ [bytelength data].
Proof.
  unfold running_offsets. rewrite length_app. simpl.
  rewrite Nat.add_1_r, seq_S, map_app. simpl. f_equal.
  - apply map_ext_in. intros i Hi%in_seq. by rewrite take_app_le by lia.
  - by rewrite take_app_length.
Qed.

(** Invariants: the stack of open tags is [k], and the offsets agree. *)
Definition inv (k : list string) (s : wstate) : Prop :=
  m_xml_writer (fst s) = k ∧ offsets_agree s.

(** Whatever fails, the offsets agree in the state of the failure. *)
Definition fails_agreeing (e : failure) (s : wstate) : Prop := offsets_agree s.

Lemma triple_data_array_body type_ ncomp name gen k :
  buffer_form gen →
  triple (inv k) (vtk_data_array_body type_ ncomp name gen)
         (fun _ => inv k) fails_agreeing.
Proof.
  intros [bufgen ->] [[hdr ft a p prec k' data] out] [Hk Hrel].
  simpl in Hk. subst k'. unfold offsets_agree in Hrel. simpl in Hrel.
  destruct p, a.
  - rewrite vtk_data_array_body_conflict. exact Hrel.
  - rewrite vtk_data_array_body_appended. split; [done|].
    unfold offsets_agree. simpl.
    rewrite offset_attrs_app, running_offsets_snoc, map_app, Hrel. done.
  - rewrite vtk_data_array_body_inline. split; [done|].
    unfold offsets_agree. cbn [fst snd m_appended_data].
    rewrite !offset_attrs_app, offset_attrs_chars, Hrel.
    unfold offset_attrs. simpl. by rewrite app_nil_r.
  - rewrite vtk_data_array_body_inline. split; [done|].
    unfold offsets_agree. cbn [fst snd m_appended_data].
    rewrite !offset_attrs_app, offset_attrs_chars, Hrel.
    unfold offset_attrs. simpl. by rewrite app_nil_r.
Qed.

Lemma triple_open_tag name attrs k :
  name ≠ "DataArray" →
  triple (inv k) (open_tag name attrs) (fun _ => inv (name :: k)) fails_agreeing.
Proof.
  intros Hname [w out] [Hk Hrel]. simpl in *. split; [simpl; by rewrite Hk|].
  unfold offsets_agree in *. simpl in *. rewrite offset_attrs_app, Hrel.
  unfold offset_attrs. simpl. rewrite bool_decide_false by done.
  by rewrite app_nil_r.
Qed.

Lemma triple_close_tag name k :
  triple (inv (name :: k)) close_tag (fun _ => inv k) fails_agreeing.
Proof.
  intros [w out] [Hk Hrel]. simpl in *. split; [simpl in *; by rewrite Hk|].
  unfold offsets_agree in *. simpl in *. rewrite offset_attrs_app, Hrel.
  by rewrite app_nil_r.
Qed.


Lemma triple_data_array_int name ints k :
  triple (inv k) (vtk_data_array_int name ints) (fun _ => inv k) fails_agreeing.
Proof. apply triple_data_array_body, buffer_form_int. Qed.

Lemma triple_data_array_double name xs k :
  triple (inv k) (vtk_data_array_double name xs) (fun _ => inv k) fails_agreeing.
Proof. apply triple_data_array_body, buffer_form_double. Qed.

Lemma triple_data_array_vector name xs k :
  triple (inv k) (vtk_data_array_vector name xs) (fun _ => inv k) fails_agreeing.
Proof. apply triple_data_array_body, buffer_form_vector. Qed.

Lemma triple_data_array_point name xs k :
  triple (inv k) (vtk_data_array_point name xs) (fun _ => inv k) fails_agreeing.
Proof. apply triple_data_array_body, buffer_form_vector. Qed.

Lemma triple_cells mesh k :
  triple (inv k) (vtk_unstructured_cells mesh) (fun _ => inv k) fails_agreeing.
Proof.
  unfold vtk_unstructured_cells.
  eapply triple_seq; [by apply triple_open_tag|].
  eapply triple_seq; [apply triple_data_array_int|].
  eapply triple_seq; [apply triple_data_array_int|].
  eapply triple_seq; [apply triple_data_array_int|].
  apply triple_close_tag.
Qed.

Lemma triple_mesh mesh k :
  triple (inv k) (vtk_unstructured_mesh mesh) (fun _ => inv k) fails_agreeing.
Proof.
  unfold vtk_unstructured_mesh.
  eapply triple_seq; [by apply triple_open_tag|].
  eapply triple_seq; [apply triple_data_array_point|].
  eapply triple_seq; [apply triple_close_tag|].
  apply triple_cells.
Qed.

Lemma triple_point_data data k :
  triple (inv k) (vtk_unstructured_point_data data) (fun _ => inv k) fails_agreeing.
Proof.
  unfold vtk_unstructured_point_data.
  eapply triple_seq; [by apply triple_open_tag|].
  eapply triple_seq;
    [apply triple_for_each; intros; apply triple_data_array_int|].
  eapply triple_seq;
    [apply triple_for_each; intros; apply triple_data_array_double|].
  eapply triple_seq;
    [apply triple_for_each; intros; apply triple_data_array_vector|].
  apply triple_close_tag.
Qed.

Lemma triple_cell_data data k :
  triple (inv k) (vtk_unstructured_cell_data data) (fun _ => inv k) fails_agreeing.
Proof.
  unfold vtk_unstructured_cell_data.
  eapply triple_seq; [by apply triple_open_tag|].
  eapply triple_seq;
    [apply triple_for_each; intros; apply triple_data_array_int|].
  eapply triple_seq;
    [apply triple_for_each; intros; apply triple_data_array_double|].
  eapply triple_seq;
    [apply triple_for_each; intros; apply triple_data_array_vector|].
  apply triple_close_tag.
Qed.

Lemma inv_agree k s : inv k s → offsets_agree s.
Proof. by intros [_ ?]. Qed.

Lemma triple_assert (P : wstate → Prop) (c : bool) (R : failure → wstate → Prop) :
  (∀ s, P s → R assert_failure s) →
  triple P (assert c) (fun _ => P) R.
Proof.
  intros HR s Hs. unfold assert. destruct NDEBUG; [done|].
  destruct c; simpl; auto.
Qed.

Lemma triple_this (P : wstate → Prop) (R : failure → wstate → Prop) :
  triple P this (fun _ => P) R.
Proof. intros s Hs. exact Hs. Qed.

Lemma triple_write_piece data k :
  triple (inv k) (write_piece data) (fun _ => inv k) fails_agreeing.
Proof.
  unfold write_piece. eapply triple_bind.
  { apply triple_this. }
  intros w.
  eapply triple_seq; [apply triple_assert; apply inv_agree|].
  eapply triple_seq; [apply triple_assert; apply inv_agree|].
  eapply triple_seq.
  { destruct (negb _).
    - apply triple_raise. apply inv_agree.
    - apply triple_ret with (Q := fun _ s => inv k s). auto. }
  eapply triple_seq; [by apply triple_open_tag|].
  eapply triple_seq; [apply triple_mesh|].
  eapply triple_seq; [apply triple_point_data|].
  eapply triple_seq; [apply triple_cell_data|].
  apply triple_close_tag.
Qed.

Lemma triple_emit_char c k :
  triple (inv k) (emit (OutChar c)) (fun _ => inv k) fails_agreeing.
Proof.
  intros [w out] [Hk Hrel]. simpl in *. split; [done|].
  unfold offsets_agree in *. simpl in *. rewrite offset_attrs_app, Hrel.
  by rewrite app_nil_r.
Qed.

Lemma triple_open_file k :
  triple (inv k) (open_file UnstructuredGrid)
         (fun _ => inv ("UnstructuredGrid" :: "VTKFile" :: k)) fails_agreeing.
Proof.
  unfold open_file. eapply triple_bind; [apply triple_this|]. intros w.
  eapply triple_seq with (Qm := inv k).
  { destruct (negb _).
    - intros [w' out] [Hk Hrel]. simpl in *. split; [done|].
      unfold offsets_agree in *. simpl in *. rewrite offset_attrs_app, Hrel.
      by rewrite app_nil_r.
    - by apply triple_ret. }
  unfold vtk_unstructured_file_header.
  eapply triple_seq.
  { eapply triple_seq; [by apply triple_open_tag|]. by apply triple_open_tag. }
  apply triple_modify. intros [w' out] [Hk Hrel]. split; [exact Hk | exact Hrel].
Qed.

Lemma triple_close_file n1 n2 k :
  triple (inv (n1 :: n2 :: k)) close_file (fun _ => inv k) fails_agreeing.
Proof.
  unfold close_file.
  eapply triple_seq; [apply triple_close_tag|].
  eapply triple_bind; [apply triple_this|]. intros w.
  eapply triple_seq with (Qm := inv (n2 :: k)).
  { destruct (negb _); [|by apply triple_ret].
    eapply triple_seq with (Qm := inv ("AppendedData" :: n2 :: k)).
    { destruct (ascii w); by apply triple_open_tag. }
    eapply triple_seq; [apply triple_emit_char|].
    eapply triple_seq; [|apply triple_close_tag].
    apply triple_for_each. intros buffer _.
    apply triple_for_each. intros c _. apply triple_emit_char. }
  apply triple_close_tag.
Qed.

(** ** Sessions *)

(** A writer as constructed, with the public encoding options set. *)
Definition fresh (a p : bool) (prec : Z) : VtkWriter :=
  {| m_written_xml_header := false; m_file_type := NoneType;
     ascii := a; appended := p; write_precision := prec;
     m_xml_writer := []; m_appended_data := [] |}.

(** A session up to (not including) [close_file]. *)
Definition write_pieces (pieces : list VtkUnstructuredDataset) : W unit :=
  open_file UnstructuredGrid ;;
  for_each pieces write_piece.

(** A whole session. *)
Definition session (pieces : list VtkUnstructuredDataset) : W unit :=
  write_pieces pieces ;;
  close_file.


Lemma fresh_inv a p prec : inv [] (fresh a p prec, []).
Proof. split; reflexivity. Qed.

Lemma triple_write_pieces pieces k :
  triple (inv k) (write_pieces pieces)
         (fun _ => inv ("UnstructuredGrid" :: "VTKFile" :: k)) fails_agreeing.
Proof.
  unfold write_pieces. eapply triple_seq; [apply triple_open_file|].
  apply triple_for_each. intros d _. apply triple_write_piece.
Qed.

Lemma triple_session pieces k :
  triple (inv k) (session pieces) (fun _ => inv k) fails_agreeing.
Proof.
  unfold session. eapply triple_seq; [apply triple_write_pieces|].
  apply triple_close_file.
Qed.


(** The number of bytes of a list of buffers. *)
Definition total_bytes (data : list (list uchar)) : nat :=
  sum_list_with length data.

Lemma total_bytes_take_le (data : list (list uchar)) (i : nat) :
  (total_bytes (take i data) ≤ total_bytes data)%nat.
Proof.
  unfold total_bytes. rewrite <- (take_drop i data) at 2.
  rewrite sum_list_with_app. lia.
Qed.

(** Without overflow, [appended_data_bytelength] is the sum of the sizes. *)
Lemma bytelength_exact (data : list (list uchar)) :
  Z.of_nat (total_bytes data) ≤ INT_MAX →
  bytelength data = Z.of_nat (total_bytes data).
Proof.
  unfold bytelength, total_bytes.
  assert (Hgen : ∀ (acc : nat),
    Z.of_nat (acc + sum_list_with length data) ≤ INT_MAX →
    foldl (fun acc arr => wrap_int (acc + int_of_size (length arr)))
          (Z.of_nat acc) data
    = Z.of_nat (acc + sum_list_with length data)).
  { induction data as [|b data IH]; intros acc Hacc; simpl in *.
    - f_equal. lia.
    - rewrite int_of_size_id by lia.
      rewrite wrap_int_id by (unfold INT_MIN; lia).
      rewrite <- Nat2Z.inj_add, IH by lia. f_equal. lia. }
  intros Hle. apply (Hgen 0%nat). exact Hle.
Qed.


Lemma emit_buffers (bufs : list (list uchar)) (w : VtkWriter) (out : list out_item) :
  for_each bufs (fun s => for_each s (fun c => emit (OutChar c))) (w, out)
  = Done tt (w, out ++ map OutChar (concat bufs)).
Proof.
  revert out. induction bufs as [|b bufs IH]; intros out; simpl.
  - by rewrite app_nil_r.
  - unfold bind. rewrite emit_chars, IH, map_app, app_assoc. done.
Qed.

(** The trailer element. *)
Definition trailer (a : bool) (data : list (list uchar)) : list out_item :=
  [OpenTag "AppendedData" [("encoding", if a then "ascii" else "base64")];
   OutChar "_"%char]
  ++ map OutChar (concat data)
  ++ [CloseTag (Some "AppendedData")].

(** What [close_file] writes when the grid and the document tags are open. *)
Lemma close_file_output hdr ft a p prec k data out :
  Z.of_nat (length data) ≤ INT_MAX →
  close_file (mk_writer hdr ft a p prec ("UnstructuredGrid" :: "VTKFile" :: k) data, out)
  = Done tt
      (mk_writer hdr ft a p prec k data,
       out ++ [CloseTag (Some "UnstructuredGrid")]
           ++ (if bool_decide (data = []) then [] else trailer a data)
           ++ [CloseTag (Some "VTKFile")]).
Proof.
  intros Hlen. unfold close_file, bind at 1. cbn. unfold bind at 1. cbn.
  rewrite int_of_size_id by done.
  destruct data as [|b data].
  - rewrite bool_decide_true by done. cbn.
    unfold close_tag, modify, set_xml_writer. cbn.
    rewrite <- app_assoc. reflexivity.
  - rewrite bool_decide_false by (simpl; lia).
    rewrite (bool_decide_false (b :: data = [])) by done.
    destruct a; cbn; unfold bind; cbn; rewrite emit_chars; cbn;
      rewrite emit_buffers; cbn; unfold trailer, close_tag, modify, set_xml_writer;
      cbn; rewrite map_app, <- !app_assoc; reflexivity.
Qed.



(** C7. With [ascii] and [appended] both set, [write_piece] fails, in every
    build mode and every state of the writer: on the assertion, on the
    exception for a file that was not opened, or in
    [vtk_data_array_format_options] when the first array is reached. At the
    failure the output has gained nothing, or the [Piece] and [Points] tags
    only: no [DataArray] tag and no character of data was written, and no
    buffer was stored. *)
Theorem ascii_and_appended_is_fatal (data : VtkUnstructuredDataset) (s : wstate) :
  ascii (fst s) = true → appended (fst s) = true →
  ∃ e w' extra,
    write_piece data s = Raised e (w', snd s ++ extra)
    ∧ m_appended_data w' = m_appended_data (fst s)
    ∧ (extra = [] ∨
       extra = [OpenTag "Piece"
                  [("NumberOfPoints",
                    to_string (int_of_size (length (points (mesh data)))));
                   ("NumberOfCells",
                    to_string (int_of_size (length (cells (mesh data)))))];
                OpenTag "Points" []]).
Proof.
  destruct s as [[hdr ft a p prec k bufs] out]. simpl. intros -> ->.
  unfold write_piece, assert, bind at 1. cbn.
  destruct NDEBUG; cbn.
  - destruct ft; cbn;
      rewrite ?bool_decide_true by done; rewrite ?bool_decide_false by done; cbn.
    + eexists _, _, []. rewrite app_nil_r. split; [reflexivity|]. by split; [|left].
    + unfold open_tag, modify; cbn. rewrite <- app_assoc.
      eexists _, _, _. split; [reflexivity|]. split; [done|]. by right.
    + eexists _, _, []. rewrite app_nil_r. split; [reflexivity|]. by split; [|left].
  - destruct ft; cbn;
      rewrite ?bool_decide_true by done; rewrite ?bool_decide_false by done; cbn.
    all: eexists _, _, []; rewrite app_nil_r; split; [reflexivity|];
      by split; [|left].
Qed.

End Spec.

End VtkWriterSpec.


(** * A sample environment for the writer, and the theorems at work *)

Module VtkWriterSample.
Import VtkWriter VtkWriterSpec.

(** Base64, as [encode_base64] is expected to compute it. *)
Definition base64_digit (n : N) : uchar :=
  if (n <? 26)%N then ascii_of_N (65 + n)
  else if (n <? 52)%N then ascii_of_N (97 + (n - 26))
  else if (n <? 62)%N then ascii_of_N (48 + (n - 52))
  else if (n =? 62)%N then "+"%char else "/"%char.

Fixpoint base64 (bs : list uchar) : string :=
  match bs with
  | [] => EmptyString
  | [a] =>
      let n := (N_of_ascii a * 65536)%N in
      String (base64_digit (n / 262144))
        (String (base64_digit (n / 4096 mod 64)) "==")
  | [a; b] =>
      let n := (N_of_ascii a * 65536 + N_of_ascii b * 256)%N in
      String (base64_digit (n / 262144))
        (String (base64_digit (n / 4096 mod 64))
           (String (base64_digit (n / 64 mod 64)) "="))
  | a :: b :: c :: rest =>
      let n := (N_of_ascii a * 65536 + N_of_ascii b * 256 + N_of_ascii c)%N in
      String (base64_digit (n / 262144))
        (String (base64_digit (n / 4096 mod 64))
           (String (base64_digit (n / 64 mod 64))
              (String (base64_digit (n mod 64)) (base64 rest))))
  end.

Example base64_Man : base64 (String.list_ascii_of_string "Man") = "TWFu".
Proof. reflexivity. Qed.

Example base64_Ma : base64 (String.list_ascii_of_string "Ma") = "TWE=".
Proof. reflexivity. Qed.

(** Integer-valued coordinates stand for the doubles: they are stored as 8
    little-endian bytes and printed in decimal. *)
#[local] Instance env : Env := {|
  NDEBUG := false;
  double := Z;
  double_bytes := le_bytes 8;
  show_double := fun _ x => pretty x;
  show_int := fun _ x => pretty x;
  to_string := pretty;
  encode_base64 := base64
|}.

(** One triangle and one line on three points. *)
Definition sample_mesh : VtkUnstructuredMeshHolder :=
  {| points := [mk_cartesian 0 0 0; mk_cartesian 1 0 0; mk_cartesian 0 1 0];
     cells := [mk_cell 5 [0; 1; 2]; mk_cell 3 [0; 1]] |}.

Definition sample_piece : VtkUnstructuredDataset :=
  {| mesh := sample_mesh;
     integer_point_data := [("id", [10; 11; 12])];
     scalar_point_data := []; vector_point_data := [];
     integer_cell_data := []; scalar_cell_data := []; vector_cell_data := [] |}.

Lemma cells_offsets_and_connectivity_witness :
  Z.of_nat (length (cells sample_mesh)) ≤ INT_MAX
  ∧ Z.of_nat (total_nodes (cells sample_mesh)) ≤ INT_MAX
  ∧ ∃ offsets connectivity : list Z,
      length offsets = 2%nat
      ∧ offsets !! 0%nat = Some 3
      ∧ offsets !! 1%nat = Some 5
      ∧ connectivity = [0; 1; 2; 0; 1].
Proof.
  assert (H1 : Z.of_nat (length (cells sample_mesh)) ≤ INT_MAX)
    by (vm_compute; discriminate).
  assert (H2 : Z.of_nat (total_nodes (cells sample_mesh)) ≤ INT_MAX)
    by (vm_compute; discriminate).
  split; [exact H1|]. split; [exact H2|].
  destruct (cells_offsets_and_connectivity sample_mesh H1 H2)
    as (offsets & connectivity & _ & Hlen & Hat & _ & _ & Hconn & _).
  exists offsets, connectivity. split_and!.
  - exact Hlen.
  - apply (Hat 0%nat). simpl. lia.
  - apply (Hat 1%nat). simpl. lia.
  - exact Hconn.
Defined.


(** The session of the sample piece, before [close_file]. *)
Definition sample_written : wstate :=
  final_state (write_pieces [sample_piece] (fresh false true 6, [])).


Lemma ascii_and_appended_witness :
  ascii (fresh true true 6) = true
  ∧ appended (fresh true true 6) = true
  ∧ ∃ e w' extra,
      write_piece sample_piece (fresh true true 6, []) = Raised e (w', extra).
Proof.
  split; [reflexivity|]. split; [reflexivity|].
  destruct (ascii_and_appended_is_fatal sample_piece (fresh true true 6, [])
              eq_refl eq_refl) as (e & w' & extra & Hfail & _).
  exists e, w', extra. exact Hfail.
Defined.

End VtkWriterSample.


(** * A sample environment for the reader *)

Module Plot3DSample.
Import Plot3D.

(** Decimal numbers: an optional sign and digits. *)
Definition digit (c : uchar) : option Z :=
  let n := nat_of_ascii c in
  if ((48 <=? n)%nat && (n <=? 57)%nat)%bool then Some (Z.of_nat n - 48) else None.

Fixpoint digits (acc : Z) (s : string) : Z * string :=
  match s with
  | String c s' =>
      match digit c with
      | Some d => digits (10 * acc + d) s'
      | None => (acc, s)
      end
  | EmptyString => (acc, EmptyString)
  end.

Definition scan_number (s : string) : option (Z * string) :=
  match s with
  | String c s' =>
      if Ascii.eqb c "-"%char then
        match s' with
        | String d _ =>
            if digit d is Some _ then Some (- (digits 0 s').1, (digits 0 s').2)
            else None
        | EmptyString => None
        end
      else if digit c is Some _ then Some (digits 0 s) else None
  | EmptyString => None
  end.

(** Tokens are separated by white space. *)
Fixpoint split_tokens (cur : string) (s : string) : list string :=
  match s with
  | EmptyString => if bool_decide (cur = EmptyString) then [] else [cur]
  | String c s' =>
      if isspace c
      then (if bool_decide (cur = EmptyString) then split_tokens EmptyString s'
            else cur :: split_tokens EmptyString s')
      else split_tokens (cur +:+ String c EmptyString) s'
  end.

(** Integer-valued coordinates stand for the doubles; the callbacks count
    their invocations. *)
Definition sample_env (view : bool) : Env := {|
  NDEBUG := false;
  double := Z;
  zero := 0;
  World := nat;
  atoi := fun s => from_option fst 0 (scan_number (skip_ws s));
  stoi := fun s => fst <$> scan_number (skip_ws s);
  stod := fun s => fst <$> scan_number (skip_ws s);
  scan_double := scan_number;
  double_of_bytes := le_int;
  tokenise := split_tokens EmptyString;
  coord_is_view := view
|}.

Definition lines (ls : list string) : string :=
  foldr (fun l s => l +:+ String (ascii_of_nat 10) s) EmptyString ls.

Definition text (ls : list string) : ifstream := mk_ifstream (lines ls) false false.

(** The callbacks' world before the parse: no invocation yet. *)
Definition start_world (view : bool) : World (Env := sample_env view) := 0%nat.

(** A callback that counts and answers [r]. *)
Definition counting (view : bool) {Block : Type} (r : bool)
    : consumer (H := sample_env view) Block :=
  fun b w => (r, b, S w).

End Plot3DSample.

Module Plot3DSpec.
Import Plot3D.

Section Spec.

Context `{Env}.

(** The blocks handed to the 3D callbacks, in the order of the calls. *)
Definition blocks_3d (l : list event) : list StructuredMeshBlock3D :=
  omap (fun e => match e with Call3D _ b _ => Some b | _ => None end) l.

(** The lines [std::getline] returned, in order. *)
Definition getlines (l : list event) : list string :=
  omap (fun e => match e with Getline s => Some s | _ => None end) l.

(** ** Invariants

    [keeps I c]: the computation [c] keeps the invariant [I], whether it
    returns or throws. *)
Definition keeps {A} (I : pstate → Prop) (c : P A) : Prop :=
  triple I c (fun _ => I) (fun _ => I).

Lemma keeps_ret {A} I (a : A) : keeps I (ret a).
Proof. by apply triple_ret. Qed.

Lemma keeps_raise {A} I e : keeps (A := A) I (raise e).
Proof. by apply triple_raise. Qed.

Lemma keeps_get I : keeps I get.
Proof. by apply triple_get. Qed.

Lemma keeps_modify I f : (∀ st, I st → I (f st)) → keeps I (modify f).
Proof. intros Hf. by apply triple_modify. Qed.

Lemma keeps_bind {A B} I (c : P A) (k : A → P B) :
  keeps I c → (∀ a, keeps I (k a)) → keeps I (bind c k).
Proof. intros Hc Hk. eapply triple_bind; [apply Hc | apply Hk]. Qed.

Lemma keeps_for_each {X} I (xs : list X) (body : X → P unit) :
  (∀ x, keeps I (body x)) → keeps I (for_each xs body).
Proof. intros Hb. apply triple_for_each. intros x _. apply Hb. Qed.

Lemma keeps_for_range I (n : Z) (body : Z → P unit) :
  (∀ x, keeps I (body x)) → keeps I (for_range n body).
Proof. apply keeps_for_each. Qed.

Lemma keeps_assert I c : keeps I (assert c).
Proof.
  unfold assert. destruct NDEBUG; [apply keeps_ret|].
  destruct c; [apply keeps_ret | apply keeps_raise].
Qed.

Lemma keeps_try_catch {A} I (c : P A) (h : exn → P A) :
  keeps I c → (∀ e, keeps I (h e)) → keeps I (try_catch c h).
Proof. intros Hc Hh. eapply triple_try_catch; [apply Hc | apply Hh]. Qed.

(** Structural steps of a proof of [keeps]. *)
Ltac keeps_step :=
  lazymatch goal with
  | |- keeps _ (bind _ _) => apply keeps_bind; [| intros ?]
  | |- keeps _ (ret _) => apply keeps_ret
  | |- keeps _ (raise _) => apply keeps_raise
  | |- keeps _ get => apply keeps_get
  | |- keeps _ (assert _) => apply keeps_assert
  | |- keeps _ (for_range _ _) => apply keeps_for_range; intros ?
  | |- keeps _ (for_each _ _) => apply keeps_for_each; intros ?
  | |- keeps _ (try_catch _ _) => apply keeps_try_catch; [| intros ?]
  | |- keeps _ (if ?b then _ else _) => destruct b
  | |- keeps _ (match ?x with _ => _ end) => destruct x
  end.

(** An invariant the block phase cannot break: it does not depend on the
    stream, the block under construction, the extents table, the stored
    record length or the callbacks' world, and it survives the logging of
    any event but [Getline]. *)
Record block_stable (I : pstate → Prop) : Prop := {
  stable_input_stream : ∀ v st, I st → I (set_input_stream v st);
  stable_mesh : ∀ v st, I st → I (set_mesh v st);
  stable_extents : ∀ v st, I st → I (set_extents v st);
  stable_fortran_input : ∀ v st, I st → I (set_fortran_input v st);
  stable_world : ∀ v st, I st → I (set_world v st);
  stable_log : ∀ e st, (∀ l, e ≠ Getline l) → I st → I (add_log e st)
}.

Section BlockStable.

Variable I : pstate → Prop.
Hypothesis HI : block_stable I.

Lemma keeps_extract_double : keeps I extract_double.
Proof.
  intros st Hst. unfold extract_double. simpl.
  apply (stable_log _ HI); [done|]. by apply (stable_input_stream _ HI).
Qed.

Lemma keeps_store_component i j k xyz_idx v :
  keeps I (store_component i j k xyz_idx v).
Proof. apply keeps_modify. intros st Hst. by apply (stable_mesh _ HI). Qed.

Lemma keeps_read_bytes n : keeps I (read_bytes n).
Proof.
  intros st Hst. unfold read_bytes.
  destruct (good _); [|done].
  destruct (take_bytes _ _) as [[bs rest]|]; by apply (stable_input_stream _ HI).
Qed.

Lemma keeps_unpack_int : keeps I unpack_int.
Proof.
  unfold unpack_int. repeat keeps_step; try apply keeps_read_bytes.
  apply keeps_modify. intros st Hst. by apply (stable_log _ HI).
Qed.

Lemma keeps_unpack_double : keeps I unpack_double.
Proof.
  unfold unpack_double. repeat keeps_step; try apply keeps_read_bytes.
  apply keeps_modify. intros st Hst. by apply (stable_log _ HI).
Qed.

Lemma keeps_record_open : keeps I record_open.
Proof.
  unfold record_open. repeat keeps_step; try apply keeps_read_bytes.
  apply keeps_modify. intros st Hst.
  apply (stable_log _ HI); [done|]. by apply (stable_fortran_input _ HI).
Qed.

Lemma keeps_record_close : keeps I record_close.
Proof.
  unfold record_close. repeat keeps_step; try apply keeps_read_bytes.
  apply keeps_modify. intros st Hst. by apply (stable_log _ HI).
Qed.

Lemma keeps_read_bin_ascii i j k xyz_idx : keeps I (read_bin_ascii i j k xyz_idx).
Proof.
  unfold read_bin_ascii. keeps_step;
    [apply keeps_extract_double | apply keeps_store_component].
Qed.

Lemma keeps_read_bin_binary i j k xyz_idx : keeps I (read_bin_binary i j k xyz_idx).
Proof.
  unfold read_bin_binary. keeps_step;
    [apply keeps_unpack_double | apply keeps_store_component].
Qed.

Lemma keeps_apply_function i_ext j_ext k_ext func :
  (∀ i j k, keeps I (func i j k)) →
  keeps I (apply_function_to_input_array i_ext j_ext k_ext func).
Proof. intros Hf. unfold apply_function_to_input_array. repeat keeps_step. apply Hf. Qed.

Lemma keeps_invoke {Block} (ev : nat → Block → bool → event) idx function b :
  (∀ i b r l, ev i b r ≠ Getline l) →
  keeps I (invoke ev idx function b).
Proof.
  intros Hev st Hst. unfold invoke. simpl.
  apply (stable_log _ HI); [by apply Hev|]. by apply (stable_world _ HI).
Qed.

Lemma keeps_call_functions {Block} (ev : nat → Block → bool → event) idx fs b :
  (∀ i b r l, ev i b r ≠ Getline l) →
  keeps I (call_functions ev idx fs b).
Proof.
  intros Hev. revert idx. induction fs as [|f fs IH]; intros idx; simpl.
  - apply keeps_ret.
  - keeps_step; [by apply keeps_invoke|]. keeps_step; [apply keeps_ret | apply IH].
Qed.

Lemma keeps_allocate_block dimensions n : keeps I (allocate_block dimensions n).
Proof.
  unfold allocate_block. repeat keeps_step.
  apply keeps_modify. intros st Hst.
  apply (stable_log _ HI); [done|]. by apply (stable_mesh _ HI).
Qed.

Lemma keeps_finish_block this dimensions read_bin i_ext j_ext k_ext :
  (∀ i j k idx, keeps I (read_bin i j k idx)) →
  keeps I (finish_block this dimensions read_bin i_ext j_ext k_ext).
Proof.
  intros Hr. unfold finish_block. destruct (dimensions =? 3).
  - repeat keeps_step; [by apply keeps_apply_function|].
    by apply keeps_call_functions.
  - repeat keeps_step. by apply keeps_call_functions.
Qed.

Lemma keeps_parse_block_ascii this dimensions n :
  keeps I (parse_block_ascii this dimensions n).
Proof.
  unfold parse_block_ascii. keeps_step; [apply keeps_allocate_block|].
  keeps_step; [apply keeps_apply_function; intros; apply keeps_read_bin_ascii|].
  keeps_step; [apply keeps_apply_function; intros; apply keeps_read_bin_ascii|].
  apply keeps_finish_block. intros. apply keeps_read_bin_ascii.
Qed.

Lemma keeps_parse_block_binary this dimensions n :
  keeps I (parse_block_binary this dimensions n).
Proof.
  unfold parse_block_binary. keeps_step; [apply keeps_allocate_block|].
  keeps_step; [apply keeps_record_open|].
  keeps_step; [apply keeps_apply_function; intros; apply keeps_read_bin_binary|].
  keeps_step; [apply keeps_apply_function; intros; apply keeps_read_bin_binary|].
  keeps_step; [apply keeps_finish_block; intros; apply keeps_read_bin_binary|].
  apply keeps_record_close.
Qed.

Lemma keeps_resize_extents number_of_blocks : keeps I (resize_extents number_of_blocks).
Proof.
  unfold resize_extents. repeat keeps_step.
  apply keeps_modify. intros st' Hst. by apply (stable_extents _ HI).
Qed.

End BlockStable.

(** ** Line numbers *)

Lemma wrap_int_add_l a b : wrap_int (wrap_int a + b) = wrap_int (a + b).
Proof.
  unfold wrap_int. f_equal.
  replace ((a + 2 ^ 31) `mod` 2 ^ 32 - 2 ^ 31 + b + 2 ^ 31)
    with ((a + 2 ^ 31) `mod` 2 ^ 32 + b) by lia.
  rewrite Zplus_mod_idemp_l. f_equal. lia.
Qed.

(** The number of [std::getline] calls so far. *)
Definition lines_read (st : pstate) : nat := length (getlines (log st)).

(** [line_number] is one more than the number of lines read (as an [int]). *)
Definition line_counted (st : pstate) : Prop :=
  line_number st = wrap_int (1 + Z.of_nat (lines_read st)).

Lemma getlines_app l1 l2 : getlines (l1 ++ l2) = getlines l1 ++ getlines l2.
Proof. unfold getlines. apply omap_app. Qed.

Lemma getlines_other e l : (∀ s, e ≠ Getline s) → getlines (l ++ [e]) = getlines l.
Proof.
  intros He. rewrite getlines_app. destruct e; simpl; try by rewrite app_nil_r.
  by destruct (He line).
Qed.

Lemma line_counted_stable : block_stable line_counted.
Proof.
  split; try done.
  intros e st He Hst. unfold line_counted, lines_read in *. simpl.
  by rewrite getlines_other.
Qed.

(** Reading a line and counting it. *)
Lemma keeps_getline_incr :
  keeps line_counted (getline ;; incr_line_number).
Proof.
  intros st Hst. unfold bind, getline, incr_line_number, modify.
  unfold line_counted, lines_read in *. cbn [line_number log set_line_number add_log].
  rewrite getlines_app, length_app. simpl.
  assert (Hln : ∀ st', line_number st' = line_number st → log st' = log st →
    wrap_int (line_number st' + 1)
    = wrap_int (1 + Z.of_nat (length (getlines (log st')) + 1))).
  { intros st' -> ->. rewrite Hst, wrap_int_add_l. f_equal. lia. }
  destruct (good _); [destruct (until_newline _).2|]; by apply Hln.
Qed.

Lemma keeps_set_extents_entry m n v :
  keeps line_counted
    (modify (fun st => set_extents (extents_set (extents st) m n v) st)).
Proof. apply keeps_modify. by intros st Hst. Qed.

Lemma keeps_read_extents_line dimensions n :
  keeps line_counted (read_extents_line dimensions n).
Proof.
  unfold read_extents_line.
  change (getline ;; incr_line_number ;; ?k)
    with (getline ;; (incr_line_number ;; k)).
  intros st Hst. unfold bind at 1 2.
  pose proof (keeps_getline_incr st Hst) as Hgi. unfold bind in Hgi.
  destruct (getline st) as [[] st1|e st1]; [|done].
  destruct (incr_line_number st1) as [[] st2|e st2]; [|done].
  revert st2 Hgi. change (keeps line_counted
    (st <- get ;;
     (if int_of_size (length (tokenise (this_line st))) <? dimensions
      then raise (throw_int (line_number st)) else ret tt) ;;
     for_range dimensions (fun m =>
       match stoi (default EmptyString (tokenise (this_line st) !! Z.to_nat m)) with
       | Some v => modify (fun st => set_extents (extents_set (extents st) m n v) st)
       | None => raise invalid_number
       end))).
  repeat keeps_step. apply keeps_set_extents_entry.
Qed.

(** The part of [parse_ascii] inside [try]. *)
Lemma keeps_parse_ascii_try this dimensions :
  keeps line_counted
    (number_of_blocks <-
       (if single_block this then ret 1
        else
          getline ;;
          incr_line_number ;;
          st <- get ;;
          ret (atoi (this_line st))) ;;
     resize_extents number_of_blocks ;;
     for_range number_of_blocks (read_extents_line dimensions) ;;
     for_range number_of_blocks (parse_block_ascii this dimensions)).
Proof.
  apply keeps_bind.
  - destruct (single_block this); [apply keeps_ret|].
    intros st Hst. unfold bind at 1 2.
    pose proof (keeps_getline_incr st Hst) as Hgi. unfold bind in Hgi.
    destruct (getline st) as [[] st1|e st1]; [|done].
    destruct (incr_line_number st1) as [[] st2|e st2]; [|done].
    exact Hgi.
  - intros nb. keeps_step; [apply keeps_resize_extents, line_counted_stable|].
    keeps_step; [apply keeps_for_range, keeps_read_extents_line|].
    apply keeps_for_range. intros n.
    apply keeps_parse_block_ascii, line_counted_stable.
Qed.

Lemma assert_true : assert true = ret tt.
Proof. unfold assert. by destruct NDEBUG. Qed.

(** A failure of [parse_ascii] carries the line number. *)
Lemma parse_ascii_error this dimensions st e st' :
  2 ≤ dimensions ≤ 3 →
  log st = [] →
  parse_ascii this dimensions st = Raised e st' →
  e = throw_int (line_number st') ∧ line_counted st'.
Proof.
  intros Hdim Hlog. unfold parse_ascii.
  replace (dimensions <=? 3) with true by (symmetry; apply Z.leb_le; lia).
  replace (dimensions >=? 2) with true by (symmetry; apply Z.geb_le; lia).
  rewrite assert_true. unfold bind at 1 2 3 4 5. simpl.
  set (st1 := set_line_number 1 _).
  assert (H1 : line_counted st1).
  { unfold line_counted, lines_read, st1. simpl. by rewrite Hlog. }
  pose proof (keeps_parse_ascii_try this dimensions st1 H1) as Htry.
  unfold try_catch.
  match type of Htry with
  | match ?run with _ => _ end => destruct run as [[] st2|e2 st2]
  end; [done|].
  unfold bind, get, raise. intros [= <- <-]. done.
Qed.

(** C9. When a parse of an ascii file fails, whatever the cause (a line with
    too few tokens, a number that does not convert, a [resize] that is
    refused), the error that leaves [main_parser] is the thrown [int]
    [line_number]: one more than the number of lines read with
    [std::getline] up to the failure, lines being counted from 1.  The
    stream is taken to have opened (its [failbit] is clear) and the count to
    fit in an [int]. *)
Theorem ascii_error_carries_line_number (this : Plot3DParser) (input : ifstream)
    (w : World) (e : exn) (st : pstate) :
  parse_as_binary this = false →
  number_of_dimensions this = 2 ∨ number_of_dimensions this = 3 →
  failbit input = false →
  main_parser this true (initial_state input w) = Raised e st →
  Z.of_nat (lines_read st) < INT_MAX →
  e = throw_int (1 + Z.of_nat (lines_read st)).
Proof.
  intros Hascii Hdim Hfail Hrun Hfit.
  assert (Hparse : parse_ascii this (number_of_dimensions this)
                     (initial_state input w) = Raised e st).
  { revert Hrun. unfold main_parser, bind at 1 2 3. simpl. rewrite Hfail. simpl.
    unfold parse_2d, parse_3d. rewrite Hascii.
    destruct Hdim as [-> | ->]; simpl; by rewrite assert_true. }
  apply parse_ascii_error in Hparse as [-> Hcount]; [|lia|done].
  rewrite Hcount. f_equal. apply wrap_int_id.
  unfold INT_MIN, INT_MAX in *. lia.
Qed.

(** ** What a run adds to the log

    [step evs st st']: from [st] to [st'] the events [evs] were logged and the
    stored record length was left alone. *)
Definition step (evs : list event) (st st' : pstate) : Prop :=
  log st' = log st ++ evs ∧ fortran_input st' = fortran_input st.

Lemma step_nil st : step [] st st.
Proof. split; [by rewrite app_nil_r | done]. Qed.

Lemma step_app evs1 evs2 st st1 st2 :
  step evs1 st st1 → step evs2 st1 st2 → step (evs1 ++ evs2) st st2.
Proof.
  intros [Hl1 Hf1] [Hl2 Hf2]. split; [|congruence].
  by rewrite Hl2, Hl1, app_assoc.
Qed.

Lemma ret_Done {A} (a b : A) (st st' : pstate) :
  ret (E := exn) a st = Done b st' → b = a ∧ st' = st.
Proof. unfold ret. by intros [= <- <-]. Qed.

Lemma modify_Done (f : pstate → pstate) (st st' : pstate) u :
  modify (E := exn) f st = Done u st' → st' = f st.
Proof. unfold modify. by intros [= _ <-]. Qed.

Lemma get_Done (st st' a : pstate) :
  get (E := exn) st = Done a st' → a = st ∧ st' = st.
Proof. unfold get. by intros [= <- <-]. Qed.

(** [logged evs st st']: the same, without the condition on the record
    length. *)
Definition logged (evs : list event) (st st' : pstate) : Prop :=
  log st' = log st ++ evs.

Lemma logged_nil st : logged [] st st.
Proof. unfold logged. by rewrite app_nil_r. Qed.

Lemma logged_app evs1 evs2 st st1 st2 :
  logged evs1 st st1 → logged evs2 st1 st2 → logged (evs1 ++ evs2) st st2.
Proof. unfold logged. intros Hl1 Hl2. by rewrite Hl2, Hl1, app_assoc. Qed.

Lemma step_logged evs st st' : step evs st st' → logged evs st st'.
Proof. by intros [? _]. Qed.

(** A loop that returns has run its body on every element, in order: what
    it did is the concatenation of what the iterations did. *)
Lemma for_each_segments {X} (rel : list event → pstate → pstate → Prop)
    (xs : list X) (body : X → P unit) (sh : list event → Prop) st st' :
  (∀ s, rel [] s s) →
  (∀ evs1 evs2 s s1 s2, rel evs1 s s1 → rel evs2 s1 s2 → rel (evs1 ++ evs2) s s2) →
  (∀ x st1 st2, body x st1 = Done tt st2 → ∃ evs, rel evs st1 st2 ∧ sh evs) →
  for_each xs body st = Done tt st' →
  ∃ segs, rel (concat segs) st st' ∧ length segs = length xs ∧ Forall sh segs.
Proof.
  intros Hnil Happ Hbody. revert st.
  induction xs as [|x xs IH]; intros st Hrun; simpl in *.
  - apply ret_Done in Hrun as [_ ->]. exists []. split; [apply Hnil | done].
  - apply bind_Done_inv in Hrun as ([] & st1 & Hx & Hrest).
    destruct (Hbody _ _ _ Hx) as (evs & Hstep & Hsh).
    destruct (IH _ Hrest) as (segs & Hsteps & Hlen & Hall).
    exists (evs :: segs). split_and!.
    + simpl. by eapply Happ.
    + simpl. by rewrite Hlen.
    + by constructor.
Qed.

Lemma for_each_steps {X} (xs : list X) (body : X → P unit)
    (sh : list event → Prop) st st' :
  (∀ x st1 st2, body x st1 = Done tt st2 → ∃ evs, step evs st1 st2 ∧ sh evs) →
  for_each xs body st = Done tt st' →
  ∃ segs, step (concat segs) st st' ∧ length segs = length xs ∧ Forall sh segs.
Proof. apply for_each_segments; [apply step_nil | apply step_app]. Qed.

Lemma for_each_logged {X} (xs : list X) (body : X → P unit)
    (sh : list event → Prop) st st' :
  (∀ x st1 st2, body x st1 = Done tt st2 → ∃ evs, logged evs st1 st2 ∧ sh evs) →
  for_each xs body st = Done tt st' →
  ∃ segs, logged (concat segs) st st' ∧ length segs = length xs ∧ Forall sh segs.
Proof. apply for_each_segments; [apply logged_nil | apply logged_app]. Qed.

(** [n] events of one kind. *)
Definition reads {V} (mk : V → event) (n : nat) (evs : list event) : Prop :=
  ∃ vs, evs = map mk vs ∧ length vs = n.

Lemma reads_concat {V} (mk : V → event) n (segs : list (list event)) :
  Forall (reads mk n) segs → reads mk (length segs * n) (concat segs).
Proof.
  induction 1 as [|seg segs Hseg _ IH]; simpl.
  - by exists [].
  - destruct Hseg as (vs & -> & Hn). destruct IH as (ws & -> & Hm).
    exists (vs ++ ws). split; [by rewrite map_app|].
    rewrite length_app. lia.
Qed.

Lemma reads_app {V} (mk : V → event) n m evs1 evs2 :
  reads mk n evs1 → reads mk m evs2 → reads mk (n + m) (evs1 ++ evs2).
Proof.
  intros (vs & -> & Hn) (ws & -> & Hm). exists (vs ++ ws).
  split; [by rewrite map_app | rewrite length_app; lia].
Qed.

(** The number of grid points of a block, and of values read for it. *)
Definition cells (e : Z * Z * Z) : nat :=
  (Z.to_nat e.2 * (Z.to_nat e.1.2 * Z.to_nat e.1.1))%nat.

Definition passes (dimensions : Z) : nat := if dimensions =? 3 then 3%nat else 2%nat.

Lemma apply_function_reads {V} (mk : V → event) i_ext j_ext k_ext func st st' :
  (∀ i j k st1 st2, func i j k st1 = Done tt st2 →
     ∃ v, step [mk v] st1 st2) →
  apply_function_to_input_array i_ext j_ext k_ext func st = Done tt st' →
  ∃ evs, step evs st st' ∧ reads mk (cells (i_ext, j_ext, k_ext)) evs.
Proof.
  intros Hf Hrun. unfold apply_function_to_input_array, for_range in Hrun.
  eapply (for_each_steps _ _
            (reads mk (Z.to_nat j_ext * Z.to_nat i_ext))) in Hrun.
  - destruct Hrun as (segs & Hstep & Hlen & Hall).
    exists (concat segs). split; [done|].
    apply reads_concat in Hall. rewrite Hlen, length_seqZ in Hall. exact Hall.
  - intros k st1 st2 Hk.
    eapply (for_each_steps _ _ (reads mk (Z.to_nat i_ext))) in Hk.
    + destruct Hk as (segs & Hstep & Hlen & Hall).
      exists (concat segs). split; [done|].
      apply reads_concat in Hall. rewrite Hlen, length_seqZ in Hall. exact Hall.
    + intros j st3 st4 Hj.
      eapply (for_each_steps _ _ (reads mk 1)) in Hj.
      * destruct Hj as (segs & Hstep & Hlen & Hall).
        exists (concat segs). split; [done|].
        apply reads_concat in Hall.
        rewrite Hlen, length_seqZ, Nat.mul_1_r in Hall. exact Hall.
      * intros i st5 st6 Hi. destruct (Hf _ _ _ _ _ Hi) as (v & Hv).
        exists [mk v]. split; [done|]. by exists [v].
Qed.

Lemma extract_double_step v st st' :
  extract_double st = Done v st' → step [Extract v] st st'.
Proof. unfold extract_double. intros [= <- <-]. by split. Qed.

Lemma store_component_step i j k xyz_idx v st st' :
  store_component i j k xyz_idx v st = Done tt st' → step [] st st'.
Proof. intros ->%modify_Done. split; [by rewrite app_nil_r | done]. Qed.

Lemma read_bin_ascii_step i j k xyz_idx st st' :
  read_bin_ascii i j k xyz_idx st = Done tt st' → ∃ v, step [Extract v] st st'.
Proof.
  intros (v & st1 & Hv & Hs)%bind_Done_inv. exists v.
  apply extract_double_step in Hv. apply store_component_step in Hs.
  apply (step_app _ _ _ _ _ Hv Hs).
Qed.

Lemma read_bytes_step n bs st st' :
  read_bytes n st = Done bs st' → step [] st st'.
Proof.
  unfold read_bytes. destruct (good _); [|done].
  destruct (take_bytes _ _) as [[bs' rest]|]; [|done].
  intros [= <- <-]. split; [by rewrite app_nil_r | done].
Qed.

Lemma unpack_double_step v st st' :
  unpack_double st = Done v st' → step [UnpackDouble v] st st'.
Proof.
  intros (bs & st1 & Hb & Hrest)%bind_Done_inv.
  apply bind_Done_inv in Hrest as ([] & st2 & Hm & Hr).
  apply modify_Done in Hm. apply ret_Done in Hr as [-> ->]. subst st2.
  apply read_bytes_step in Hb.
  apply (step_app [] _ _ _ _ Hb). by split.
Qed.

Lemma unpack_int_step v st st' :
  unpack_int st = Done v st' → step [UnpackInt v] st st'.
Proof.
  intros (bs & st1 & Hb & Hrest)%bind_Done_inv.
  apply bind_Done_inv in Hrest as ([] & st2 & Hm & Hr).
  apply modify_Done in Hm. apply ret_Done in Hr as [-> ->]. subst st2.
  apply read_bytes_step in Hb.
  apply (step_app [] _ _ _ _ Hb). by split.
Qed.

Lemma read_bin_binary_step i j k xyz_idx st st' :
  read_bin_binary i j k xyz_idx st = Done tt st' → ∃ v, step [UnpackDouble v] st st'.
Proof.
  intros (v & st1 & Hv & Hs)%bind_Done_inv. exists v.
  apply unpack_double_step in Hv. apply store_component_step in Hs.
  apply (step_app _ _ _ _ _ Hv Hs).
Qed.

(** [record_open] logs the leading length and stores it. *)
Lemma record_open_Done st st' :
  record_open st = Done tt st' →
  log st' = log st ++ [RecordOpen (fortran_input st')].
Proof.
  intros (bs & st1 & Hb & Hm)%bind_Done_inv.
  apply modify_Done in Hm. apply read_bytes_step in Hb as [Hl _].
  subst st'. simpl. by rewrite Hl, app_nil_r.
Qed.

(** [record_close] returns only when the trailing length is the stored one. *)
Lemma record_close_step st st' :
  record_close st = Done tt st' → step [RecordClose (fortran_input st)] st st'.
Proof.
  intros (bs & st1 & Hb & Hrest)%bind_Done_inv.
  apply bind_Done_inv in Hrest as ([] & st2 & Hm & Hrest).
  apply bind_Done_inv in Hrest as (st3 & st4 & Hg & Hc).
  apply modify_Done in Hm. apply get_Done in Hg as [-> ->].
  apply read_bytes_step in Hb as [Hl Hf].
  destruct (bool_decide_reflect (le_int bs = fortran_input st2)) as [Heq|]; [|done].
  apply ret_Done in Hc as [_ ->]. subst st2. simpl in *.
  split; [|done]. simpl. by rewrite Hl, app_nil_r, Heq, Hf.
Qed.

Lemma record_close_mismatch bs st st1 :
  read_bytes 4 st = Done bs st1 → le_int bs ≠ fortran_input st →
  ∃ st', record_close st = Raised malformed_stream st'.
Proof.
  intros Hb Hne. unfold record_close, bind at 1. rewrite Hb.
  unfold bind, modify, get. simpl.
  pose proof (read_bytes_step _ _ _ _ Hb) as [_ Hf].
  rewrite bool_decide_false by congruence. by eexists.
Qed.

(** ** The fan-out of a block to the registered callbacks

    [fanout ev n b idx evs]: [evs] are the calls made for the block [b] from
    the callback at position [idx] on, [n] callbacks being registered: they
    are called in order, each with [b]; after one that answers [false] no
    further callback is called; otherwise all are. *)
Inductive fanout {Block : Type} (ev : nat → Block → bool → event) (n : nat)
    (b : Block) : nat → list event → Prop :=
| fanout_all : fanout ev n b n []
| fanout_stop idx : (idx < n)%nat → fanout ev n b idx [ev idx b false]
| fanout_next idx evs :
    (idx < n)%nat → fanout ev n b (S idx) evs →
    fanout ev n b idx (ev idx b true :: evs).

Lemma invoke_step {Block} (ev : nat → Block → bool → event) idx function b r st st' :
  invoke ev idx function b st = Done r st' → step [ev idx b r] st st'.
Proof. unfold invoke. intros [= <- <-]. by split. Qed.

Lemma call_functions_fanout {Block} (ev : nat → Block → bool → event)
    idx fs b st st' :
  call_functions ev idx fs b st = Done tt st' →
  ∃ evs, step evs st st' ∧ fanout ev (idx + length fs) b idx evs.
Proof.
  revert idx st. induction fs as [|f fs IH]; intros idx st Hrun; simpl in *.
  - apply ret_Done in Hrun as [_ ->]. exists []. split; [apply step_nil|].
    rewrite Nat.add_0_r. constructor.
  - apply bind_Done_inv in Hrun as (r & st1 & Hr & Hrest).
    apply invoke_step in Hr. destruct r; simpl in Hrest.
    + destruct (IH _ _ Hrest) as (evs & Hstep & Hfan).
      exists (ev idx b true :: evs). split.
      * apply (step_app [_] _ _ _ _ Hr Hstep).
      * replace (idx + S (length fs))%nat with (S idx + length fs)%nat by lia.
        constructor; [lia | done].
    + apply ret_Done in Hrest as [_ ->]. exists [ev idx b false].
      split; [done|]. constructor. lia.
Qed.

(** ** The log of one block *)

(** The calls made for one block by a parser with the callbacks of [this]:
    a fan-out over the 3D callbacks when the file is 3D, over the 2D
    callbacks otherwise, starting with the first registered callback. *)
Definition block_calls (this : Plot3DParser) (dimensions : Z)
    (evs : list event) : Prop :=
  if dimensions =? 3
  then ∃ b, fanout Call3D (length (m_mesh_3d_functions this)) b 0 evs
  else ∃ b, fanout Call2D (length (m_mesh_2d_functions this)) b 0 evs.

Lemma allocate_block_step dimensions n e st st' :
  allocate_block dimensions n st = Done e st' → step [SetExtent e] st st'.
Proof.
  intros (st0 & st1 & Hg & Hrest)%bind_Done_inv.
  apply get_Done in Hg as [-> ->].
  apply bind_Done_inv in Hrest as ([] & st2 & Hm & Hr).
  apply modify_Done in Hm. apply ret_Done in Hr as [-> ->]. subst st2.
  by split.
Qed.

Lemma finish_block_step {this dimensions read_bin} (mk : double → event)
    i_ext j_ext k_ext st st' :
  (∀ i j k idx st1 st2, read_bin i j k idx st1 = Done tt st2 →
     ∃ v, step [mk v] st1 st2) →
  finish_block this dimensions read_bin i_ext j_ext k_ext st = Done tt st' →
  ∃ rs calls,
    step (rs ++ calls) st st'
    ∧ reads mk ((passes dimensions - 2) * cells (i_ext, j_ext, k_ext)) rs
    ∧ block_calls this dimensions calls.
Proof.
  intros Hread. unfold finish_block, block_calls, passes.
  destruct (dimensions =? 3); intros Hrun.
  - apply bind_Done_inv in Hrun as ([] & st1 & Hz & Hrest).
    apply bind_Done_inv in Hrest as (st2 & st3 & Hg & Hcalls).
    apply get_Done in Hg as [-> ->].
    eapply (apply_function_reads mk) in Hz as (rs & Hrs & Hn);
      [|intros; by eapply Hread].
    apply call_functions_fanout in Hcalls as (calls & Hc & Hfan).
    exists rs, calls. split_and!.
    + by eapply step_app.
    + simpl. by rewrite Nat.add_0_r.
    + eauto.
  - apply bind_Done_inv in Hrun as (st2 & st3 & Hg & Hcalls).
    apply get_Done in Hg as [-> ->].
    apply call_functions_fanout in Hcalls as (calls & Hc & Hfan).
    exists [], calls. split_and!; [done | by exists [] | eauto].
Qed.

(** The log of one block of an ascii file: the allocation, the values read
    (two or three times the number of grid points), the calls. *)
Definition ascii_block (this : Plot3DParser) (dimensions : Z)
    (seg : list event) : Prop :=
  ∃ e vs calls,
    seg = SetExtent e :: map Extract vs ++ calls
    ∧ length vs = (passes dimensions * cells e)%nat
    ∧ block_calls this dimensions calls.

(** The log of one block of a binary file: the allocation, then one record
    holding the values of the block; the callbacks run before the record is
    closed. *)
Definition binary_block (this : Plot3DParser) (dimensions : Z)
    (seg : list event) : Prop :=
  ∃ e len vs calls,
    seg = SetExtent e :: RecordOpen len :: map UnpackDouble vs
          ++ calls ++ [RecordClose len]
    ∧ length vs = (passes dimensions * cells e)%nat
    ∧ block_calls this dimensions calls.

Lemma passes_split dimensions :
  passes dimensions = (1 + (1 + (passes dimensions - 2)))%nat.
Proof. unfold passes. by destruct (dimensions =? 3). Qed.

Lemma parse_block_ascii_shape this dimensions n st st' :
  parse_block_ascii this dimensions n st = Done tt st' →
  ∃ seg, step seg st st' ∧ ascii_block this dimensions seg.
Proof.
  intros ([[i_ext j_ext] k_ext] & st1 & Ha & Hrest)%bind_Done_inv.
  simpl in Hrest.
  apply bind_Done_inv in Hrest as ([] & st2 & Hx & Hrest).
  apply bind_Done_inv in Hrest as ([] & st3 & Hy & Hfin).
  apply allocate_block_step in Ha.
  eapply (apply_function_reads Extract) in Hx as (xs & Hxs & Hnx);
    [|intros; by eapply read_bin_ascii_step].
  eapply (apply_function_reads Extract) in Hy as (ys & Hys & Hny);
    [|intros; by eapply read_bin_ascii_step].
  eapply (finish_block_step Extract) in Hfin as (zs & calls & Hzs & Hnz & Hcalls);
    [|intros; by eapply read_bin_ascii_step].
  pose proof (reads_app _ _ _ _ _ Hnx (reads_app _ _ _ _ _ Hny Hnz))
    as (vs & Hvs & Hlen).
  exists ([SetExtent (i_ext, j_ext, k_ext)] ++ xs ++ ys ++ zs ++ calls). split.
  - eapply step_app; [done|]. eapply step_app; [done|]. by eapply step_app.
  - exists (i_ext, j_ext, k_ext), vs, calls. split_and!; [| |done].
    + simpl. f_equal. rewrite <- Hvs. by rewrite <- !app_assoc.
    + rewrite Hlen, (passes_split dimensions). lia.
Qed.

Lemma parse_block_binary_shape this dimensions n st st' :
  parse_block_binary this dimensions n st = Done tt st' →
  ∃ seg, log st' = log st ++ seg ∧ binary_block this dimensions seg.
Proof.
  intros ([[i_ext j_ext] k_ext] & st1 & Ha & Hrest)%bind_Done_inv.
  simpl in Hrest.
  apply bind_Done_inv in Hrest as ([] & st2 & Hopen & Hrest).
  apply bind_Done_inv in Hrest as ([] & st3 & Hx & Hrest).
  apply bind_Done_inv in Hrest as ([] & st4 & Hy & Hrest).
  apply bind_Done_inv in Hrest as ([] & st5 & Hfin & Hclose).
  apply allocate_block_step in Ha as [Ha _].
  apply record_open_Done in Hopen.
  eapply (apply_function_reads UnpackDouble) in Hx as (xs & Hxs & Hnx);
    [|intros; by eapply read_bin_binary_step].
  eapply (apply_function_reads UnpackDouble) in Hy as (ys & Hys & Hny);
    [|intros; by eapply read_bin_binary_step].
  eapply (finish_block_step UnpackDouble) in Hfin
    as (zs & calls & Hzs & Hnz & Hcalls);
    [|intros; by eapply read_bin_binary_step].
  apply record_close_step in Hclose.
  pose proof (reads_app _ _ _ _ _ Hnx (reads_app _ _ _ _ _ Hny Hnz))
    as (vs & Hvs & Hlen).
  pose proof (step_app _ _ _ _ _ Hxs (step_app _ _ _ _ _ Hys
                (step_app _ _ _ _ _ Hzs Hclose))) as [Hlog Hlen5].
  assert (Hf5 : fortran_input st5 = fortran_input st2).
  { destruct Hxs as [_ ?], Hys as [_ ?], Hzs as [_ ?]. congruence. }
  rewrite Hf5 in Hlog.
  exists ([SetExtent (i_ext, j_ext, k_ext); RecordOpen (fortran_input st2)]
          ++ xs ++ ys ++ (zs ++ calls) ++ [RecordClose (fortran_input st2)]).
  split.
  - rewrite Hlog, Hopen, Ha, <- !app_assoc. reflexivity.
  - exists (i_ext, j_ext, k_ext), (fortran_input st2), vs, calls.
    split_and!; [| |done].
    + simpl. do 2 f_equal. rewrite <- Hvs. by rewrite <- !app_assoc.
    + rewrite Hlen, (passes_split dimensions). lia.
Qed.

(** ** The log of a whole parse *)

Lemma assert_Done c u st st' : assert c st = Done u st' → st' = st.
Proof.
  unfold assert. destruct NDEBUG; [by intros [_ ->]%ret_Done|].
  destruct c; [by intros [_ ->]%ret_Done | done].
Qed.

Lemma try_catch_Done {A} (c : P A) (h : exn → P A) a st st' :
  (∀ e s, returned (h e s) = false) →
  try_catch c h st = Done a st' → c st = Done a st'.
Proof.
  intros Hh. unfold try_catch. destruct (c st) as [a1 s1|e1 s1]; [done|].
  intros Hrun. specialize (Hh e1 s1). by rewrite Hrun in Hh.
Qed.

Lemma for_each_silent {X} (xs : list X) (body : X → P unit) st st' :
  (∀ x st1 st2, body x st1 = Done tt st2 → step [] st1 st2) →
  for_each xs body st = Done tt st' → step [] st st'.
Proof.
  intros Hbody Hrun.
  eapply (for_each_steps _ _ (fun evs => evs = [])) in Hrun
    as (segs & Hstep & _ & Hall).
  - replace (concat segs) with (@nil event) in Hstep; [done|].
    clear Hstep. induction Hall as [|? ? -> _ IH]; [done | exact IH].
  - intros x st1 st2 Hx. exists []. split; [by eapply Hbody | done].
Qed.

Lemma getline_step st st' :
  getline st = Done tt st' → step [Getline (this_line st')] st st'.
Proof.
  intros ->%modify_Done. unfold step. simpl.
  destruct (good _); [destruct (until_newline _).2|]; done.
Qed.

Lemma incr_line_number_step st st' :
  incr_line_number st = Done tt st' →
  step [] st st' ∧ this_line st' = this_line st.
Proof. intros ->%modify_Done. split; [|done]. split; [by rewrite app_nil_r | done]. Qed.

Lemma resize_extents_step nb st st' :
  resize_extents nb st = Done tt st' → step [] st st'.
Proof.
  intros (st0 & st1 & [-> ->]%get_Done & Hrest)%bind_Done_inv.
  destruct (extents st).
  - apply ret_Done in Hrest as [_ ->]. apply step_nil.
  - destruct (nb <? 0); [done|]. apply modify_Done in Hrest as ->.
    split; [by rewrite app_nil_r | done].
Qed.

Lemma set_extents_entry_step m n v st st' :
  modify (E := exn) (fun st => set_extents (extents_set (extents st) m n v) st) st
    = Done tt st' → step [] st st'.
Proof. intros ->%modify_Done. split; [by rewrite app_nil_r | done]. Qed.

Lemma read_extents_line_step dimensions n st st' :
  read_extents_line dimensions n st = Done tt st' →
  ∃ l, step [Getline l] st st'.
Proof.
  intros ([] & st1 & Hg & Hrest)%bind_Done_inv.
  apply bind_Done_inv in Hrest as ([] & st2 & Hi & Hrest).
  apply bind_Done_inv in Hrest as (st3 & st4 & [-> ->]%get_Done & Hrest).
  apply bind_Done_inv in Hrest as ([] & st5 & Hcheck & Hloop).
  apply getline_step in Hg. apply incr_line_number_step in Hi as [Hi _].
  assert (st5 = st2) as ->.
  { destruct (_ <? _); [done | by apply ret_Done in Hcheck as [_ ->]]. }
  apply for_each_silent in Hloop.
  - exists (this_line st1).
    apply (step_app _ _ _ _ _ Hg (step_app _ _ _ _ _ Hi Hloop)).
  - intros m st6 st7 Hm. destruct (stoi _); [|done].
    by eapply set_extents_entry_step.
Qed.

(** The block count of an ascii file and the line it was read from. *)
Definition ascii_count (this : Plot3DParser) (nb : Z) (evs : list event) : Prop :=
  if single_block this then nb = 1 ∧ evs = []
  else ∃ l, evs = [Getline l] ∧ nb = atoi l.

(** The log of a parse of an ascii file that returned: the line of the block
    count (unless single-block), one line of extents per block, then the
    blocks. *)
Definition ascii_log (this : Plot3DParser) (dimensions : Z)
    (evs : list event) : Prop :=
  ∃ nb count ls blocks,
    evs = count ++ map Getline ls ++ concat blocks
    ∧ ascii_count this nb count
    ∧ length ls = Z.to_nat nb
    ∧ length blocks = Z.to_nat nb
    ∧ Forall (ascii_block this dimensions) blocks.

Lemma handler_raises_line (e : exn) (s : pstate) :
  returned ((st <- get ;; raise (A := unit) (throw_int (line_number st))) s) = false.
Proof. reflexivity. Qed.

Lemma parse_ascii_shape this dimensions st st' :
  parse_ascii this dimensions st = Done tt st' →
  ∃ evs, log st' = log st ++ evs ∧ ascii_log this dimensions evs.
Proof.
  intros ([] & st1 & ->%assert_Done & Hrest)%bind_Done_inv.
  apply bind_Done_inv in Hrest as ([] & st2 & ->%assert_Done & Hrest).
  apply bind_Done_inv in Hrest as ([] & st3 & ->%modify_Done & Hrest).
  apply bind_Done_inv in Hrest as ([] & st4 & ->%modify_Done & Hrest).
  apply bind_Done_inv in Hrest as ([] & st5 & ->%modify_Done & Hrest).
  apply try_catch_Done in Hrest; [|apply handler_raises_line].
  apply bind_Done_inv in Hrest as (nb & st6 & Hcount & Hrest).
  apply bind_Done_inv in Hrest as ([] & st7 & Hresize & Hrest).
  apply bind_Done_inv in Hrest as ([] & st8 & Hext & Hblocks).
  set (st0 := set_line_number 1 _) in *.
  assert (Hc : ∃ count, step count st0 st6 ∧ ascii_count this nb count).
  { unfold ascii_count. destruct (single_block this).
    - apply ret_Done in Hcount as [-> ->]. exists []. split; [apply step_nil | done].
    - apply bind_Done_inv in Hcount as ([] & s1 & Hg & Hcount).
      apply bind_Done_inv in Hcount as ([] & s2 & Hi & Hcount).
      apply bind_Done_inv in Hcount as (s3 & s4 & [-> ->]%get_Done & Hr).
      apply ret_Done in Hr as [-> <-].
      apply getline_step in Hg. apply incr_line_number_step in Hi as [Hi Hl].
      exists [Getline (this_line s1)]. split.
      + apply (step_app _ _ _ _ _ Hg Hi).
      + exists (this_line s1). by rewrite Hl. }
  destruct Hc as (count & Hcstep & Hcount').
  apply resize_extents_step in Hresize.
  eapply (for_each_steps _ _ (reads Getline 1)) in Hext
    as (lsegs & Hlstep & Hllen & Hlall).
  2:{ intros n s1 s2 Hn. apply read_extents_line_step in Hn as (l & Hl).
      exists [Getline l]. split; [done | by exists [l]]. }
  eapply (for_each_steps _ _ (ascii_block this dimensions)) in Hblocks
    as (blocks & Hbstep & Hblen & Hball).
  2:{ intros n s1 s2 Hn. by eapply parse_block_ascii_shape. }
  apply reads_concat in Hlall as (ls & Hls & Hlslen).
  rewrite length_seqZ in Hllen, Hblen.
  pose proof (step_app _ _ _ _ _ Hcstep (step_app _ _ _ _ _ Hresize
                (step_app _ _ _ _ _ Hlstep Hbstep))) as [Hlog _].
  exists (count ++ [] ++ concat lsegs ++ concat blocks). split; [exact Hlog|].
  exists nb, count, ls, blocks. split_and!; try done.
  - simpl. by rewrite Hls.
  - rewrite Hlslen, Hllen. lia.
Qed.

(** The block count of a binary file and the record it was read from. *)
Definition binary_count (this : Plot3DParser) (nb : Z) (evs : list event) : Prop :=
  if single_block this then nb = 1 ∧ evs = []
  else ∃ len, evs = [RecordOpen len; UnpackInt nb; RecordClose len] ∧ 1 ≤ nb.

(** The record of the extents table: [dimensions] integers per block. *)
Definition extents_record (dimensions nb : Z) (evs : list event) : Prop :=
  ∃ len vs,
    evs = RecordOpen len :: map UnpackInt vs ++ [RecordClose len]
    ∧ length vs = (Z.to_nat nb * Z.to_nat dimensions)%nat.

(** The log of a parse of a binary file that returned. *)
Definition binary_log (this : Plot3DParser) (dimensions : Z)
    (evs : list event) : Prop :=
  ∃ nb count table blocks,
    evs = count ++ table ++ concat blocks
    ∧ binary_count this nb count
    ∧ extents_record dimensions nb table
    ∧ length blocks = Z.to_nat nb
    ∧ Forall (binary_block this dimensions) blocks.

Lemma parse_binary_shape this dimensions st st' :
  parse_binary this dimensions st = Done tt st' →
  ∃ evs, log st' = log st ++ evs ∧ binary_log this dimensions evs.
Proof.
  intros ([] & st1 & ->%assert_Done & Hrest)%bind_Done_inv.
  apply bind_Done_inv in Hrest as ([] & st2 & ->%assert_Done & Hrest).
  apply bind_Done_inv in Hrest as ([] & st3 & ->%modify_Done & Hrest).
  apply bind_Done_inv in Hrest as (nb & st4 & Hcount & Hrest).
  apply bind_Done_inv in Hrest as ([] & st5 & Hresize & Hrest).
  apply bind_Done_inv in Hrest as ([] & st6 & Hopen & Hrest).
  apply bind_Done_inv in Hrest as ([] & st7 & Htable & Hrest).
  apply bind_Done_inv in Hrest as ([] & st8 & Hclose & Hblocks).
  apply try_catch_Done in Hblocks; [|done].
  set (st0 := set_extents _ st) in *.
  assert (Hc : ∃ count, log st4 = log st0 ++ count ∧ binary_count this nb count).
  { unfold binary_count. destruct (single_block this).
    - apply ret_Done in Hcount as [-> ->]. exists []. by rewrite app_nil_r.
    - apply bind_Done_inv in Hcount as ([] & s1 & Ho & Hcount).
      apply bind_Done_inv in Hcount as (v & s2 & Hv & Hcount).
      apply bind_Done_inv in Hcount as ([] & s3 & Hcl & Hcount).
      destruct (Z.ltb_spec v 1); [done|].
      apply ret_Done in Hcount as [-> ->].
      apply record_open_Done in Ho. apply unpack_int_step in Hv.
      apply record_close_step in Hcl.
      pose proof (step_app _ _ _ _ _ Hv Hcl) as [Hlog _].
      destruct Hv as [_ Hf]. rewrite Hf in Hlog.
      exists [RecordOpen (fortran_input s1); UnpackInt v;
              RecordClose (fortran_input s1)]. split.
      + rewrite Hlog, Ho, <- app_assoc. reflexivity.
      + by exists (fortran_input s1). }
  destruct Hc as (count & Hclog & Hcount').
  apply resize_extents_step in Hresize as [Hrlog _].
  apply record_open_Done in Hopen.
  eapply (for_each_steps _ _ (reads UnpackInt (Z.to_nat dimensions))) in Htable
    as (tsegs & Htstep & Htlen & Htall).
  2:{ intros n s1 s2 Hn.
      eapply (for_each_steps _ _ (reads UnpackInt 1)) in Hn
        as (segs & Hstep & Hlen & Hall).
      - exists (concat segs). split; [done|].
        apply reads_concat in Hall.
        by rewrite Hlen, length_seqZ, Nat.mul_1_r in Hall.
      - intros m s3 s4 Hm.
        apply bind_Done_inv in Hm as (v & s5 & Hv & Hset).
        apply unpack_int_step in Hv. apply set_extents_entry_step in Hset.
        exists [UnpackInt v]. split; [|by exists [v]].
        apply (step_app _ _ _ _ _ Hv Hset). }
  apply reads_concat in Htall as (vs & Hvs & Hvlen).
  rewrite length_seqZ in Htlen.
  apply record_close_step in Hclose.
  pose proof (step_app _ _ _ _ _ Htstep Hclose) as [Htlog _].
  destruct Htstep as [_ Hf7]. rewrite Hf7 in Htlog.
  eapply (for_each_logged _ _ (binary_block this dimensions)) in Hblocks
    as (blocks & Hblog & Hblen & Hball).
  2:{ intros n s1 s2 Hn. by apply parse_block_binary_shape in Hn. }
  rewrite length_seqZ in Hblen. unfold logged in Hblog.
  exists (count ++ (RecordOpen (fortran_input st6) :: map UnpackInt vs
                    ++ [RecordClose (fortran_input st6)]) ++ concat blocks).
  split.
  - rewrite Hblog, Htlog, Hopen, Hrlog, Hclog, Hvs, app_nil_r.
    subst st0. simpl. by rewrite <- !app_assoc.
  - eexists nb, count, _, blocks. split_and!; try done.
    exists (fortran_input st6), vs. split; [done|].
    rewrite Hvlen, Htlen. lia.
Qed.

Lemma main_parser_Done this error_stream st st' :
  number_of_dimensions this = 2 ∨ number_of_dimensions this = 3 →
  main_parser this error_stream st = Done tt st' →
  (if parse_as_binary this then parse_binary this (number_of_dimensions this)
   else parse_ascii this (number_of_dimensions this)) st = Done tt st'.
Proof.
  intros Hdim (st0 & st1 & [-> ->]%get_Done & Hrest)%bind_Done_inv.
  apply bind_Done_inv in Hrest as ([] & st2 & Hin & Hrest).
  destruct (failbit _); [done|]. apply ret_Done in Hin as [_ ->].
  apply bind_Done_inv in Hrest as ([] & st3 & Herr & Hrest).
  destruct (negb _); [done|]. apply ret_Done in Herr as [_ ->].
  apply bind_Done_inv in Hrest as ([] & st4 & ->%assert_Done & Hrest).
  unfold parse_2d, parse_3d in Hrest.
  by destruct Hdim as [Hd | Hd]; rewrite Hd in Hrest |- *.
Qed.

(** C8. A parse of a binary file that returns has read its input in records:
    unless the parser is single-block, the block count sits alone between one
    [record_open] and its [record_close]; the extents of all blocks, that is
    [dimensions] integers per block, sit together in one record; and every
    block has one record of its own holding all its values, two or three per
    grid point.  A record whose closing length differs from the opening one
    makes [record_close] fail. *)
Theorem binary_parse_reads_in_records (this : Plot3DParser) (input : ifstream)
    (w : World) (st : pstate) :
  parse_as_binary this = true →
  number_of_dimensions this = 2 ∨ number_of_dimensions this = 3 →
  main_parser this true (initial_state input w) = Done tt st →
  binary_log this (number_of_dimensions this) (log st)
  ∧ (∀ s bs s1, read_bytes 4 s = Done bs s1 → le_int bs ≠ fortran_input s →
       returned (record_close s) = false).
Proof.
  intros Hbin Hdim Hrun. split.
  - apply main_parser_Done in Hrun; [|done]. rewrite Hbin in Hrun.
    apply parse_binary_shape in Hrun as (evs & Hlog & Hshape). by rewrite Hlog.
  - intros s bs s1 Hb Hne.
    destruct (record_close_mismatch _ _ _ Hb Hne) as [s' ->]. done.
Qed.

(** ** The fan-out over a whole parse *)

(** Events that are neither the allocation of a block nor a call. *)
Definition quiet (evs : list event) : Prop :=
  Forall (fun e => match e with
                   | SetExtent _ | Call3D _ _ _ | Call2D _ _ _ => False
                   | _ => True
                   end) evs.

(** The log of one block, in either encoding: its allocation, stream
    actions, the calls, stream actions. *)
Definition block_segment (this : Plot3DParser) (dimensions : Z)
    (seg : list event) : Prop :=
  ∃ e before calls after,
    seg = SetExtent e :: before ++ calls ++ after
    ∧ quiet before ∧ quiet after
    ∧ block_calls this dimensions calls.

(** The block count the file announces: 1 in single-block mode, else the
    number on its first line or in its first record. *)
Definition announced (this : Plot3DParser) (nb : Z) (header : list event) : Prop :=
  if single_block this then nb = 1
  else if parse_as_binary this
       then ∃ len rest, header = RecordOpen len :: UnpackInt nb :: rest
       else ∃ l rest, header = Getline l :: rest ∧ nb = atoi l.

Lemma quiet_reads {V} (mk : V → event) n evs :
  (∀ v, match mk v with
        | SetExtent _ | Call3D _ _ _ | Call2D _ _ _ => False
        | _ => True
        end) →
  reads mk n evs → quiet evs.
Proof.
  intros Hmk (vs & -> & _). unfold quiet. rewrite Forall_map.
  apply Forall_forall. intros v _. apply Hmk.
Qed.

Lemma quiet_map {V} (mk : V → event) (vs : list V) :
  (∀ v, match mk v with
        | SetExtent _ | Call3D _ _ _ | Call2D _ _ _ => False
        | _ => True
        end) →
  quiet (map mk vs).
Proof. intros Hmk. apply (quiet_reads mk (length vs)); [done | by exists vs]. Qed.

Lemma ascii_block_segment this dimensions seg :
  ascii_block this dimensions seg → block_segment this dimensions seg.
Proof.
  intros (e & vs & calls & -> & _ & Hcalls).
  exists e, (map Extract vs), calls, []. split_and!; [| |by apply Forall_nil|done].
  - by rewrite app_nil_r.
  - by apply quiet_map.
Qed.

Lemma binary_block_segment this dimensions seg :
  binary_block this dimensions seg → block_segment this dimensions seg.
Proof.
  intros (e & len & vs & calls & -> & _ & Hcalls).
  exists e, (RecordOpen len :: map UnpackDouble vs), calls, [RecordClose len].
  split_and!; [done | | |done].
  - apply Forall_cons. split; [done|]. by apply quiet_map.
  - by apply Forall_singleton.
Qed.


(** ** Blocks are passed by value *)

(** Two computations that do the same from every state. *)
Definition same_run {A} (c c' : P A) : Prop := ∀ st, c st = c' st.

Lemma same_run_refl {A} (c : P A) : same_run c c.
Proof. done. Qed.

Lemma same_run_bind {A B} (c c' : P A) (k k' : A → P B) :
  same_run c c' → (∀ a, same_run (k a) (k' a)) → same_run (bind c k) (bind c' k').
Proof.
  intros Hc Hk st. unfold bind. rewrite Hc.
  destruct (c' st); [apply Hk | done].
Qed.

Lemma same_run_for_each {X} (xs : list X) (body body' : X → P unit) :
  (∀ x, same_run (body x) (body' x)) →
  same_run (for_each xs body) (for_each xs body').
Proof.
  intros Hb. induction xs as [|x xs IH]; [done|].
  simpl. apply same_run_bind; [apply Hb | intros; apply IH].
Qed.

Lemma same_run_try_catch {A} (c c' : P A) (h : exn → P A) :
  same_run c c' → same_run (try_catch c h) (try_catch c' h).
Proof. intros Hc st. unfold try_catch. by rewrite Hc. Qed.

(** Two callbacks with the same answers and the same effect on the world:
    they may differ in what they do to their own copy of the block. *)
Definition same_effect {Block} (f g : consumer Block) : Prop :=
  ∀ b w, (f b w).1.1 = (g b w).1.1 ∧ (f b w).2 = (g b w).2.

(** Two parsers configured alike whose callbacks have, pairwise, the same
    effect. *)
Definition same_callbacks (this this' : Plot3DParser) : Prop :=
  single_block this = single_block this'
  ∧ parse_as_binary this = parse_as_binary this'
  ∧ number_of_dimensions this = number_of_dimensions this'
  ∧ Forall2 same_effect (m_mesh_2d_functions this) (m_mesh_2d_functions this')
  ∧ Forall2 same_effect (m_mesh_3d_functions this) (m_mesh_3d_functions this').

Lemma same_run_invoke {Block} (ev : nat → Block → bool → event) idx f g b :
  same_effect f g → same_run (invoke ev idx f b) (invoke ev idx g b).
Proof. intros Hfg st. unfold invoke. by destruct (Hfg b (world st)) as [-> ->]. Qed.

Lemma same_run_call_functions {Block} (ev : nat → Block → bool → event)
    idx fs gs b :
  Forall2 same_effect fs gs →
  same_run (call_functions ev idx fs b) (call_functions ev idx gs b).
Proof.
  intros Hfs. revert idx. induction Hfs as [|f g fs gs Hfg _ IH]; intros idx.
  - done.
  - simpl. apply same_run_bind; [by apply same_run_invoke|].
    intros r. destruct r; simpl; [apply IH | done].
Qed.

Lemma same_run_finish_block this this' dimensions read_bin i_ext j_ext k_ext :
  same_callbacks this this' →
  same_run (finish_block this dimensions read_bin i_ext j_ext k_ext)
           (finish_block this' dimensions read_bin i_ext j_ext k_ext).
Proof.
  intros (_ & _ & _ & H2 & H3). unfold finish_block. destruct (dimensions =? 3).
  - apply same_run_bind; [done|]. intros _.
    apply same_run_bind; [done|]. intros st. by apply same_run_call_functions.
  - apply same_run_bind; [done|]. intros st. by apply same_run_call_functions.
Qed.

Lemma same_run_parse_block_ascii this this' dimensions n :
  same_callbacks this this' →
  same_run (parse_block_ascii this dimensions n)
           (parse_block_ascii this' dimensions n).
Proof.
  intros Hsame. unfold parse_block_ascii.
  apply same_run_bind; [done|]. intros e.
  apply same_run_bind; [done|]. intros _.
  apply same_run_bind; [done|]. intros _.
  by apply same_run_finish_block.
Qed.

Lemma same_run_parse_block_binary this this' dimensions n :
  same_callbacks this this' →
  same_run (parse_block_binary this dimensions n)
           (parse_block_binary this' dimensions n).
Proof.
  intros Hsame. unfold parse_block_binary.
  apply same_run_bind; [done|]. intros e.
  apply same_run_bind; [done|]. intros _.
  apply same_run_bind; [done|]. intros _.
  apply same_run_bind; [done|]. intros _.
  apply same_run_bind; [by apply same_run_finish_block | done].
Qed.

Lemma same_run_parse_ascii this this' dimensions :
  same_callbacks this this' →
  same_run (parse_ascii this dimensions) (parse_ascii this' dimensions).
Proof.
  intros Hsame. pose proof Hsame as (Hsb & _). unfold parse_ascii. rewrite Hsb.
  do 5 (apply same_run_bind; [done|]; intros _).
  apply same_run_try_catch.
  apply same_run_bind; [done|]. intros nb.
  do 2 (apply same_run_bind; [done|]; intros _).
  apply same_run_for_each. intros n. by apply same_run_parse_block_ascii.
Qed.

Lemma same_run_parse_binary this this' dimensions :
  same_callbacks this this' →
  same_run (parse_binary this dimensions) (parse_binary this' dimensions).
Proof.
  intros Hsame. pose proof Hsame as (Hsb & _). unfold parse_binary. rewrite Hsb.
  do 3 (apply same_run_bind; [done|]; intros _).
  apply same_run_bind; [done|]. intros nb.
  do 4 (apply same_run_bind; [done|]; intros _).
  apply same_run_try_catch.
  apply same_run_for_each. intros n. by apply same_run_parse_block_binary.
Qed.


(** ** The block count *)

(** What [std::getline] reads from a good stream: its first line. *)
Definition first_line (input : ifstream) : string := (until_newline (buf input)).1.

(** On the ascii path a block count of 0 is accepted: the parse returns,
    having read the first line and nothing else. *)
Lemma ascii_zero_count_is_accepted this input w :
  single_block this = false → parse_as_binary this = false →
  number_of_dimensions this = 2 ∨ number_of_dimensions this = 3 →
  good input = true →
  atoi (first_line input) = 0 →
  ∃ st, main_parser this true (initial_state input w) = Done tt st
        ∧ log st = [Getline (first_line input)]
        ∧ world st = w.
Proof.
  intros Hsingle Hascii Hdim Hgood Hzero.
  assert (Hfail : failbit input = false).
  { unfold good in Hgood. by destruct (eofbit input), (failbit input). }
  unfold main_parser, bind at 1 2 3. simpl. rewrite Hfail. simpl.
  unfold parse_2d, parse_3d. rewrite Hascii.
  assert (Hparse : ∀ d, 2 ≤ d ≤ 3 →
    ∃ st, parse_ascii this d (initial_state input w) = Done tt st
          ∧ log st = [Getline (first_line input)] ∧ world st = w).
  { intros d Hd. unfold parse_ascii.
    replace (d <=? 3) with true by (symmetry; apply Z.leb_le; lia).
    replace (d >=? 2) with true by (symmetry; apply Z.geb_le; lia).
    rewrite assert_true, Hsingle. unfold bind at 1 2 3 4 5. simpl.
    unfold try_catch, bind at 1 2. unfold getline at 1. simpl.
    rewrite Hgood. unfold first_line in *.
    destruct (until_newline (buf input)) as [l [rest|]]; simpl in *;
      rewrite Hzero; unfold resize_extents, bind, get; simpl;
      (destruct (Z.to_nat d) eqn:Hn; [lia|]); simpl;
      unfold for_range; simpl; eexists; split_and!; reflexivity. }
  destruct Hdim as [-> | ->]; simpl; rewrite assert_true; apply Hparse; lia.
Qed.

(** X8. On the ascii path a negative block count fails in [resize], before
    any block is allocated and before any callback is called: the error
    that leaves [main_parser] carries line number 2. *)
Lemma ascii_negative_count_is_fatal this input w :
  single_block this = false → parse_as_binary this = false →
  number_of_dimensions this = 2 ∨ number_of_dimensions this = 3 →
  good input = true →
  atoi (first_line input) < 0 →
  ∃ st, main_parser this true (initial_state input w) = Raised (throw_int 2) st
        ∧ log st = [Getline (first_line input)]
        ∧ world st = w.
Proof.
  intros Hsingle Hascii Hdim Hgood Hneg.
  assert (Hfail : failbit input = false).
  { unfold good in Hgood. by destruct (eofbit input), (failbit input). }
  unfold main_parser, bind at 1 2 3. simpl. rewrite Hfail. simpl.
  unfold parse_2d, parse_3d. rewrite Hascii.
  assert (Hparse : ∀ d, 2 ≤ d ≤ 3 →
    ∃ st, parse_ascii this d (initial_state input w) = Raised (throw_int 2) st
          ∧ log st = [Getline (first_line input)] ∧ world st = w).
  { intros d Hd. unfold parse_ascii.
    replace (d <=? 3) with true by (symmetry; apply Z.leb_le; lia).
    replace (d >=? 2) with true by (symmetry; apply Z.geb_le; lia).
    rewrite assert_true, Hsingle. unfold bind at 1 2 3 4 5. simpl.
    unfold try_catch, bind at 1 2. unfold getline at 1. simpl.
    rewrite Hgood. unfold first_line in *.
    destruct (until_newline (buf input)) as [l [rest|]]; simpl in *;
      unfold resize_extents, bind, get; simpl;
      (destruct (Z.to_nat d) eqn:Hn; [lia|]); simpl;
      (replace (atoi l <? 0) with true by (symmetry; apply Z.ltb_lt; lia));
      simpl; eexists; split_and!; reflexivity. }
  destruct Hdim as [-> | ->]; simpl; rewrite assert_true; apply Hparse; lia.
Qed.

(** X9. On the binary path a block count below 1 throws [-1] right after
    the record of the count was read and closed, before the extents table is
    read and before any block is allocated. *)
Lemma binary_count_below_one_is_fatal this dimensions st s1 v s2 s3 :
  single_block this = false → 2 ≤ dimensions ≤ 3 →
  record_open (set_extents (replicate (Z.to_nat dimensions) []) st) = Done tt s1 →
  unpack_int s1 = Done v s2 →
  record_close s2 = Done tt s3 →
  v < 1 →
  parse_binary this dimensions st = Raised (throw_int (-1)) s3
  ∧ log s3 = log st ++ [RecordOpen (fortran_input s1); UnpackInt v;
                        RecordClose (fortran_input s1)].
Proof.
  intros Hsingle Hd Hopen Hv Hclose Hlt. split.
  - unfold parse_binary.
    replace (dimensions >? 1) with true by (symmetry; apply Z.gtb_lt; lia).
    replace (dimensions <=? 3) with true by (symmetry; apply Z.leb_le; lia).
    rewrite assert_true, Hsingle. unfold bind at 1 2 3 4. simpl.
    unfold bind at 1 2. rewrite Hopen. unfold bind at 1. rewrite Hv.
    unfold bind at 1. rewrite Hclose.
    by replace (v <? 1) with true by (symmetry; apply Z.ltb_lt; lia).
  - apply record_open_Done in Hopen. apply unpack_int_step in Hv.
    apply record_close_step in Hclose.
    pose proof (step_app _ _ _ _ _ Hv Hclose) as [Hlog _].
    destruct Hv as [_ Hf]. rewrite Hf in Hlog.
    rewrite Hlog, Hopen. simpl. by rewrite <- app_assoc.
Qed.

(** ** The population of a block (current revision) *)

(** The indices of a block in the order [apply_function_to_input_array]
    visits them: [k] outermost, [j] in the middle, [i] innermost. *)
Definition traversal (e : Z * Z * Z) : list (Z * Z * Z) :=
  k ← seqZ 0 e.2; j ← seqZ 0 e.1.2; i ← seqZ 0 e.1.1; [(i, j, k)].

Lemma for_each_bind {X Y} (xs : list X) (f : X → list Y) (body : Y → P unit) st :
  for_each (xs ≫= f) body st = for_each xs (fun x => for_each (f x) body) st.
Proof.
  revert st. induction xs as [|x xs IH]; intros st; [done|].
  change ((x :: xs) ≫= f) with (f x ++ (xs ≫= f)).
  rewrite for_each_app. simpl. unfold bind.
  destruct (for_each (f x) body st); [apply IH | done].
Qed.

Lemma for_each_ext {X} (xs : list X) (body body' : X → P unit) st :
  (∀ x s, body x s = body' x s) → for_each xs body st = for_each xs body' st.
Proof. intros Hb. by apply same_run_for_each. Qed.

Lemma apply_function_traversal i_ext j_ext k_ext func st :
  apply_function_to_input_array i_ext j_ext k_ext func st
  = for_each (traversal (i_ext, j_ext, k_ext))
             (fun idx => func idx.1.1 idx.1.2 idx.2) st.
Proof.
  unfold apply_function_to_input_array, for_range, traversal. simpl.
  rewrite for_each_bind. apply for_each_ext. intros k s.
  rewrite for_each_bind. apply for_each_ext. intros j s'.
  rewrite for_each_bind. apply for_each_ext. intros i s''.
  simpl. unfold bind. by destruct (func i j k s'') as [[] ?|].
Qed.

Lemma length_bind_const {X Y} (xs : list X) (f : X → list Y) n :
  (∀ x, length (f x) = n) → length (xs ≫= f) = (length xs * n)%nat.
Proof.
  intros Hf. induction xs as [|x xs IH]; [done|].
  change ((x :: xs) ≫= f) with (f x ++ (xs ≫= f)).
  rewrite length_app, Hf, IH. simpl. lia.
Qed.

Lemma length_traversal e : length (traversal e) = cells e.
Proof.
  unfold traversal, cells.
  rewrite (length_bind_const _ _ (Z.to_nat e.1.2 * Z.to_nat e.1.1)), length_seqZ;
    [done|].
  intros k. rewrite (length_bind_const _ _ (Z.to_nat e.1.1)), length_seqZ; [done|].
  intros j. rewrite (length_bind_const _ _ 1), length_seqZ; [lia | done].
Qed.

Lemma NoDup_traversal e : NoDup (traversal e).
Proof.
  unfold traversal. apply NoDup_bind; [| |apply NoDup_seqZ].
  - intros k1 k2 idx _ _ H1 H2.
    apply list_elem_of_bind in H1 as (j1 & H1 & _).
    apply list_elem_of_bind in H1 as (i1 & ->%list_elem_of_singleton & _).
    apply list_elem_of_bind in H2 as (j2 & H2 & _).
    apply list_elem_of_bind in H2 as (i2 & Heq%list_elem_of_singleton & _).
    congruence.
  - intros k _. apply NoDup_bind; [| |apply NoDup_seqZ].
    + intros j1 j2 idx _ _ H1 H2.
      apply list_elem_of_bind in H1 as (i1 & ->%list_elem_of_singleton & _).
      apply list_elem_of_bind in H2 as (i2 & Heq%list_elem_of_singleton & _).
      congruence.
    + intros j _. apply NoDup_bind; [| |apply NoDup_seqZ].
      * intros i1 i2 idx _ _ ->%list_elem_of_singleton Heq%list_elem_of_singleton.
        congruence.
      * intros i _. apply NoDup_singleton.
Qed.

(** One write of [read_bin]: component [p] of the coordinate at an index. *)
Definition write_component (p : Z) (m : StructuredMeshBlock3D)
    (iv : Z * Z * Z * double) : StructuredMeshBlock3D :=
  set_coord m iv.1 (set_component (coord m iv.1) p iv.2).

Lemma coord_set_coord m idx c idx' :
  coord (set_coord m idx c) idx' = if decide (idx = idx') then c else coord m idx'.
Proof.
  unfold coord, set_coord. simpl. rewrite lookup_insert.
  by destruct (decide (idx = idx')).
Qed.

Lemma write_all_extent p m ivs :
  extent (foldl (write_component p) m ivs) = extent m.
Proof. revert m. induction ivs as [|iv ivs IH]; intros m; [done|]. simpl. by rewrite IH. Qed.

Lemma write_all_other p m (ivs : list (Z * Z * Z * double)) idx :
  idx ∉ ivs.*1 →
  coord (foldl (write_component p) m ivs) idx = coord m idx.
Proof.
  revert m. induction ivs as [|[a v] ivs IH]; intros m Hnot; [done|].
  simpl in *. apply not_elem_of_cons in Hnot as [Hne Hnot].
  rewrite IH by done. unfold write_component. simpl.
  rewrite coord_set_coord. by destruct (decide (a = idx)).
Qed.

Lemma write_all_at p m idxs (vs : list double) t idx v :
  NoDup idxs → length vs = length idxs →
  idxs !! t = Some idx → vs !! t = Some v →
  coord (foldl (write_component p) m (zip idxs vs)) idx
  = set_component (coord m idx) p v.
Proof.
  revert m vs t.
  induction idxs as [|a idxs IH]; intros m vs t Hnd Hlen Hidx Hv; [done|].
  destruct vs as [|v0 vs]; [done|]. simpl in Hlen.
  apply NoDup_cons in Hnd as [Hnot Hnd]. simpl.
  destruct t as [|t]; simpl in *.
  - injection Hidx as ->. injection Hv as ->.
    rewrite write_all_other.
    + unfold write_component. simpl. rewrite coord_set_coord.
      by destruct (decide (idx = idx)).
    + rewrite fst_zip by lia. done.
  - rewrite (IH _ vs t) by (done || lia).
    unfold write_component. simpl. rewrite coord_set_coord.
    destruct (decide (a = idx)) as [->|]; [|done].
    apply list_elem_of_lookup_2 in Hidx. done.
Qed.

(** One pass of [parse_ascii] over a list of indices: one value is read per
    index and stored in component [p] there. *)
Lemma pass_ascii p idxs st st' :
  for_each idxs (fun idx => read_bin_ascii idx.1.1 idx.1.2 idx.2 p) st = Done tt st' →
  ∃ vs, length vs = length idxs
        ∧ step (map Extract vs) st st'
        ∧ mesh st' = foldl (write_component p) (mesh st) (zip idxs vs).
Proof.
  revert st. induction idxs as [|[[i j] k] idxs IH]; intros st Hrun; simpl in *.
  - apply ret_Done in Hrun as [_ ->]. exists []. split_and!; [done | apply step_nil | done].
  - apply bind_Done_inv in Hrun as ([] & st2 & Hread & Hrest).
    apply bind_Done_inv in Hread as (v & st1 & Hv & Hstore).
    assert (Hm1 : mesh st1 = mesh st) by (by injection Hv as _ <-).
    apply extract_double_step in Hv.
    pose proof (store_component_step _ _ _ _ _ _ _ Hstore) as Hs.
    apply modify_Done in Hstore.
    destruct (IH _ Hrest) as (vs & Hlen & Hstep & Hmesh).
    exists (v :: vs). split_and!.
    + simpl. by rewrite Hlen.
    + apply (step_app [Extract v] _ _ _ _ (step_app _ _ _ _ _ Hv Hs) Hstep).
    + rewrite Hmesh. simpl. f_equal. subst st2. simpl. by rewrite Hm1.
Qed.


End Spec.

Import Plot3DSample.

Section Samples.

Variable view : bool.

#[local] Instance env_of_view : Env := sample_env view.

(** C1. The ascii path accepts a block count of 0.  A 2D file, not
    single-block, whose first line is [0]: [main_parser] returns, having read
    that one line; no block is allocated and the registered callback is not
    called, the world being as it was.  [ascii_zero_count_is_accepted] has
    the same for every such file.  The binary path throws [-1] there
    ([binary_count_below_one_is_fatal]), and a negative count fails on the
    ascii path too, in [resize] ([ascii_negative_count_is_fatal]). *)
Theorem ascii_zero_block_count_is_accepted :
  let this := mk_parser false false 2 [counting view true] [] in
  let input := text ["0"; "2 2"; "0"; "1"; "0"; "1"; "0"; "0"; "1"; "1"] in
  ∃ st, main_parser this true (initial_state input (start_world view)) = Done tt st
        ∧ log st = [Getline "0"]
        ∧ world st = start_world view.
Proof.
  cbv zeta.
  match goal with |- ∃ st, ?run = _ ∧ _ => exists (final_state run) end.
  split_and!; [apply returned_Done | |]; reflexivity.
Qed.

(** C2. The older revision ([HBTK/Plot3DParser.cpp]) writes the third pass
    with [std::get<1>]: the Z values land in the Y component.  A single-block
    3D file of one point, X = 7, Y = 8, Z = 9: the parse returns having read
    all four lines, and the block handed to the callback holds (7, 9, 0) at
    (0, 0, 0) when [coord] yields references, and (0, 0, 0) when it yields a
    copy; in neither case 9 as its third component.  The current revision
    stores every pass in its own component
    ([parse_block_ascii_populates]). *)
Theorem HBTK_parse_ascii_loses_z :
  let this := mk_parser true false 3 [] [counting view true] in
  let input := text ["1 1 1"; "7"; "8"; "9"] in
  ∃ st,
    HBTK_parse_ascii this 3 (initial_state input (start_world view)) = Done tt st
    ∧ getlines (log st) = ["1 1 1"; "7"; "8"; "9"]
    ∧ (fun b => (extent b, coord b (0, 0, 0))) <$> blocks_3d (log st)
      = [((1, 1, 1), if view then mk_coord3 7 9 0 else mk_coord3 0 0 0)].
Proof.
  cbv zeta. unfold env_of_view.
  match goal with |- ∃ st, ?run = _ ∧ _ => exists (final_state run) end.
  destruct view; (split_and!; [apply returned_Done | |]; reflexivity).
Qed.

End Samples.

End Plot3DSpec.

(** * The theorems of the reader at work *)

Module Plot3DWitness.
Import Plot3D Plot3DSample Plot3DSpec.

#[local] Instance sample : Env := sample_env true.

(** ** An ascii file that is cut short

    A single-block 2D file whose extents line has one token instead of two:
    the parse fails on its first line and raises 2. *)
Definition short_parser : Plot3DParser := mk_parser true false 2 [] [].

Definition short_file : ifstream := text ["3"].

Local Abbreviation short_run :=
  (main_parser short_parser true (initial_state short_file (start_world true))).

Lemma short_run_raised : raised short_run = Some (throw_int 2).
Proof. vm_compute. reflexivity. Qed.

Lemma ascii_error_witness :
  parse_as_binary short_parser = false
  ∧ (number_of_dimensions short_parser = 2 ∨ number_of_dimensions short_parser = 3)
  ∧ failbit short_file = false
  ∧ short_run = Raised (throw_int 2) (final_state short_run)
  ∧ Z.of_nat (lines_read (final_state short_run)) < INT_MAX
  ∧ throw_int 2 = throw_int (1 + Z.of_nat (lines_read (final_state short_run))).
Proof.
  assert (Hfit : Z.of_nat (lines_read (final_state short_run)) < INT_MAX)
    by (vm_compute; reflexivity).
  split; [reflexivity|]. split; [left; reflexivity|]. split; [reflexivity|].
  split; [exact (raised_Raised _ _ short_run_raised)|]. split; [exact Hfit|].
  exact (ascii_error_carries_line_number short_parser short_file
           (start_world true) (throw_int 2) (final_state short_run)
           eq_refl (or_introl eq_refl) eq_refl
           (raised_Raised _ _ short_run_raised) Hfit).
Defined.

(** ** Two blocks and two callbacks

    Two 2D blocks of one point each; of the two callbacks the first answers
    [false]. *)
Definition pair_parser : Plot3DParser :=
  mk_parser false false 2 [counting true false; counting true true] [].

Definition pair_file : ifstream :=
  text ["2"; "1 1"; "1 1"; "10"; "20"; "30"; "40"].

Local Abbreviation pair_run :=
  (main_parser pair_parser true (initial_state pair_file (start_world true))).

Lemma pair_run_returned : returned pair_run = true.
Proof. vm_compute. reflexivity. Qed.


(** ** A binary file

    4-byte integers and 8-byte values, least significant byte first. *)
Definition int_bytes (z : Z) : string :=
  String.string_of_list_ascii (VtkWriter.le_bytes 4 z).

Definition double_bytes (z : Z) : string :=
  String.string_of_list_ascii (VtkWriter.le_bytes 8 z).

(** One 2D block of one point, (10, 20), behind its block count and its
    extents table, each in its record. *)
Definition binary_file : ifstream :=
  mk_ifstream
    (int_bytes 4 +:+ int_bytes 1 +:+ int_bytes 4
     +:+ int_bytes 8 +:+ int_bytes 1 +:+ int_bytes 1 +:+ int_bytes 8
     +:+ int_bytes 16 +:+ double_bytes 10 +:+ double_bytes 20 +:+ int_bytes 16)
    false false.

Definition binary_parser : Plot3DParser :=
  mk_parser false true 2 [counting true true] [].

Local Abbreviation binary_run :=
  (main_parser binary_parser true (initial_state binary_file (start_world true))).

Lemma binary_run_returned : returned binary_run = true.
Proof. vm_compute. reflexivity. Qed.

Lemma binary_records_witness :
  parse_as_binary binary_parser = true
  ∧ (number_of_dimensions binary_parser = 2 ∨ number_of_dimensions binary_parser = 3)
  ∧ binary_run = Done tt (final_state binary_run)
  ∧ binary_log binary_parser (number_of_dimensions binary_parser)
      (log (final_state binary_run)).
Proof.
  split; [reflexivity|]. split; [left; reflexivity|].
  split; [exact (returned_Done _ binary_run_returned)|].
  exact (proj1 (binary_parse_reads_in_records binary_parser binary_file
                  (start_world true) (final_state binary_run)
                  eq_refl (or_introl eq_refl)
                  (returned_Done _ binary_run_returned))).
Defined.

(** ** A callback that writes to its block

    [scribbling] overwrites the first point of the copy it is handed and
    answers like [counting]. *)
Definition scribbling : consumer StructuredMeshBlock3D :=
  fun b w => (true, set_coord b (0, 0, 0) (mk_coord3 99 99 99), S w).

Definition counting_parser : Plot3DParser :=
  mk_parser true false 3 [] [counting true true; counting true true].

Definition scribbling_parser : Plot3DParser :=
  mk_parser true false 3 [] [scribbling; counting true true].

Lemma scribbling_same_callbacks : same_callbacks counting_parser scribbling_parser.
Proof.
  unfold same_callbacks. simpl. split_and!; try reflexivity.
  - constructor.
  - repeat constructor.
Qed.


End Plot3DWitness.


From stdpp Require Import sorting.

Local Open Scope Z_scope.
Local Open Scope cpp_scope.

(** * Further properties of the reader *)

Module Plot3DExtra.
Import Plot3D Plot3DSpec.

Section Extra.

Context `{Env}.

(** ** The guards of [main_parser] *)

(** X1. [main_parser] tests the two streams before anything else, also
    before the assertion on the number of dimensions: when the input stream
    is in a failed state or the error stream is, it throws [-1] whatever the
    configuration of the parser, having read nothing, allocated no block and
    called no callback. *)
Theorem main_parser_failed_stream (this : Plot3DParser) (error_stream : bool)
    (input : ifstream) (w : World) :
  failbit input = true ∨ error_stream = false →
  main_parser this error_stream (initial_state input w)
  = Raised (throw_int (-1)) (initial_state input w).
Proof.
  intros Hbad. unfold main_parser, bind at 1 2. simpl.
  destruct (failbit input) eqn:Hf; [done|].
  destruct Hbad as [? | ->]; [done|]. reflexivity.
Qed.

(** X2. A parser whose number of dimensions is neither 2 nor 3 (the
    constructor leaves it at -1) parses nothing: with assertions compiled in
    [main_parser] stops at its assertion; with [NDEBUG] it returns normally,
    the stream untouched and no callback called. *)
Theorem main_parser_unset_dimensions (this : Plot3DParser) (input : ifstream)
    (w : World) :
  failbit input = false →
  number_of_dimensions this ≠ 2 → number_of_dimensions this ≠ 3 →
  main_parser this true (initial_state input w)
  = if NDEBUG then Done tt (initial_state input w)
    else Raised assert_failure (initial_state input w).
Proof.
  intros Hf H2 H3. unfold main_parser, bind at 1 2 3. simpl. rewrite Hf. simpl.
  apply Z.eqb_neq in H2, H3. rewrite H2, H3. simpl.
  unfold bind, assert. by destruct NDEBUG.
Qed.


(** ** What an ascii parse reads *)

(** X3. A parse of an ascii file that returns has read, in this order: the
    line of the block count (none in single-block mode), one line of extents
    per block, and then for every block, its values with [operator>>], two
    or three per grid point, each block's values being followed by the calls
    of the callbacks for that block.  Apart from these lines and values the
    stream is not touched. *)
Theorem ascii_parse_reads_lines_then_values (this : Plot3DParser)
    (input : ifstream) (w : World) (st : pstate) :
  parse_as_binary this = false →
  number_of_dimensions this = 2 ∨ number_of_dimensions this = 3 →
  main_parser this true (initial_state input w) = Done tt st →
  ascii_log this (number_of_dimensions this) (log st).
Proof.
  intros Hascii Hdim Hrun.
  apply main_parser_Done in Hrun; [|done]. rewrite Hascii in Hrun.
  apply parse_ascii_shape in Hrun as (evs & Hlog & Hshape). by rewrite Hlog.
Qed.

(** ** The order of a pass *)

(** The order on indices in which [k] counts most and [i] least. *)
Definition index_lt (a b : Z * Z * Z) : Prop :=
  a.2 < b.2 ∨ (a.2 = b.2 ∧ (a.1.2 < b.1.2 ∨ (a.1.2 = b.1.2 ∧ a.1.1 < b.1.1))).

Lemma StronglySorted_seqZ m n : StronglySorted Z.lt (seqZ m n).
Proof.
  destruct (decide (n ≤ 0)) as [Hn|Hn]; [rewrite seqZ_nil by done; constructor|].
  rewrite <- (Z2Nat.id n) by lia. generalize (Z.to_nat n). clear Hn n. intros n.
  induction n as [|n IH]; [constructor|].
  rewrite seqZ_S. apply StronglySorted_app_2; [|done|repeat constructor].
  intros x1 x2 Hx1%elem_of_seqZ ->%list_elem_of_singleton. lia.
Qed.

Lemma StronglySorted_bind {X Y} (RX : relation X) (R : relation Y)
    (xs : list X) (f : X → list Y) :
  StronglySorted RX xs →
  (∀ x, StronglySorted R (f x)) →
  (∀ x x' y y', RX x x' → y ∈ f x → y' ∈ f x' → R y y') →
  StronglySorted R (xs ≫= f).
Proof.
  intros Hxs Hf Hcross. induction Hxs as [|x xs Hs IH Hall]; [constructor|].
  change ((x :: xs) ≫= f) with (f x ++ (xs ≫= f)).
  apply StronglySorted_app_2; [|apply Hf|apply IH].
  intros y y' Hy (x' & Hy' & Hx')%list_elem_of_bind.
  rewrite Forall_forall in Hall. eauto.
Qed.

Lemma elem_of_traversal (e idx : Z * Z * Z) :
  idx ∈ traversal e ↔
  0 ≤ idx.1.1 < e.1.1 ∧ 0 ≤ idx.1.2 < e.1.2 ∧ 0 ≤ idx.2 < e.2.
Proof.
  unfold traversal. destruct idx as [[i j] k]. simpl. split.
  - intros (k' & (j' & (i' & Heq & Hi)%list_elem_of_bind & Hj)%list_elem_of_bind
             & Hk)%list_elem_of_bind.
    apply list_elem_of_singleton in Heq. injection Heq as -> -> ->.
    apply elem_of_seqZ in Hi, Hj, Hk. lia.
  - intros (Hi & Hj & Hk).
    apply list_elem_of_bind. exists k. split; [|apply elem_of_seqZ; lia].
    apply list_elem_of_bind. exists j. split; [|apply elem_of_seqZ; lia].
    apply list_elem_of_bind. exists i. split; [|apply elem_of_seqZ; lia].
    by apply list_elem_of_singleton.
Qed.

(** X4. [apply_function_to_input_array] calls [func] on the indices
    (i, j, k) with 0 <= i < i_ext, 0 <= j < j_ext, 0 <= k < k_ext and on no
    other, once each, in strictly increasing order where [k] counts most and
    [i] least.  It makes no call at all when an extent is zero or
    negative. *)
Theorem apply_function_visits_each_index_once (i_ext j_ext k_ext : Z)
    (func : Z → Z → Z → P unit) :
  ∃ order : list (Z * Z * Z),
    (∀ st, apply_function_to_input_array i_ext j_ext k_ext func st
           = for_each order (fun idx => func idx.1.1 idx.1.2 idx.2) st)
    ∧ StronglySorted index_lt order
    ∧ (∀ i j k, (i, j, k) ∈ order ↔
         0 ≤ i < i_ext ∧ 0 ≤ j < j_ext ∧ 0 ≤ k < k_ext)
    ∧ length order = (Z.to_nat k_ext * (Z.to_nat j_ext * Z.to_nat i_ext))%nat.
Proof.
  exists (traversal (i_ext, j_ext, k_ext)). split_and!.
  - intros st. apply apply_function_traversal.
  - unfold traversal. simpl.
    apply (StronglySorted_bind Z.lt); [apply StronglySorted_seqZ| |].
    + intros k. apply (StronglySorted_bind Z.lt); [apply StronglySorted_seqZ| |].
      * intros j. apply (StronglySorted_bind Z.lt); [apply StronglySorted_seqZ| |].
        -- intros i. repeat constructor.
        -- intros i i' y y' Hlt ->%list_elem_of_singleton ->%list_elem_of_singleton.
           unfold index_lt. simpl. lia.
      * intros j j' y y' Hlt (i & ->%list_elem_of_singleton & _)%list_elem_of_bind
               (i' & ->%list_elem_of_singleton & _)%list_elem_of_bind.
        unfold index_lt. simpl. lia.
    + intros k k' y y' Hlt
             (j & (i & ->%list_elem_of_singleton & _)%list_elem_of_bind & _)%list_elem_of_bind
             (j' & (i' & ->%list_elem_of_singleton & _)%list_elem_of_bind & _)%list_elem_of_bind.
      unfold index_lt. simpl. lia.
  - intros i j k. apply (elem_of_traversal (i_ext, j_ext, k_ext) (i, j, k)).
  - apply length_traversal.
Qed.


(** ** The population of a block from a binary file *)

Lemma read_bytes_mesh n bs st st' :
  read_bytes n st = Done bs st' → mesh st' = mesh st.
Proof.
  unfold read_bytes. destruct (good _); [|done].
  destruct (take_bytes _ _) as [[bs' rest]|]; [|done]. by intros [= _ <-].
Qed.

Lemma unpack_double_mesh v st st' :
  unpack_double st = Done v st' → mesh st' = mesh st.
Proof.
  intros (bs & st1 & Hb & Hrest)%bind_Done_inv.
  apply bind_Done_inv in Hrest as ([] & st2 & ->%modify_Done & Hr).
  apply ret_Done in Hr as [_ ->]. simpl. by eapply read_bytes_mesh.
Qed.

Lemma record_open_mesh st st' :
  record_open st = Done tt st' → mesh st' = mesh st.
Proof.
  intros (bs & st1 & Hb & ->%modify_Done)%bind_Done_inv.
  simpl. by eapply read_bytes_mesh.
Qed.

(** One pass of [parse_binary] over a list of indices: one value is
    unpacked per index and stored in component [p] there. *)
Lemma pass_binary p idxs st st' :
  for_each idxs (fun idx => read_bin_binary idx.1.1 idx.1.2 idx.2 p) st = Done tt st' →
  ∃ vs, length vs = length idxs
        ∧ step (map UnpackDouble vs) st st'
        ∧ mesh st' = foldl (write_component p) (mesh st) (zip idxs vs).
Proof.
  revert st. induction idxs as [|[[i j] k] idxs IH]; intros st Hrun; simpl in *.
  - apply ret_Done in Hrun as [_ ->]. exists []. split_and!; [done | apply step_nil | done].
  - apply bind_Done_inv in Hrun as ([] & st2 & Hread & Hrest).
    apply bind_Done_inv in Hread as (v & st1 & Hv & Hstore).
    pose proof (unpack_double_mesh _ _ _ Hv) as Hm1.
    apply unpack_double_step in Hv.
    pose proof (store_component_step _ _ _ _ _ _ _ Hstore) as Hs.
    apply modify_Done in Hstore.
    destruct (IH _ Hrest) as (vs & Hlen & Hstep & Hmesh).
    exists (v :: vs). split_and!.
    + simpl. by rewrite Hlen.
    + apply (step_app [UnpackDouble v] _ _ _ _ (step_app _ _ _ _ _ Hv Hs) Hstep).
    + rewrite Hmesh. simpl. f_equal. subst st2. simpl. by rewrite Hm1.
Qed.



(** ** The 2D block *)

(** What the projection stores at (i, j): X and Y of the 3D block at
    (i, j, 0). *)
Definition flat (m : StructuredMeshBlock3D) (ij : Z * Z) : double * double :=
  (c0 (coord m (ij.1, ij.2, 0)), c1 (coord m (ij.1, ij.2, 0))).

Lemma coord_2d_set m ij c ij' :
  coord_2d (set_coord_2d m ij c) ij'
  = if decide (ij = ij') then c else coord_2d m ij'.
Proof.
  unfold coord_2d, set_coord_2d. simpl. rewrite lookup_insert.
  by destruct (decide (ij = ij')).
Qed.

(** One row of the projection, and all its rows. *)
Definition fill_row (m : StructuredMeshBlock3D) (js : list Z)
    (acc : StructuredMeshBlock2D) (i : Z) : StructuredMeshBlock2D :=
  foldl (fun mesh2d j => set_coord_2d mesh2d (i, j) (flat m (i, j))) acc js.

Definition fill_rows (m : StructuredMeshBlock3D) (il js : list Z)
    (acc : StructuredMeshBlock2D) : StructuredMeshBlock2D :=
  foldl (fill_row m js) acc il.

Lemma fill_row_coord m i js acc :
  extent_2d (fill_row m js acc i) = extent_2d acc
  ∧ ∀ ij, coord_2d (fill_row m js acc i) ij
          = if decide (ij.1 = i ∧ ij.2 ∈ js) then flat m ij else coord_2d acc ij.
Proof.
  unfold fill_row. revert acc. induction js as [|j js IH]; intros acc.
  - split; [done|]. intros ij. destruct (decide _) as [[_ Hin]|]; [|done].
    by apply elem_of_nil in Hin.
  - cbn [foldl]. destruct (IH (set_coord_2d acc (i, j) (flat m (i, j)))) as [He Hc].
    split; [by rewrite He|]. intros [i' j']. rewrite Hc, coord_2d_set.
    cbn [fst snd].
    destruct (decide (i' = i ∧ j' ∈ js)) as [[-> Hin]|Hnot].
    + rewrite decide_True; [done|]. split; [done|]. by right.
    + destruct (decide ((i, j) = (i', j'))) as [[= <- <-]|Hne].
      * rewrite decide_True; [done|]. split; [done|]. by left.
      * rewrite decide_False; [done|]. intros [-> [->|Hin]%elem_of_cons]; tauto.
Qed.

Lemma fill_rows_coord m il js acc :
  extent_2d (fill_rows m il js acc) = extent_2d acc
  ∧ ∀ ij, coord_2d (fill_rows m il js acc) ij
          = if decide (ij.1 ∈ il ∧ ij.2 ∈ js) then flat m ij else coord_2d acc ij.
Proof.
  unfold fill_rows. revert acc. induction il as [|i il IH]; intros acc.
  - split; [done|]. intros ij. destruct (decide _) as [[Hin _]|]; [|done].
    by apply elem_of_nil in Hin.
  - cbn [foldl]. destruct (fill_row_coord m i js acc) as [He1 Hc1].
    destruct (IH (fill_row m js acc i)) as [He Hc].
    split; [by rewrite He, He1|]. intros ij. rewrite Hc, Hc1.
    destruct (decide (ij.1 ∈ il ∧ ij.2 ∈ js)) as [[Hi Hj]|Hnot].
    + rewrite decide_True; [done|]. split; [by right | done].
    + destruct (decide (ij.1 = i ∧ ij.2 ∈ js)) as [[Hi Hj]|Hne].
      * rewrite decide_True; [done|]. split; [rewrite Hi; by left | done].
      * rewrite decide_False; [done|].
        intros [[Hi|Hi]%elem_of_cons Hj]; tauto.
Qed.

(** The projection of a 3D block to the 2D block the 2D callbacks get. *)
Lemma project_2d_coord m i_ext j_ext :
  extent_2d (project_2d m i_ext j_ext) = (i_ext, j_ext)
  ∧ ∀ i j, coord_2d (project_2d m i_ext j_ext) (i, j)
           = if decide (0 ≤ i < i_ext ∧ 0 ≤ j < j_ext)
             then (c0 (coord m (i, j, 0)), c1 (coord m (i, j, 0)))
             else (zero, zero).
Proof.
  change (project_2d m i_ext j_ext)
    with (fill_rows m (seqZ 0 i_ext) (seqZ 0 j_ext)
            (set_extent_2d (i_ext, j_ext) new_block2)).
  destruct (fill_rows_coord m (seqZ 0 i_ext) (seqZ 0 j_ext)
              (set_extent_2d (i_ext, j_ext) new_block2)) as [He Hc].
  split; [by rewrite He|]. intros i j. rewrite Hc. cbn [fst snd].
  destruct (decide (0 ≤ i < i_ext ∧ 0 ≤ j < j_ext)) as [Hin|Hout].
  - rewrite decide_True; [done|]. rewrite !elem_of_seqZ. lia.
  - rewrite decide_False; [done|]. rewrite !elem_of_seqZ. lia.
Qed.

(** X6. [parse_ascii], 2D: the block has one plane ([k_ext] is 1); two
    passes are read, X and Y; the 2D block handed to the 2D callbacks has
    the extents of the file and holds at (i, j) the X and the Y read for
    (i, j, 0), that is the values in position [t] of the two passes when
    (i, j, 0) is visited in position [t]. *)
Theorem parse_block_ascii_populates_2d (this : Plot3DParser) (n : Z)
    (st st' : pstate) :
  parse_block_ascii this 2 n st = Done tt st' →
  ∃ i_ext j_ext xs ys calls b,
    log st' = log st ++ SetExtent (i_ext, j_ext, 1) :: map Extract (xs ++ ys) ++ calls
    ∧ length xs = cells (i_ext, j_ext, 1) ∧ length ys = cells (i_ext, j_ext, 1)
    ∧ fanout Call2D (length (m_mesh_2d_functions this)) b 0 calls
    ∧ extent_2d b = (i_ext, j_ext)
    ∧ ∀ t i j k, traversal (i_ext, j_ext, 1) !! t = Some (i, j, k) →
        k = 0 ∧ ∃ x y, xs !! t = Some x ∧ ys !! t = Some y
                       ∧ coord_2d b (i, j) = (x, y).
Proof.
  intros (e & st1 & Ha & Hrest)%bind_Done_inv.
  assert (Hm1 : mesh st1 = set_extent e new_block3 ∧ e.2 = 1).
  { apply bind_Done_inv in Ha as (s0 & s1 & [-> ->]%get_Done & Ha).
    apply bind_Done_inv in Ha as ([] & s2 & ->%modify_Done & Hr).
    by apply ret_Done in Hr as [-> ->]. }
  destruct Hm1 as [Hm1 Hk].
  apply allocate_block_step in Ha.
  destruct e as [[i_ext j_ext] k_ext]. simpl in Hrest, Hk. subst k_ext.
  apply bind_Done_inv in Hrest as ([] & st2 & Hx & Hrest).
  apply bind_Done_inv in Hrest as ([] & st3 & Hy & Hrest).
  unfold finish_block in Hrest. simpl in Hrest.
  apply bind_Done_inv in Hrest as (s & s' & [-> ->]%get_Done & Hcalls).
  rewrite apply_function_traversal in Hx, Hy.
  apply pass_ascii in Hx as (xs & Hlx & Hxs & Hmx).
  apply pass_ascii in Hy as (ys & Hly & Hys & Hmy).
  apply call_functions_fanout in Hcalls as (calls & Hcs & Hfan).
  set (e := (i_ext, j_ext, 1)) in *.
  rewrite length_traversal in Hlx, Hly.
  destruct (project_2d_coord (mesh st3) i_ext j_ext) as [Hext Hcoord].
  exists i_ext, j_ext, xs, ys, calls, (project_2d (mesh st3) i_ext j_ext).
  split_and!; try done.
  - pose proof (step_app _ _ _ _ _ Ha (step_app _ _ _ _ _ Hxs
       (step_app _ _ _ _ _ Hys Hcs))) as [Hlog _].
    rewrite Hlog. simpl. by rewrite !map_app, <- !app_assoc.
  - intros t i j k Ht.
    pose proof (list_elem_of_lookup_2 _ _ _ Ht) as Hin.
    apply elem_of_traversal in Hin. unfold e in Hin. simpl in Hin.
    assert (k = 0) as -> by lia. split; [done|]. fold e in Ht.
    pose proof (lookup_lt_Some _ _ _ Ht) as Hlt. rewrite length_traversal in Hlt.
    destruct (lookup_lt_is_Some_2 xs t) as [x Hxt]; [lia|].
    destruct (lookup_lt_is_Some_2 ys t) as [y Hyt]; [lia|].
    exists x, y. split_and!; try done.
    rewrite Hcoord, decide_True by lia.
    rewrite Hmy, Hmx, Hm1.
    rewrite (write_all_at 1 _ _ _ t (i, j, 0) y)
      by (done || apply NoDup_traversal || by rewrite length_traversal).
    rewrite (write_all_at 0 _ _ _ t (i, j, 0) x)
      by (done || apply NoDup_traversal || by rewrite length_traversal).
    reflexivity.
Qed.


(** ** What a failed binary parse throws *)

(** No block has been allocated so far. *)
Definition unallocated (st : pstate) : Prop := ∀ ext, SetExtent ext ∉ log st.

Lemma unallocated_add_log e st :
  (∀ ext, e ≠ SetExtent ext) → unallocated st → unallocated (add_log e st).
Proof.
  intros He Hst ext [Hin|Hin%list_elem_of_singleton]%elem_of_app.
  - by apply (Hst ext).
  - by apply (He ext).
Qed.

(** Structural steps of a proof of [keeps]. *)
Ltac keeps_structure :=
  lazymatch goal with
  | |- keeps _ (bind _ _) => apply keeps_bind; [| intros ?]
  | |- keeps _ (ret _) => apply keeps_ret
  | |- keeps _ (raise _) => apply keeps_raise
  | |- keeps _ get => apply keeps_get
  | |- keeps _ (assert _) => apply keeps_assert
  | |- keeps _ (for_range _ _) => apply keeps_for_range; intros ?
  | |- keeps _ (if ?b then _ else _) => destruct b
  | |- keeps _ (match ?x with _ => _ end) => destruct x
  end.

Lemma keeps_unallocated_read_bytes n : keeps unallocated (read_bytes n).
Proof.
  intros st Hst. unfold read_bytes. destruct (good _); [|done].
  by destruct (take_bytes _ _) as [[bs rest]|].
Qed.

Lemma keeps_unallocated_unpack_int : keeps unallocated unpack_int.
Proof.
  unfold unpack_int. repeat keeps_structure; try apply keeps_unallocated_read_bytes.
  apply keeps_modify. intros st Hst. by apply unallocated_add_log.
Qed.

Lemma keeps_unallocated_record_open : keeps unallocated record_open.
Proof.
  unfold record_open. repeat keeps_structure; try apply keeps_unallocated_read_bytes.
  apply keeps_modify. intros st Hst. by apply unallocated_add_log.
Qed.

Lemma keeps_unallocated_record_close : keeps unallocated record_close.
Proof.
  unfold record_close. repeat keeps_structure; try apply keeps_unallocated_read_bytes.
  apply keeps_modify. intros st Hst. by apply unallocated_add_log.
Qed.

Lemma keeps_unallocated_resize number_of_blocks :
  keeps unallocated (resize_extents number_of_blocks).
Proof. unfold resize_extents. repeat keeps_structure. by apply keeps_modify. Qed.

(** What a failure says when it comes after the allocation of a block. *)
Definition throws_one (e : exn) (st : pstate) : Prop :=
  (∃ ext, SetExtent ext ∈ log st) → e = throw_int 1.

Lemma unallocated_throws_one e st : unallocated st → throws_one e st.
Proof. intros Hst [ext Hin]. by destruct (Hst ext). Qed.

Lemma header_triple {A} (c : P A) :
  keeps unallocated c → triple unallocated c (fun _ => unallocated) throws_one.
Proof.
  intros Hc. eapply triple_conseq; [apply Hc | done | done |].
  intros e st. apply unallocated_throws_one.
Qed.

Lemma triple_parse_binary this dimensions :
  triple unallocated (parse_binary this dimensions) (fun _ _ => True) throws_one.
Proof.
  unfold parse_binary.
  eapply triple_seq; [apply header_triple, keeps_assert|].
  eapply triple_seq; [apply header_triple, keeps_assert|].
  eapply triple_seq; [apply header_triple; by apply keeps_modify|].
  eapply triple_bind with (Q := fun _ => unallocated).
  { apply header_triple. destruct (single_block this); [apply keeps_ret|].
    repeat keeps_structure;
      auto using keeps_unallocated_record_open, keeps_unallocated_unpack_int,
                 keeps_unallocated_record_close. }
  intros number_of_blocks.
  eapply triple_seq; [apply header_triple, keeps_unallocated_resize|].
  eapply triple_seq; [apply header_triple, keeps_unallocated_record_open|].
  eapply triple_seq.
  { apply header_triple. repeat keeps_structure; [apply keeps_unallocated_unpack_int|].
    by apply keeps_modify. }
  eapply triple_seq; [apply header_triple, keeps_unallocated_record_close|].
  apply triple_try_catch with (R' := fun _ _ => True).
  - intros st _. by destruct (for_range _ _ _).
  - intros e. apply triple_raise. by intros st _ _.
Qed.

(** X7. When a parse of a binary file fails after a block was allocated,
    that is anywhere in the data of the blocks (a short read, a record whose
    lengths disagree, an exception of a callback's making), what
    [main_parser] throws is the [int] 1: the [catch (...)] around the block
    loop replaces every exception by it.  Failures in the block count or in
    the extents table come before any allocation. *)
Theorem binary_block_failure_throws_one (this : Plot3DParser) (input : ifstream)
    (w : World) (e : exn) (st : pstate) :
  parse_as_binary this = true →
  main_parser this true (initial_state input w) = Raised e st →
  (∃ ext, SetExtent ext ∈ log st) →
  e = throw_int 1.
Proof.
  intros Hbin Hrun.
  assert (Hmain : triple unallocated (main_parser this true)
                         (fun _ _ => True) throws_one).
  { unfold main_parser.
    eapply triple_bind with (Q := fun _ => unallocated);
      [apply header_triple, keeps_get|]. intros st0.
    eapply triple_seq;
      [apply header_triple; destruct (failbit _); [apply keeps_raise | apply keeps_ret]|].
    eapply triple_seq; [apply header_triple; apply keeps_ret|].
    eapply triple_seq; [apply header_triple, keeps_assert|].
    unfold parse_2d, parse_3d. rewrite Hbin.
    destruct (_ =? 2); [apply triple_parse_binary|].
    destruct (_ =? 3); [apply triple_parse_binary|].
    eapply triple_conseq; [apply header_triple, keeps_assert | done | done | done]. }
  assert (Hinit : unallocated (initial_state input w)).
  { intros ext Hin. by apply elem_of_nil in Hin. }
  specialize (Hmain _ Hinit). by rewrite Hrun in Hmain.
Qed.

End Extra.

End Plot3DExtra.


(** * The further properties of the reader at work *)

Module Plot3DExtraWitness.
Import Plot3D Plot3DSample Plot3DSpec Plot3DExtra.

#[local] Instance sample : Env := sample_env true.

(** The value a computation returned, if it returned. *)
Definition result {E S A} (o : outcome E S A) : option A :=
  match o with Done a _ => Some a | Raised _ _ => None end.

Lemma result_Done {E S A} (o : outcome E S A) (a : A) :
  result o = Some a → o = Done a (final_state o).
Proof. destruct o as [a' s|e s]; [by intros [= ->] | discriminate]. Qed.

(** Whether a log holds the allocation of a block. *)
Definition allocates (l : list event) : bool :=
  existsb (fun e => match e with SetExtent _ => true | _ => false end) l.

Lemma allocates_elem_of (l : list event) :
  allocates l = true → ∃ ext, SetExtent ext ∈ l.
Proof.
  induction l as [|e l IH]; [discriminate|]. simpl.
  destruct e; simpl; try (intros [ext Hin]%IH; exists ext; by right).
  intros _. eexists. by left.
Qed.

(** ** The guards *)

(** A stream that failed to open. *)
Definition unopened : ifstream := mk_ifstream EmptyString false true.

Lemma main_parser_failed_stream_witness :
  (failbit unopened = true ∨ true = false)
  ∧ main_parser (mk_parser false true 3 [] []) true
      (initial_state unopened (start_world true))
    = Raised (throw_int (-1)) (initial_state unopened (start_world true)).
Proof.
  split; [left; reflexivity|].
  exact (main_parser_failed_stream (mk_parser false true 3 [] []) true unopened
           (start_world true) (or_introl eq_refl)).
Defined.

(** A parser as constructed, on a file that is there. *)
Lemma main_parser_unset_dimensions_witness :
  failbit (text ["1"]) = false
  ∧ number_of_dimensions constructor ≠ 2
  ∧ number_of_dimensions constructor ≠ 3
  ∧ main_parser constructor true (initial_state (text ["1"]) (start_world true))
    = if NDEBUG then Done tt (initial_state (text ["1"]) (start_world true))
      else Raised assert_failure (initial_state (text ["1"]) (start_world true)).
Proof.
  assert (H2 : number_of_dimensions constructor ≠ 2) by discriminate.
  assert (H3 : number_of_dimensions constructor ≠ 3) by discriminate.
  split; [reflexivity|]. split; [exact H2|]. split; [exact H3|].
  exact (main_parser_unset_dimensions constructor (text ["1"]) (start_world true)
           eq_refl H2 H3).
Defined.

(** ** An ascii file of two blocks *)

Definition two_blocks_parser : Plot3DParser :=
  mk_parser false false 2 [counting true true] [].

Definition two_blocks_file : ifstream :=
  text ["2"; "2 1"; "1 1"; "1 2"; "3 4"; "5"; "6"].

Local Abbreviation two_blocks_run :=
  (main_parser two_blocks_parser true
     (initial_state two_blocks_file (start_world true))).

Lemma two_blocks_returned : returned two_blocks_run = true.
Proof. vm_compute. reflexivity. Qed.

Lemma ascii_parse_reads_witness :
  parse_as_binary two_blocks_parser = false
  ∧ (number_of_dimensions two_blocks_parser = 2
     ∨ number_of_dimensions two_blocks_parser = 3)
  ∧ two_blocks_run = Done tt (final_state two_blocks_run)
  ∧ ascii_log two_blocks_parser (number_of_dimensions two_blocks_parser)
      (log (final_state two_blocks_run)).
Proof.
  split; [reflexivity|]. split; [left; reflexivity|].
  split; [exact (returned_Done _ two_blocks_returned)|].
  exact (ascii_parse_reads_lines_then_values two_blocks_parser two_blocks_file
           (start_world true) (final_state two_blocks_run)
           eq_refl (or_introl eq_refl) (returned_Done _ two_blocks_returned)).
Defined.

(** ** A negative block count *)

Definition negative_file : ifstream := text ["-1"; "1 1"; "7"; "8"].

Lemma ascii_negative_count_witness :
  single_block two_blocks_parser = false
  ∧ parse_as_binary two_blocks_parser = false
  ∧ (number_of_dimensions two_blocks_parser = 2
     ∨ number_of_dimensions two_blocks_parser = 3)
  ∧ good negative_file = true
  ∧ atoi (first_line negative_file) < 0
  ∧ ∃ st, main_parser two_blocks_parser true
            (initial_state negative_file (start_world true))
          = Raised (throw_int 2) st
          ∧ log st = [Getline (first_line negative_file)]
          ∧ world st = start_world true.
Proof.
  assert (Hneg : atoi (first_line negative_file) < 0) by reflexivity.
  split; [reflexivity|]. split; [reflexivity|]. split; [left; reflexivity|].
  split; [reflexivity|]. split; [exact Hneg|].
  exact (ascii_negative_count_is_fatal two_blocks_parser negative_file
           (start_world true) eq_refl eq_refl (or_introl eq_refl) eq_refl Hneg).
Defined.


(** ** Binary files *)

(** 4-byte integers and 8-byte values, least significant byte first. *)
Definition bytes4 (z : Z) : string :=
  String.string_of_list_ascii (VtkWriter.le_bytes 4 z).

Definition bytes8 (z : Z) : string :=
  String.string_of_list_ascii (VtkWriter.le_bytes 8 z).

Definition binary_parser_2d : Plot3DParser :=
  mk_parser false true 2 [counting true true] [].

(** A file whose block count is 0. *)
Definition zero_count_file : ifstream :=
  mk_ifstream (bytes4 4 +:+ bytes4 0 +:+ bytes4 4) false false.

Local Abbreviation zero_count_start :=
  (set_extents (replicate (Z.to_nat 2) [])
     (initial_state zero_count_file (start_world true))).

Local Abbreviation zero_count_opened := (final_state (record_open zero_count_start)).

Local Abbreviation zero_count_unpacked := (final_state (unpack_int zero_count_opened)).

Local Abbreviation zero_count_closed := (final_state (record_close zero_count_unpacked)).

Lemma zero_count_open : returned (record_open zero_count_start) = true.
Proof. vm_compute. reflexivity. Qed.

Lemma zero_count_unpack : result (unpack_int zero_count_opened) = Some 0.
Proof. vm_compute. reflexivity. Qed.

Lemma zero_count_close : returned (record_close zero_count_unpacked) = true.
Proof. vm_compute. reflexivity. Qed.

Lemma binary_count_below_one_witness :
  single_block binary_parser_2d = false
  ∧ 2 ≤ 2 ≤ 3
  ∧ record_open zero_count_start = Done tt zero_count_opened
  ∧ unpack_int zero_count_opened = Done 0 zero_count_unpacked
  ∧ record_close zero_count_unpacked = Done tt zero_count_closed
  ∧ 0 < 1
  ∧ parse_binary binary_parser_2d 2 (initial_state zero_count_file (start_world true))
    = Raised (throw_int (-1)) zero_count_closed
  ∧ log zero_count_closed
    = log (initial_state zero_count_file (start_world true))
      ++ [RecordOpen (fortran_input zero_count_opened); UnpackInt 0;
          RecordClose (fortran_input zero_count_opened)].
Proof.
  assert (Hd : 2 ≤ 2 ≤ 3) by lia. assert (Hlt : 0 < 1) by lia.
  split; [reflexivity|]. split; [exact Hd|].
  split; [exact (returned_Done _ zero_count_open)|].
  split; [exact (result_Done _ _ zero_count_unpack)|].
  split; [exact (returned_Done _ zero_count_close)|].
  split; [exact Hlt|].
  exact (binary_count_below_one_is_fatal binary_parser_2d 2
           (initial_state zero_count_file (start_world true))
           zero_count_opened 0 zero_count_unpacked zero_count_closed
           eq_refl Hd (returned_Done _ zero_count_open)
           (result_Done _ _ zero_count_unpack)
           (returned_Done _ zero_count_close) Hlt).
Defined.

(** One 3D block of one point, (7, 8, 9), in its record, the extents
    already in the table. *)
Definition point_parser : Plot3DParser :=
  mk_parser true true 3 [] [counting true true].

Definition point_record : ifstream :=
  mk_ifstream (bytes4 24 +:+ bytes8 7 +:+ bytes8 8 +:+ bytes8 9 +:+ bytes4 24)
              false false.

Local Abbreviation point_start :=
  (set_extents [[1]; [1]; [1]] (initial_state point_record (start_world true))).

Local Abbreviation point_run := (parse_block_binary point_parser 3 0 point_start).

Lemma point_returned : returned point_run = true.
Proof. vm_compute. reflexivity. Qed.


(** A single-block 2D file that ends after its extents table. *)
Definition cut_parser : Plot3DParser := mk_parser true true 2 [counting true true] [].

Definition cut_file : ifstream :=
  mk_ifstream (bytes4 8 +:+ bytes4 1 +:+ bytes4 1 +:+ bytes4 8) false false.

Local Abbreviation cut_run :=
  (main_parser cut_parser true (initial_state cut_file (start_world true))).

Lemma cut_raised : raised cut_run = Some (throw_int 1).
Proof. vm_compute. reflexivity. Qed.

Lemma cut_allocates : allocates (log (final_state cut_run)) = true.
Proof. vm_compute. reflexivity. Qed.

Lemma binary_block_failure_witness :
  parse_as_binary cut_parser = true
  ∧ cut_run = Raised (throw_int 1) (final_state cut_run)
  ∧ (∃ ext, SetExtent ext ∈ log (final_state cut_run))
  ∧ throw_int 1 = throw_int 1.
Proof.
  split; [reflexivity|]. split; [exact (raised_Raised _ _ cut_raised)|].
  split; [exact (allocates_elem_of _ cut_allocates)|].
  exact (binary_block_failure_throws_one cut_parser cut_file (start_world true)
           (throw_int 1) (final_state cut_run) eq_refl
           (raised_Raised _ _ cut_raised) (allocates_elem_of _ cut_allocates)).
Defined.

(** ** Blocks of ascii files *)

(** One 3D block of two points, the extents already in the table. *)
Definition pair_block_parser : Plot3DParser :=
  mk_parser true false 3 [] [counting true true].

Local Abbreviation pair_block_start :=
  (set_extents [[2]; [1]; [1]]
     (initial_state (text ["1 2"; "3 4"; "5 6"]) (start_world true))).

Local Abbreviation pair_block_run :=
  (parse_block_ascii pair_block_parser 3 0 pair_block_start).

Lemma pair_block_returned : returned pair_block_run = true.
Proof. vm_compute. reflexivity. Qed.


(** One 2D block of two by two points. *)
Definition plane_parser : Plot3DParser :=
  mk_parser true false 2 [counting true true] [].

Local Abbreviation plane_start :=
  (set_extents [[2]; [2]]
     (initial_state (text ["1 2 3 4"; "5 6 7 8"]) (start_world true))).

Local Abbreviation plane_run := (parse_block_ascii plane_parser 2 0 plane_start).

Lemma plane_returned : returned plane_run = true.
Proof. vm_compute. reflexivity. Qed.

Lemma ascii_populates_2d_witness :
  plane_run = Done tt (final_state plane_run)
  ∧ ∃ i_ext j_ext xs ys calls b,
      log (final_state plane_run)
      = log plane_start ++ SetExtent (i_ext, j_ext, 1) :: map Extract (xs ++ ys) ++ calls
      ∧ length xs = cells (i_ext, j_ext, 1) ∧ length ys = cells (i_ext, j_ext, 1)
      ∧ fanout Call2D (length (m_mesh_2d_functions plane_parser)) b 0 calls
      ∧ extent_2d b = (i_ext, j_ext)
      ∧ ∀ t i j k, traversal (i_ext, j_ext, 1) !! t = Some (i, j, k) →
          k = 0 ∧ ∃ x y, xs !! t = Some x ∧ ys !! t = Some y
                         ∧ coord_2d b (i, j) = (x, y).
Proof.
  split; [exact (returned_Done _ plane_returned)|].
  exact (parse_block_ascii_populates_2d plane_parser 0 plane_start
           (final_state plane_run) (returned_Done _ plane_returned)).
Defined.

End Plot3DExtraWitness.


(** * Further properties of the VTK writer *)

Module VtkWriterExtra.
Import VtkWriter VtkWriterSpec.

Section Extra.

Context `{Env}.

(** ** Failures of [open_file] and [write_piece] *)

(** X11. [open_file] with a file type other than [UnstructuredGrid] throws
    [std::runtime_error]; the XML header is written all the same, since it
    comes before the [switch]; the file type of the writer stays what it
    was and no tag is opened. *)
Theorem open_file_rejects_other_types (file_type : vtk_file_type) (w : VtkWriter)
    (out : list out_item) :
  file_type ≠ UnstructuredGrid →
  ∃ what,
    open_file file_type (w, out)
    = Raised (runtime_error what)
        (w, out ++ (if m_written_xml_header w then []
                    else [XmlHeader "1.0" "UTF-8"])).
Proof.
  intros Hne. eexists. unfold open_file, bind at 1. cbn.
  destruct (m_written_xml_header w); cbn.
  - rewrite app_nil_r. by destruct file_type.
  - by destruct file_type.
Qed.

(** X12. [write_piece] on a writer whose file type is not
    [UnstructuredGrid], as it is before [open_file] or after an [open_file]
    that failed, fails whatever the options and the build mode, and writes
    nothing: neither the stream nor the writer changes. *)
Theorem write_piece_needs_open_file (data : VtkUnstructuredDataset) (w : VtkWriter)
    (out : list out_item) :
  m_file_type w ≠ UnstructuredGrid →
  ∃ e, write_piece data (w, out) = Raised e (w, out).
Proof.
  intros Hne. unfold write_piece, bind at 1. cbn. unfold assert.
  destruct NDEBUG; cbn.
  - rewrite bool_decide_false by done. cbn. eauto.
  - destruct (m_file_type w) eqn:Hft; cbn; [eauto|done|].
    destruct (ascii w && appended w); cbn; eauto.
Qed.


(** ** Well-nested output *)

(** The tags of an output replayed on a stack of open tags: [None] when a
    closing tag does not close the innermost open tag. *)
Fixpoint replay (out : list out_item) (opened : list string) : option (list string) :=
  match out with
  | [] => Some opened
  | OpenTag name _ :: out' => replay out' (name :: opened)
  | CloseTag name :: out' =>
      match opened with
      | top :: rest => if bool_decide (name = Some top) then replay out' rest else None
      | [] => None
      end
  | _ :: out' => replay out' opened
  end.

Lemma replay_app out1 out2 k :
  replay (out1 ++ out2) k = replay out1 k ≫= replay out2.
Proof.
  revert k. induction out1 as [|o out1 IH]; intros k; [done|].
  destruct o as [| | name|]; simpl; auto.
  destruct k as [|top rest]; [done|]. by destruct (bool_decide _).
Qed.

Lemma replay_chars cs k : replay (map OutChar cs) k = Some k.
Proof. induction cs as [|c cs IH]; [done | apply IH]. Qed.

(** An output item other than the opening of the trailer element. *)
Definition not_trailer (o : out_item) : Prop :=
  ∀ attrs, o ≠ OpenTag "AppendedData" attrs.

Section Stable.

(** A property of the writer and its output that survives what the member
    functions do to them. *)
Variable J : wstate → Prop.
Hypothesis J_out : ∀ w out o, not_trailer o → J (w, out) → J (w, out ++ [o]).
Hypothesis J_stack : ∀ k w out, J (w, out) → J (set_xml_writer k w, out).
Hypothesis J_push : ∀ b w out,
  appended w = true → J (w, out) →
  J (set_appended_data (m_appended_data w ++ [b]) w, out).
Hypothesis J_file_type : ∀ t w out, J (w, out) → J (set_file_type t w, out).

(** The stack of open tags is [k], it is what the tags written so far leave
    open, and [J] holds. *)
Definition tracked (k : list string) (s : wstate) : Prop :=
  m_xml_writer (fst s) = k ∧ replay (snd s) [] = Some k ∧ J s.

(** The same in the state of a failure, whatever the stack. *)
Definition stopped (e : failure) (s : wstate) : Prop :=
  replay (snd s) [] = Some (m_xml_writer (fst s)) ∧ J s.

Lemma tracked_stopped k e s : tracked k s → stopped e s.
Proof. intros (Hk & Hr & HJ). split; [by rewrite Hk | done]. Qed.

Lemma J_outs w out os : Forall not_trailer os → J (w, out) → J (w, out ++ os).
Proof.
  intros Hos. revert out. induction Hos as [|o os Ho _ IH]; intros out HJ.
  - by rewrite app_nil_r.
  - rewrite cons_middle, app_assoc. apply IH. by apply J_out.
Qed.

Lemma not_trailer_chars cs : Forall not_trailer (map OutChar cs).
Proof. apply Forall_map, Forall_forall. by intros c _ attrs. Qed.

Lemma tracked_open_tag name attrs k :
  name ≠ "AppendedData" →
  triple (tracked k) (open_tag name attrs) (fun _ => tracked (name :: k)) stopped.
Proof.
  intros Hname [w out] (Hk & Hr & HJ). cbn [fst snd] in *.
  unfold open_tag, modify, tracked. cbn [fst snd set_xml_writer m_xml_writer].
  split_and!.
  - by rewrite Hk.
  - by rewrite replay_app, Hr.
  - apply J_stack, J_out; [|done]. intros attrs' [= ? _]. done.
Qed.

Lemma tracked_close_tag name k :
  triple (tracked (name :: k)) close_tag (fun _ => tracked k) stopped.
Proof.
  intros [w out] (Hk & Hr & HJ). cbn [fst snd] in *.
  unfold close_tag, modify, tracked. cbn [fst snd set_xml_writer m_xml_writer].
  split_and!.
  - by rewrite Hk.
  - rewrite replay_app, Hr, Hk. simpl. by rewrite bool_decide_true.
  - apply J_stack, J_out; done.
Qed.

Lemma tracked_emit o k :
  match o with OpenTag _ _ | CloseTag _ => False | _ => True end →
  triple (tracked k) (emit o) (fun _ => tracked k) stopped.
Proof.
  intros Ho [w out] (Hk & Hr & HJ). cbn [fst snd] in *.
  unfold emit, modify, tracked. cbn [fst snd]. split_and!; [done| |].
  - rewrite replay_app, Hr. by destruct o.
  - apply J_out; [|done]. intros attrs ->. done.
Qed.

Lemma tracked_this k : triple (tracked k) this (fun _ => tracked k) stopped.
Proof. by intros s Hs. Qed.

Lemma tracked_assert c k : triple (tracked k) (assert c) (fun _ => tracked k) stopped.
Proof.
  intros s Hs. unfold assert. destruct NDEBUG; [done|].
  destruct c; [done|]. by eapply tracked_stopped.
Qed.

Lemma tracked_data_array_body type_ ncomp name gen k :
  buffer_form gen →
  triple (tracked k) (vtk_data_array_body type_ ncomp name gen)
         (fun _ => tracked k) stopped.
Proof.
  intros [bufgen ->] [[hdr ft a p prec k' data] out] (Hk & Hr & HJ).
  simpl in Hk, Hr. subst k'. destruct p, a.
  - rewrite vtk_data_array_body_conflict. by split.
  - rewrite vtk_data_array_body_appended. split_and!; [done| |].
    + cbn [snd]. rewrite replay_app, Hr. reflexivity.
    + apply J_outs.
      { repeat constructor; intros attrs [=]. }
      by apply (J_push _ (mk_writer hdr ft false true prec k data)).
  - rewrite vtk_data_array_body_inline. split_and!; [done| |].
    + cbn [snd]. rewrite replay_app, Hr. simpl. rewrite replay_app, replay_chars. reflexivity.
    + rewrite !(assoc_L (++)). apply J_out; [done|]. apply J_outs.
      { apply not_trailer_chars. }
      apply J_out; [|done]. intros attrs [=].
  - rewrite vtk_data_array_body_inline. split_and!; [done| |].
    + cbn [snd]. rewrite replay_app, Hr. simpl. rewrite replay_app, replay_chars. reflexivity.
    + rewrite !(assoc_L (++)). apply J_out; [done|]. apply J_outs.
      { apply not_trailer_chars. }
      apply J_out; [|done]. intros attrs [=].
Qed.

Lemma tracked_data_array_int name ints k :
  triple (tracked k) (vtk_data_array_int name ints) (fun _ => tracked k) stopped.
Proof. apply tracked_data_array_body, buffer_form_int. Qed.

Lemma tracked_data_array_double name xs k :
  triple (tracked k) (vtk_data_array_double name xs) (fun _ => tracked k) stopped.
Proof. apply tracked_data_array_body, buffer_form_double. Qed.

Lemma tracked_data_array_vector name xs k :
  triple (tracked k) (vtk_data_array_vector name xs) (fun _ => tracked k) stopped.
Proof. apply tracked_data_array_body, buffer_form_vector. Qed.

Lemma tracked_data_array_point name xs k :
  triple (tracked k) (vtk_data_array_point name xs) (fun _ => tracked k) stopped.
Proof. apply tracked_data_array_body, buffer_form_vector. Qed.

Lemma tracked_cells mesh k :
  triple (tracked k) (vtk_unstructured_cells mesh) (fun _ => tracked k) stopped.
Proof.
  unfold vtk_unstructured_cells.
  eapply triple_seq; [by apply tracked_open_tag|].
  eapply triple_seq; [apply tracked_data_array_int|].
  eapply triple_seq; [apply tracked_data_array_int|].
  eapply triple_seq; [apply tracked_data_array_int|].
  apply tracked_close_tag.
Qed.

Lemma tracked_mesh mesh k :
  triple (tracked k) (vtk_unstructured_mesh mesh) (fun _ => tracked k) stopped.
Proof.
  unfold vtk_unstructured_mesh.
  eapply triple_seq; [by apply tracked_open_tag|].
  eapply triple_seq; [apply tracked_data_array_point|].
  eapply triple_seq; [apply tracked_close_tag|].
  apply tracked_cells.
Qed.

Lemma tracked_fields (open_name : string) k
    (ints : list (string * list Z)) (scalars : list (string * list double))
    (vectors : list (string * list Cartesian3D)) :
  open_name ≠ "AppendedData" →
  triple (tracked k)
    (open_tag open_name [] ;;
     for_each ints (fun subset => vtk_data_array_int subset.1 subset.2) ;;
     for_each scalars (fun subset => vtk_data_array_double subset.1 subset.2) ;;
     for_each vectors (fun subset => vtk_data_array_vector subset.1 subset.2) ;;
     close_tag)
    (fun _ => tracked k) stopped.
Proof.
  intros Hname.
  eapply triple_seq; [by apply tracked_open_tag|].
  eapply triple_seq;
    [apply triple_for_each; intros; apply tracked_data_array_int|].
  eapply triple_seq;
    [apply triple_for_each; intros; apply tracked_data_array_double|].
  eapply triple_seq;
    [apply triple_for_each; intros; apply tracked_data_array_vector|].
  apply tracked_close_tag.
Qed.

Lemma tracked_write_piece data k :
  triple (tracked k) (write_piece data) (fun _ => tracked k) stopped.
Proof.
  unfold write_piece. eapply triple_bind; [apply tracked_this|]. intros w.
  eapply triple_seq; [apply tracked_assert|].
  eapply triple_seq; [apply tracked_assert|].
  eapply triple_seq.
  { destruct (negb _).
    - apply triple_raise. intros s. apply tracked_stopped.
    - apply triple_ret with (Q := fun _ s => tracked k s). auto. }
  eapply triple_seq; [by apply tracked_open_tag|].
  eapply triple_seq; [apply tracked_mesh|].
  eapply triple_seq; [by apply tracked_fields|].
  eapply triple_seq; [by apply tracked_fields|].
  apply tracked_close_tag.
Qed.

Lemma tracked_open_file k :
  triple (tracked k) (open_file UnstructuredGrid)
         (fun _ => tracked ("UnstructuredGrid" :: "VTKFile" :: k)) stopped.
Proof.
  unfold open_file. eapply triple_bind; [apply tracked_this|]. intros w.
  eapply triple_seq with (Qm := tracked k).
  { destruct (negb _); [by apply tracked_emit | by apply triple_ret]. }
  unfold vtk_unstructured_file_header.
  eapply triple_seq.
  { eapply triple_seq; by apply tracked_open_tag. }
  apply triple_modify. intros [w' out] (Hk & Hr & HJ).
  split_and!; [exact Hk | exact Hr | by apply J_file_type].
Qed.

Lemma tracked_write_pieces pieces k :
  triple (tracked k) (write_pieces pieces)
         (fun _ => tracked ("UnstructuredGrid" :: "VTKFile" :: k)) stopped.
Proof.
  unfold write_pieces. eapply triple_seq; [apply tracked_open_file|].
  apply triple_for_each. intros d _. apply tracked_write_piece.
Qed.

(** [close_file], for a property that the trailer does not break. *)
Lemma tracked_close_file n1 n2 k :
  (∀ w out o, J (w, out) → J (w, out ++ [o])) →
  triple (tracked (n1 :: n2 :: k)) close_file (fun _ => tracked k) stopped.
Proof.
  intros J_any.
  assert (Hopen : ∀ name attrs k',
    triple (tracked k') (open_tag name attrs) (fun _ => tracked (name :: k')) stopped).
  { intros name attrs k' [w out] (Hk & Hr & HJ). cbn [fst snd] in *.
    unfold open_tag, modify, tracked. cbn [fst snd set_xml_writer m_xml_writer].
    split_and!.
    - by rewrite Hk.
    - by rewrite replay_app, Hr.
    - by apply J_stack, J_any. }
  unfold close_file.
  eapply triple_seq; [apply tracked_close_tag|].
  eapply triple_bind; [apply tracked_this|]. intros w.
  eapply triple_seq with (Qm := tracked (n2 :: k)).
  { destruct (negb _); [|by apply triple_ret].
    eapply triple_seq with (Qm := tracked ("AppendedData" :: n2 :: k)).
    { destruct (ascii w); apply Hopen. }
    eapply triple_seq; [by apply tracked_emit|].
    eapply triple_seq; [|apply tracked_close_tag].
    apply triple_for_each. intros buffer _.
    apply triple_for_each. intros c _. by apply tracked_emit. }
  apply tracked_close_tag.
Qed.

(** [close_file], for a property that says that no buffer was submitted. *)
Lemma tracked_close_file_empty n1 n2 k :
  (∀ s, J s → m_appended_data (fst s) = []) →
  triple (tracked (n1 :: n2 :: k)) close_file (fun _ => tracked k) stopped.
Proof.
  intros J_empty. unfold close_file.
  eapply triple_seq; [apply tracked_close_tag|].
  intros s Hs. unfold bind at 1. cbn.
  pose proof Hs as (_ & _ & HJ). rewrite (J_empty _ HJ). cbn.
  rewrite (bool_decide_true (int_of_size 0 = 0)) by reflexivity. cbn.
  by apply (tracked_close_tag n2 k).
Qed.

End Stable.


(** X13. The tags of a session are well nested, whether the session
    completes or stops at a failure: every closing tag the writer emits
    closes the innermost tag that is open at that point, and the tag
    writer's stack holds exactly the tags the output leaves open.  After a
    session that completes none is left open. *)
Theorem session_output_is_well_nested (a p : bool) (prec : Z)
    (pieces : list VtkUnstructuredDataset) :
  let run := session pieces (fresh a p prec, []) in
  replay (snd (final_state run)) [] = Some (m_xml_writer (fst (final_state run)))
  ∧ (returned run = true → m_xml_writer (fst (final_state run)) = []).
Proof.
  intros run.
  assert (Hrun : triple (tracked (fun _ => True) []) (session pieces)
                   (fun _ => tracked (fun _ => True) []) (stopped (fun _ => True))).
  { unfold session. eapply triple_seq.
    - by apply tracked_write_pieces.
    - by apply tracked_close_file. }
  specialize (Hrun (fresh a p prec, [])). fold run in Hrun.
  destruct run as [[] s|e s]; simpl.
  - destruct Hrun as (Hk & Hr & _); [done|]. split; [by rewrite Hk | done].
  - destruct Hrun as (Hr & _); [done|]. split; [done | discriminate].
Qed.

(** The encoding options and the header flag of a writer. *)
Definition same_options (w0 w : VtkWriter) : Prop :=
  ascii w = ascii w0 ∧ appended w = appended w0
  ∧ write_precision w = write_precision w0
  ∧ m_written_xml_header w = m_written_xml_header w0.

(** X14. No member function changes the options of the writer: after a
    session, complete or not, [ascii], [appended] and [write_precision] are
    what they were set to.  Nor is [m_written_xml_header] ever set: it is
    still [false], although [open_file] wrote the header. *)
Theorem session_keeps_options (a p : bool) (prec : Z)
    (pieces : list VtkUnstructuredDataset) :
  let w := fst (final_state (session pieces (fresh a p prec, []))) in
  ascii w = a ∧ appended w = p ∧ write_precision w = prec
  ∧ m_written_xml_header w = false.
Proof.
  set (J := fun s : wstate => same_options (fresh a p prec) (fst s)).
  assert (Hrun : triple (tracked J []) (session pieces)
                   (fun _ => tracked J []) (stopped J)).
  { unfold session. eapply triple_seq.
    - by apply tracked_write_pieces.
    - by apply tracked_close_file. }
  specialize (Hrun (fresh a p prec, [])).
  destruct (session pieces (fresh a p prec, [])) as [[] s|e s]; simpl.
  - by destruct Hrun as (_ & _ & HJ).
  - by destruct Hrun as (_ & HJ).
Qed.



(** ** The binary buffer of an integer array *)

Lemma length_le_bytes n z : length (le_bytes n z) = n.
Proof. revert z. induction n as [|n IH]; intros z; [done|]. simpl. by rewrite IH. Qed.

(** Little-endian bytes read back as a number. *)
Lemma le_unsigned_le_bytes n z :
  Plot3D.le_unsigned (le_bytes n z) = z `mod` 256 ^ Z.of_nat n.
Proof.
  revert z. induction n as [|n IH]; intros z.
  - simpl. by rewrite Z.mod_1_r.
  - cbn [le_bytes Plot3D.le_unsigned]. rewrite IH.
    rewrite Ascii.N_ascii_embedding.
    + rewrite Z2N.id by (apply Z.mod_pos_bound; lia).
      rewrite Nat2Z.inj_succ, Z.pow_succ_r by lia.
      rewrite Z.rem_mul_r by lia. done.
    + pose proof (Z.mod_pos_bound z 256 ltac:(lia)). lia.
Qed.

Lemma length_concat_le_bytes (ints : list Z) :
  length (concat (map (le_bytes 8) ints)) = (8 * length ints)%nat.
Proof.
  induction ints as [|z ints IH]; [done|].
  cbn [map concat]. rewrite length_app, length_le_bytes, IH. simpl. lia.
Qed.

(** X16. In binary mode the buffer of an integer array is the base64
    encoding of an 8-byte header followed by the integers as 8 bytes each
    ([int64_t]).  The header, although computed as
    [sizeof(double) * integers.size()], is the little-endian number of the
    payload bytes that follow it.  The buffer is returned, and submitted to
    [m_appended_data] exactly in appended mode.  The size of the unencoded
    buffer is taken to fit in the [int] that [encode_base64] gets. *)
Theorem int_buffer_header_counts_payload (integers : list Z) (w : VtkWriter)
    (out : list out_item) :
  ascii w = false →
  Z.of_nat (8 + 8 * length integers) ≤ INT_MAX →
  ∃ header payload : list uchar,
    vtk_data_array_generate_buffer_int integers (w, out)
    = Done (chars (encode_base64 (header ++ payload)))
           (if appended w
            then (set_appended_data
                    (m_appended_data w ++ [chars (encode_base64 (header ++ payload))]) w,
                  out)
            else (w, out))
    ∧ length header = 8%nat
    ∧ Plot3D.le_unsigned header = Z.of_nat (length payload)
    ∧ payload = concat (map (le_bytes 8) integers).
Proof.
  intros Hbin Hfit.
  exists (le_bytes 8 (8 * Z.of_nat (length integers))), (concat (map (le_bytes 8) integers)).
  split_and!.
  - unfold vtk_data_array_generate_buffer_int, bind at 1. cbn -[le_bytes]. rewrite Hbin.
    unfold submit_if_appended, bind at 1. cbn -[le_bytes]. unfold base64_buffer.
    rewrite length_app, length_le_bytes, length_concat_le_bytes.
    rewrite int_of_size_id by done. rewrite Nat2Z.id.
    rewrite firstn_all2
      by (rewrite length_app, length_le_bytes, length_concat_le_bytes; lia).
    by destruct (appended w).
  - apply length_le_bytes.
  - rewrite le_unsigned_le_bytes, length_concat_le_bytes.
    rewrite Z.mod_small; [lia|]. unfold INT_MAX in Hfit. lia.
  - done.
Qed.

End Extra.

End VtkWriterExtra.


(** * The further properties of the writer at work *)

Module VtkWriterExtraWitness.
Import VtkWriter VtkWriterSpec VtkWriterExtra.

#[local] Existing Instance VtkWriterSample.env.

Lemma open_file_rejects_witness :
  NoneType ≠ UnstructuredGrid
  ∧ ∃ what,
      open_file NoneType (constructor, [])
      = Raised (runtime_error what)
          (constructor, [] ++ (if m_written_xml_header constructor then []
                               else [XmlHeader "1.0" "UTF-8"])).
Proof.
  assert (Hne : NoneType ≠ UnstructuredGrid) by discriminate.
  split; [exact Hne|].
  exact (open_file_rejects_other_types NoneType constructor [] Hne).
Defined.

Lemma write_piece_needs_open_file_witness :
  m_file_type constructor ≠ UnstructuredGrid
  ∧ ∃ e, write_piece VtkWriterSample.sample_piece (constructor, [])
         = Raised e (constructor, []).
Proof.
  assert (Hne : m_file_type constructor ≠ UnstructuredGrid) by discriminate.
  split; [exact Hne|].
  exact (write_piece_needs_open_file VtkWriterSample.sample_piece constructor [] Hne).
Defined.

Lemma int_buffer_header_witness :
  ascii constructor = false
  ∧ Z.of_nat (8 + 8 * length [3; -1]) ≤ INT_MAX
  ∧ ∃ header payload : list uchar,
      vtk_data_array_generate_buffer_int [3; -1] (constructor, [])
      = Done (chars (encode_base64 (header ++ payload)))
             (if appended constructor
              then (set_appended_data
                      (m_appended_data constructor
                       ++ [chars (encode_base64 (header ++ payload))]) constructor,
                    [])
              else (constructor, []))
      ∧ length header = 8%nat
      ∧ Plot3D.le_unsigned header = Z.of_nat (length payload)
      ∧ payload = concat (map (le_bytes 8) [3; -1]).
Proof.
  assert (Hfit : Z.of_nat (8 + 8 * length [3; -1]) ≤ INT_MAX)
    by (vm_compute; discriminate).
  split; [reflexivity|]. split; [exact Hfit|].
  exact (int_buffer_header_counts_payload [3; -1] constructor [] eq_refl Hfit).
Defined.

End VtkWriterExtraWitness.


(** * The table of columns ([HBTK::DoubleTable], [src/DoubleTable.cpp]) *)

Module DoubleTable.

(** How a call can fail.  The messages of the exceptions, which hold the
    file name and the line number, are left out. *)
Inductive failure :=
| invalid_argument        (* throw std::invalid_argument(...) *)
| length_error            (* throw std::length_error(...), also from resize *)
| range_error             (* throw std::range_error(...) *)
| assert_failure          (* a failed assert(): abort() *)
| undefined_behaviour.    (* operator[] of a vector past its end *)

(** What the table takes from its environment: the build mode, the type
    [double] with 0.0 and [NAN], and [std::to_string(int)]. *)
Class Env := {
  (** [assert] is compiled out when [NDEBUG] is defined. *)
  NDEBUG : bool;
  double : Type;
  zero : double;
  NAN : double;
  to_string : Z → string
}.

Section Table.

Context `{Env}.

(** The members of the class, as its member functions use them
    ([DoubleTable.h] is not in src/): the columns, their names and their
    fill values, index by index, and the fill value of new columns. *)
Record DoubleTable := mk_table {
  m_data : list (list double);
  m_data_names : list string;
  m_fill_values : list double;
  m_default_fill_value : double
}.

Definition set_data (d : list (list double)) (t : DoubleTable) : DoubleTable :=
  mk_table d (m_data_names t) (m_fill_values t) (m_default_fill_value t).
Definition set_data_names (n : list string) (t : DoubleTable) : DoubleTable :=
  mk_table (m_data t) n (m_fill_values t) (m_default_fill_value t).
Definition set_fill_values (f : list double) (t : DoubleTable) : DoubleTable :=
  mk_table (m_data t) (m_data_names t) f (m_default_fill_value t).
Definition set_default_fill_value (v : double) (t : DoubleTable) : DoubleTable :=
  mk_table (m_data t) (m_data_names t) (m_fill_values t) v.

Definition T (A : Type) : Type := M failure DoubleTable A.

(** [DoubleTable::DoubleTable()] *)
Definition constructor : DoubleTable := mk_table [] [] [] NAN.

Definition assert (c : bool) : T unit :=
  if NDEBUG then ret tt else if c then ret tt else raise assert_failure.

(** ** Vectors *)

(** [v[i]] read: past the end (or before the start) the behaviour is
    undefined, which the model makes a failure of its own. *)
Definition vec_at {A} (v : list A) (i : Z) : T A :=
  if i <? 0 then raise undefined_behaviour
  else match v !! Z.to_nat i with
       | Some x => ret x
       | None => raise undefined_behaviour
       end.

(** [v[i] = x] *)
Definition vec_set {A} (v : list A) (i : Z) (x : A) : T (list A) :=
  if i <? 0 then raise undefined_behaviour
  else if bool_decide (Z.to_nat i < length v)%nat then ret (<[Z.to_nat i := x]> v)
       else raise undefined_behaviour.

(** [v.resize(n)] with an [int] argument: a negative one converts to a size
    beyond [max_size()]; new elements are 0.0. *)
Definition vec_resize (n : Z) (v : list double) : T (list double) :=
  if n <? 0 then raise length_error else ret (resize (Z.to_nat n) zero v).

(** [m_data[i]] read, [m_data[i] = col], [m_data[i][j] = x],
    [m_fill_values[i]]. *)
Definition data_at (i : Z) : T (list double) :=
  t <- get ;; vec_at (m_data t) i.

Definition set_data_at (i : Z) (col : list double) : T unit :=
  t <- get ;;
  d <- vec_set (m_data t) i col ;;
  modify (set_data d).

Definition write_data_at (i j : Z) (x : double) : T unit :=
  col <- data_at i ;;
  col' <- vec_set col j x ;;
  set_data_at i col'.

Definition fill_at (i : Z) : T double :=
  t <- get ;; vec_at (m_fill_values t) i.

(** ** Sizes *)

(** [check_matching_sizes] *)
Definition check_matching_sizes (t : DoubleTable) : bool :=
  let num_columns := int_of_size (length (m_data t)) in
  if negb (num_columns =? int_of_size (length (m_data_names t))) then false
  else if negb (num_columns =? int_of_size (length (m_fill_values t))) then false
  else true.

(** [number_of_columns] *)
Definition number_of_columns : T Z :=
  t <- get ;;
  assert (check_matching_sizes t) ;;
  let num_columns := int_of_size (length (m_data t)) in
  ret num_columns.

(** [number_of_rows()]: the loop index stays below [m_data.size()], so that
    [m_data[i]] is always there. *)
Definition number_of_rows : T Z :=
  t <- get ;;
  assert (check_matching_sizes t) ;;
  ret (foldl (fun max i =>
                let size := int_of_size (length (default [] (m_data t !! Z.to_nat i))) in
                if size >? max then size else max)
             0 (seqZ 0 (int_of_size (length (m_data t))))).

(** [column_index]: [std::find] stops at the first name that is equal. *)
Definition column_index (column_name : string) : T Z :=
  t <- get ;;
  match list_find (fun name => name = column_name) (m_data_names t) with
  | None => ret (-1)
  | Some (pos, _) => ret (int_of_size pos)
  end.

(** [number_of_rows(std::string column_name)] *)
Definition number_of_rows_by_name (column_name : string) : T Z :=
  idx <- column_index column_name ;;
  (if idx =? -1 then raise invalid_argument else ret tt) ;;
  col <- data_at idx ;;
  ret (int_of_size (length col)).

(** [number_of_rows(int column_idx)] *)
Definition number_of_rows_by_index (column_idx : Z) : T Z :=
  t <- get ;;
  assert (check_matching_sizes t) ;;
  assert (column_idx <? int_of_size (length (m_data t))) ;;
  col <- data_at column_idx ;;
  ret (int_of_size (length col)).

(** [default_fill_value()], [default_fill_value(double)] *)
Definition default_fill_value : T double :=
  t <- get ;; ret (m_default_fill_value t).

Definition set_default (new_value : double) : T unit :=
  modify (set_default_fill_value new_value).

(** ** Columns *)

(** [add_column(std::string column_name, std::vector<double> & data)] *)
Definition add_column_with_data (column_name : string) (data : list double) : T Z :=
  modify (fun t => set_data (m_data t ++ [data]) t) ;;
  modify (fun t => set_data_names (m_data_names t ++ [column_name]) t) ;;
  v <- default_fill_value ;;
  modify (fun t => set_fill_values (m_fill_values t ++ [v]) t) ;;
  number_of_columns.

(** [add_column(std::string column_name)] *)
Definition add_column_named (column_name : string) : T Z :=
  let a_column := [] in
  add_column_with_data column_name a_column ;;
  number_of_columns.

(** [add_column()] *)
Definition add_column : T Z :=
  n <- number_of_columns ;;
  let name := to_string n in
  add_column_named name ;;
  number_of_columns.

(** [operator[](int)], [operator[](std::string)], [column]: the column as
    it is at the call (the C++ functions return a reference to it). *)
Definition column_by_index (column_index : Z) : T (list double) :=
  data_at column_index.

Definition column_by_name (column_name : string) : T (list double) :=
  col_idx <- column_index column_name ;;
  (if col_idx <? 0 then raise range_error else ret tt) ;;
  column_by_index col_idx.

(** [column_name(int)] *)
Definition column_name (column_idx : Z) : T string :=
  t <- get ;;
  assert (column_idx <? int_of_size (length (m_data_names t))) ;;
  assert (check_matching_sizes t) ;;
  vec_at (m_data_names t) column_idx.

(** ** Loops over the columns *)

(** [for (int i = 0; i < number_of_columns(); i++) body]: the bound is
    evaluated, with its assertion, before every iteration.  [a] is what the
    body does to the local variables.  [fuel] bounds the number of
    iterations; the callers give one more than the number of columns at the
    start of the loop, which is enough as no body adds a column
    ([for_columns_enough]). *)
Fixpoint for_columns {A} (fuel : nat) (i : Z) (body : Z → A → T A) (a : A) : T A :=
  match fuel with
  | O => ret a
  | S fuel' =>
      n <- number_of_columns ;;
      if i <? n then
        a' <- body i a ;;
        for_columns fuel' (wrap_int (i + 1)) body a'
      else ret a
  end.

(** [fill_to_match_columns] *)
Definition fill_to_match_columns : T unit :=
  rows_needed <- number_of_rows ;;
  t <- get ;;
  for_columns (S (length (m_data t))) 0 (fun i _ =>
    col <- data_at i ;;
    rows <- number_of_rows ;;
    if int_of_size (length col) <? rows then
      let column_size := int_of_size (length col) in
      col' <- vec_resize rows_needed col ;;
      set_data_at i col' ;;
      for_each (seqZ column_size (rows_needed - column_size)) (fun j =>
        fill <- fill_at i ;;
        write_data_at i j fill)
    else ret tt) tt.

(** [add_row] *)
Definition add_row (row_data : list double) : T unit :=
  t <- get ;;
  assert (check_matching_sizes t) ;;
  n <- number_of_columns ;;
  (if negb (int_of_size (length row_data) =? n) then raise length_error
   else ret tt) ;;
  fill_to_match_columns ;;
  t <- get ;;
  for_columns (S (length (m_data t))) 0 (fun i _ =>
    x <- vec_at row_data i ;;
    col <- data_at i ;;
    set_data_at i (col ++ [x])) tt.

(** [read_row]: [row] is the local vector the loop fills. *)
Definition read_row (index : Z) : T (list double) :=
  assert (index >=? 0) ;;
  n <- number_of_columns ;;
  row <- (if n <? 0 then raise length_error else ret (replicate (Z.to_nat n) zero)) ;;
  t <- get ;;
  for_columns (S (length (m_data t))) 0 (fun i row =>
    col <- data_at i ;;
    if index >=? int_of_size (length col) then
      fill <- fill_at i ;;
      vec_set row i fill
    else
      x <- vec_at col index ;;
      vec_set row i x) row.

(** [set_row] *)
Definition set_row (row : list double) (index : Z) : T unit :=
  assert (index >=? 0) ;;
  n <- number_of_columns ;;
  (if negb (int_of_size (length row) =? n) then raise length_error else ret tt) ;;
  t <- get ;;
  for_columns (S (length (m_data t))) 0 (fun i _ =>
    col <- data_at i ;;
    (if index >? int_of_size (length col) then
       let original_size := int_of_size (length col) in
       col' <- vec_resize (wrap_int (index + 1)) col ;;
       set_data_at i col' ;;
       for_each (seqZ original_size (index - original_size)) (fun j =>
         fill <- fill_at i ;;
         write_data_at i j fill)
     else ret tt) ;;
    x <- vec_at row i ;;
    write_data_at i index x) tt.

(** ** Fill values *)

(** [fill_value(int column_idx, double desired_value)] *)
Definition set_fill_value (column_idx : Z) (desired_value : double) : T unit :=
  t <- get ;;
  f <- vec_set (m_fill_values t) column_idx desired_value ;;
  modify (set_fill_values f).

(** [fill_value(int column_index)] *)
Definition fill_value (column_index : Z) : T double :=
  t <- get ;;
  assert (column_index >? 0) ;;
  assert (column_index <? int_of_size (length (m_fill_values t))) ;;
  vec_at (m_fill_values t) column_index.

(** [fill_value(std::string column_heading)] *)
Definition fill_value_by_name (column_heading : string) : T double :=
  idx <- column_index column_heading ;;
  (if idx =? -1 then raise invalid_argument else ret tt) ;;
  fill_value idx.

End Table.

End DoubleTable.


(** * Properties of the table of columns *)

Module DoubleTableSpec.
Import DoubleTable.

Section Spec.

Context `{Env}.

(** ** Tables in good order *)

(** The three vectors have one entry per column. *)
Definition matching (t : DoubleTable) : Prop :=
  length (m_data_names t) = length (m_data t)
  ∧ length (m_fill_values t) = length (m_data t).

(** The number of columns and the length of every column, and one more,
    fit in an [int]. *)
Definition fits (t : DoubleTable) : Prop :=
  Z.of_nat (length (m_data t)) < INT_MAX
  ∧ Forall (fun col : list double => Z.of_nat (length col) < INT_MAX) (m_data t).

(** The length of the longest column. *)
Definition longest (d : list (list double)) : nat :=
  foldr (fun col m => length col `max` m)%nat 0%nat d.

Lemma check_matching (t : DoubleTable) : matching t → check_matching_sizes t = true.
Proof.
  intros [Hn Hf]. unfold check_matching_sizes. rewrite Hn, Hf.
  by rewrite Z.eqb_refl.
Qed.

Lemma table_assert_true (c : bool) (t : DoubleTable) : c = true → assert c t = Done tt t.
Proof. intros ->. unfold assert. by destruct NDEBUG. Qed.

Lemma number_of_columns_Done (t : DoubleTable) :
  matching t → Z.of_nat (length (m_data t)) ≤ INT_MAX →
  number_of_columns t = Done (Z.of_nat (length (m_data t))) t.
Proof.
  intros Hm Hfit. unfold number_of_columns, bind, get.
  rewrite table_assert_true by by apply check_matching.
  by rewrite int_of_size_id.
Qed.

Lemma longest_le (d : list (list double)) (col : list double) :
  col ∈ d → (length col ≤ longest d)%nat.
Proof.
  induction d as [|c d IH]; [by intros ?%elem_of_nil|].
  intros [->|Hin]%elem_of_cons; simpl; [lia|]. specialize (IH Hin). lia.
Qed.

Lemma longest_app (d1 d2 : list (list double)) :
  longest (d1 ++ d2) = (longest d1 `max` longest d2)%nat.
Proof.
  induction d1 as [|c d1 IH]; [done|]. simpl in *. rewrite IH. lia.
Qed.

Lemma number_of_rows_Done (t : DoubleTable) :
  matching t → fits t →
  number_of_rows t = Done (Z.of_nat (longest (m_data t))) t.
Proof.
  intros Hm [Hn Hcols]. unfold number_of_rows, bind, get.
  rewrite table_assert_true by by apply check_matching.
  unfold ret. f_equal. rewrite int_of_size_id by lia.
  set (d := m_data t) in *.
  assert (Hgen : ∀ k, (k ≤ length d)%nat →
    foldl (fun max i =>
             let size := int_of_size (length (default [] (d !! Z.to_nat i))) in
             if size >? max then size else max) 0 (seqZ 0 (Z.of_nat k))
    = Z.of_nat (longest (take k d))).
  { induction k as [|k IH]; intros Hk; [done|].
    rewrite seqZ_S, foldl_snoc, IH by lia. cbn zeta.
    rewrite Z.add_0_l, Nat2Z.id.
    destruct (lookup_lt_is_Some_2 d k ltac:(lia)) as [col Hcol].
    rewrite Hcol, (take_S_r _ _ _ Hcol), longest_app. simpl.
    rewrite Forall_forall in Hcols.
    pose proof (Hcols col (list_elem_of_lookup_2 _ _ _ Hcol)).
    rewrite int_of_size_id by lia.
    simpl.
    destruct (Z.gtb_spec (Z.of_nat (length col)) (Z.of_nat (longest (take k d)))); lia. }
  rewrite Hgen by done. by rewrite firstn_all.
Qed.

(** ** Reading and writing a column *)

Lemma vec_at_Done {A} (v : list A) (i : nat) (x : A) (t : DoubleTable) :
  v !! i = Some x → vec_at v (Z.of_nat i) t = Done x t.
Proof.
  intros Hx. unfold vec_at.
  destruct (Z.ltb_spec (Z.of_nat i) 0); [lia|]. by rewrite Nat2Z.id, Hx.
Qed.

Lemma vec_set_Done {A} (v : list A) (i : nat) (x : A) (t : DoubleTable) :
  (i < length v)%nat → vec_set v (Z.of_nat i) x t = Done (<[i := x]> v) t.
Proof.
  intros Hi. unfold vec_set.
  destruct (Z.ltb_spec (Z.of_nat i) 0); [lia|].
  by rewrite Nat2Z.id, bool_decide_true.
Qed.

Lemma vec_set_past_end {A} (v : list A) (i : Z) (x : A) (t : DoubleTable) :
  Z.of_nat (length v) ≤ i → vec_set v i x t = Raised undefined_behaviour t.
Proof.
  intros Hi. unfold vec_set. destruct (Z.ltb_spec i 0); [done|].
  rewrite bool_decide_false by lia. done.
Qed.

Lemma data_at_Done (i : nat) (col : list double) (t : DoubleTable) :
  m_data t !! i = Some col → data_at (Z.of_nat i) t = Done col t.
Proof. intros Hc. unfold data_at, bind, get. by apply vec_at_Done. Qed.

Lemma fill_at_Done (i : nat) (f : double) (t : DoubleTable) :
  m_fill_values t !! i = Some f → fill_at (Z.of_nat i) t = Done f t.
Proof. intros Hc. unfold fill_at, bind, get. by apply vec_at_Done. Qed.

Lemma set_data_at_Done (i : nat) (col : list double) (t : DoubleTable) :
  (i < length (m_data t))%nat →
  set_data_at (Z.of_nat i) col t = Done tt (set_data (<[i := col]> (m_data t)) t).
Proof.
  intros Hi. unfold set_data_at, bind, get. by rewrite vec_set_Done.
Qed.

Lemma write_data_at_Done (i j : nat) (x : double) (col : list double) (t : DoubleTable) :
  m_data t !! i = Some col → (j < length col)%nat →
  write_data_at (Z.of_nat i) (Z.of_nat j) x t
  = Done tt (set_data (<[i := <[j := x]> col]> (m_data t)) t).
Proof.
  intros Hc Hj. unfold write_data_at, bind.
  rewrite (data_at_Done _ _ _ Hc), vec_set_Done by done.
  apply set_data_at_Done. by eapply lookup_lt_Some.
Qed.

(** ** The loop over the columns *)

(** The rule of the loop: an invariant indexed by the number of columns
    done.  Every iteration returns, so the loop does, and [fuel] is not
    used up. *)
Lemma for_columns_enough {A} (Inv : nat → A → DoubleTable → Prop) (n : nat)
    (body : Z → A → T A) :
  Z.of_nat n < INT_MAX →
  (∀ k a t, (k ≤ n)%nat → Inv k a t → number_of_columns t = Done (Z.of_nat n) t) →
  (∀ k a t, (k < n)%nat → Inv k a t →
     ∃ a' t', body (Z.of_nat k) a t = Done a' t' ∧ Inv (S k) a' t') →
  ∀ fuel k a t, (k ≤ n)%nat → (n - k < fuel)%nat → Inv k a t →
  ∃ a' t', for_columns fuel (Z.of_nat k) body a t = Done a' t' ∧ Inv n a' t'.
Proof.
  intros Hn Hcols Hbody. induction fuel as [|fuel IH]; intros k a t Hk Hfuel Hinv; [lia|].
  simpl. unfold bind at 1. rewrite (Hcols k a t) by done.
  destruct (Z.ltb_spec (Z.of_nat k) (Z.of_nat n)) as [Hlt|Hge].
  - destruct (Hbody k a t) as (a' & t' & Hb & Hinv'); [lia | done |].
    unfold bind. rewrite Hb.
    rewrite wrap_int_id by (unfold INT_MIN; lia).
    replace (Z.of_nat k + 1) with (Z.of_nat (S k)) by lia.
    apply IH; [lia | lia | done].
  - assert (k = n) as -> by lia. by exists a, t.
Qed.

(** An iteration that fails ends the loop with its failure. *)
Lemma for_columns_fails {A} (Inv : nat → A → DoubleTable → Prop) (n j : nat)
    (body : Z → A → T A) (e : failure) :
  Z.of_nat n < INT_MAX → (j < n)%nat →
  (∀ k a t, (k ≤ j)%nat → Inv k a t → number_of_columns t = Done (Z.of_nat n) t) →
  (∀ k a t, (k < j)%nat → Inv k a t →
     ∃ a' t', body (Z.of_nat k) a t = Done a' t' ∧ Inv (S k) a' t') →
  (∀ a t, Inv j a t → ∃ t', body (Z.of_nat j) a t = Raised e t') →
  ∀ fuel k a t, (k ≤ j)%nat → (j - k < fuel)%nat → Inv k a t →
  ∃ t', for_columns fuel (Z.of_nat k) body a t = Raised e t'.
Proof.
  intros Hn Hj Hcols Hbody Hfail.
  induction fuel as [|fuel IH]; intros k a t Hk Hfuel Hinv; [lia|].
  simpl. unfold bind at 1. rewrite (Hcols k a t) by done.
  destruct (Z.ltb_spec (Z.of_nat k) (Z.of_nat n)) as [Hlt|Hge]; [|lia].
  destruct (decide (k = j)) as [->|Hne].
  - destruct (Hfail a t Hinv) as (t' & Hb). unfold bind. rewrite Hb. eauto.
  - destruct (Hbody k a t) as (a' & t' & Hb & Hinv'); [lia | done |].
    unfold bind. rewrite Hb.
    rewrite wrap_int_id by (unfold INT_MIN; lia).
    replace (Z.of_nat k + 1) with (Z.of_nat (S k)) by lia.
    apply IH; [lia | lia | done].
Qed.


(** ** Filling a column *)

(** [col] filled up to [rows] entries with [f]. *)
Definition pad (rows : nat) (f : double) (col : list double) : list double :=
  col ++ replicate (rows - length col) f.

Lemma length_pad rows f col : length (pad rows f col) = (length col `max` rows)%nat.
Proof. unfold pad. rewrite length_app, length_replicate. lia. Qed.

Lemma set_data_set_data d d' (t : DoubleTable) :
  set_data d (set_data d' t) = set_data d t.
Proof. done. Qed.

(** [for (int j = a; j < a + cnt; j++) m_data[i][j] = m_fill_values[i];] *)
Lemma fill_loop (i : nat) (f : double) (cnt : nat) :
  ∀ (a : nat) (col : list double) (t : DoubleTable),
  m_data t !! i = Some col → m_fill_values t !! i = Some f →
  (a + cnt ≤ length col)%nat →
  for_each (seqZ (Z.of_nat a) (Z.of_nat cnt))
    (fun j => fill <- fill_at (Z.of_nat i) ;; write_data_at (Z.of_nat i) j fill) t
  = Done tt (set_data (<[i := take a col ++ replicate cnt f ++ drop (a + cnt) col]>
                         (m_data t)) t).
Proof.
  induction cnt as [|cnt IH]; intros a col t Hcol Hf Hlen.
  - simpl. rewrite Nat.add_0_r, take_drop, list_insert_id by done.
    by destruct t.
  - rewrite seqZ_cons by lia. simpl. unfold bind at 1. unfold bind at 1.
    rewrite (fill_at_Done _ _ _ Hf).
    rewrite (write_data_at_Done _ _ _ _ _ Hcol) by lia.
    replace (Z.succ (Z.of_nat a)) with (Z.of_nat (S a)) by lia.
    replace (Z.pred (Z.of_nat (S cnt))) with (Z.of_nat cnt) by lia.
    pose proof (lookup_lt_Some _ _ _ Hcol) as Hi.
    rewrite (IH (S a) (<[a := f]> col)).
    + rewrite set_data_set_data. cbn [set_data m_data].
      rewrite list_insert_insert_eq. do 3 f_equal.
      rewrite take_insert_lt by lia.
      rewrite drop_insert_lt by lia.
      assert (Ha : (a < length col)%nat) by lia.
      destruct (lookup_lt_is_Some_2 col a Ha) as [y Hy].
      rewrite (take_S_r _ _ _ Hy), insert_app_r_alt by (rewrite length_take; lia).
      rewrite length_take. replace (a - a `min` length col)%nat with 0%nat by lia.
      simpl. rewrite <- app_assoc. simpl.
      replace (S (a + cnt)) with (a + S cnt)%nat by lia. done.
    + simpl. by rewrite list_lookup_insert_eq.
    + done.
    + rewrite length_insert. lia.
Qed.

(** The invariant of a loop that rewrites the columns in turn: the first
    [k] columns are what [G] makes of them, the others are untouched, and
    so are the names and the fill values. *)
Definition rewritten (G : nat → list double → double → list double)
    (t0 : DoubleTable) (k : nat) (t : DoubleTable) : Prop :=
  m_data_names t = m_data_names t0
  ∧ m_fill_values t = m_fill_values t0
  ∧ m_default_fill_value t = m_default_fill_value t0
  ∧ length (m_data t) = length (m_data t0)
  ∧ ∀ i col f, m_data t0 !! i = Some col → m_fill_values t0 !! i = Some f →
      m_data t !! i = Some (if decide (i < k)%nat then G i col f else col).

Lemma rewritten_start G t0 : rewritten G t0 0 t0.
Proof.
  split_and!; try done.
  all: intros i col f Hcol _; by rewrite decide_False by lia.
Qed.

Lemma rewritten_matching G t0 k t : matching t0 → rewritten G t0 k t → matching t.
Proof. intros [Hn Hf] (Hn' & Hf' & _ & Hl & _). split; congruence. Qed.

(** One more column rewritten. *)
Lemma rewritten_step G t0 k t col f :
  rewritten G t0 k t →
  m_data t0 !! k = Some col → m_fill_values t0 !! k = Some f →
  rewritten G t0 (S k) (set_data (<[k := G k col f]> (m_data t)) t).
Proof.
  intros (Hn & Hf & Hd & Hl & Hat) Hcol Hfill.
  split_and!; try done.
  - simpl. by rewrite length_insert.
  - intros i col' f' Hcol' Hfill'. simpl.
    destruct (decide (i = k)) as [->|Hne].
    + rewrite list_lookup_insert_eq
        by (rewrite Hl; by eapply lookup_lt_Some).
      rewrite decide_True by lia. congruence.
    + rewrite list_lookup_insert_ne by done.
      rewrite (Hat _ _ _ Hcol' Hfill').
      destruct (decide (i < k)%nat); [rewrite decide_True by lia | rewrite decide_False by lia];
        done.
Qed.


Lemma longest_bound (d : list (list double)) (m : nat) :
  Forall (fun col => length col ≤ m)%nat d → (longest d ≤ m)%nat.
Proof. induction 1 as [|col d Hc _ IH]; simpl; lia. Qed.

Lemma longest_attained (d : list (list double)) :
  d ≠ [] → ∃ i col, d !! i = Some col ∧ length col = longest d.
Proof.
  induction d as [|c d IH]; [done|]. intros _. simpl.
  destruct (decide (longest d ≤ length c)%nat) as [Hle|Hgt].
  - exists 0%nat, c. split; [done | lia].
  - destruct d as [|c' d']; [simpl in *; lia|].
    destruct IH as (i & col & Hcol & Hlen); [done|].
    exists (S i), col. split; [done | lia].
Qed.

(** ** [fill_to_match_columns] *)

(** The columns of a table are rewritten to [G] of them. *)
Definition columns_become (G : nat → list double → double → list double)
    (t t' : DoubleTable) : Prop :=
  m_data_names t' = m_data_names t
  ∧ m_fill_values t' = m_fill_values t
  ∧ m_default_fill_value t' = m_default_fill_value t
  ∧ length (m_data t') = length (m_data t)
  ∧ ∀ i col f, m_data t !! i = Some col → m_fill_values t !! i = Some f →
      m_data t' !! i = Some (G i col f).

Lemma rewritten_all G t0 t :
  rewritten G t0 (length (m_data t0)) t → columns_become G t0 t.
Proof.
  intros (Hn & Hf & Hd & Hl & Hat). split_and!; try done.
  intros i col f Hcol Hfill. rewrite (Hat _ _ _ Hcol Hfill).
  rewrite decide_True; [done|]. by eapply lookup_lt_Some.
Qed.

(** The columns of a table on the way of being filled to [rows]. *)
Lemma filling_sizes (t0 t : DoubleTable) (k : nat) :
  matching t0 → fits t0 → m_data t0 ≠ [] →
  rewritten (fun _ col f => pad (longest (m_data t0)) f col) t0 k t →
  fits t ∧ longest (m_data t) = longest (m_data t0).
Proof.
  intros Hm [Hn Hcols] Hne Hrw.
  pose proof Hrw as (_ & _ & _ & Hl & Hat).
  set (R := longest (m_data t0)) in *.
  assert (HR : Z.of_nat R < INT_MAX).
  { destruct (longest_attained _ Hne) as (i & col & Hcol & Hlen).
    rewrite Forall_forall in Hcols.
    pose proof (Hcols col (list_elem_of_lookup_2 _ _ _ Hcol)). unfold R. lia. }
  assert (Hcol' : ∀ i col', m_data t !! i = Some col' →
            ∃ col f, m_data t0 !! i = Some col ∧ (length col ≤ R)%nat
                     ∧ (col' = pad R f col ∨ col' = col)).
  { intros i col' Hi. pose proof (lookup_lt_Some _ _ _ Hi) as Hlt.
    destruct (lookup_lt_is_Some_2 (m_data t0) i ltac:(lia)) as [col Hcol].
    destruct Hm as [_ Hf].
    destruct (lookup_lt_is_Some_2 (m_fill_values t0) i ltac:(lia)) as [f Hfill].
    exists col, f. split; [done|]. split.
    - apply longest_le. by eapply list_elem_of_lookup_2.
    - specialize (Hat _ _ _ Hcol Hfill). rewrite Hi in Hat. injection Hat as ->.
      destruct (decide _); auto. }
  assert (Hle : Forall (fun col => length col ≤ R)%nat (m_data t)).
  { apply Forall_forall. intros col' (i & Hi)%list_elem_of_lookup.
    destruct (Hcol' _ _ Hi) as (col & f & _ & Hlen & [-> | ->]); [|done].
    rewrite length_pad. lia. }
  split; [split|].
  - rewrite Hl. done.
  - eapply Forall_impl; [exact Hle|]. simpl. intros col' Hc. lia.
  - apply Nat.le_antisymm; [by apply longest_bound|].
    destruct (longest_attained _ Hne) as (i & col & Hcol & Hlen).
    destruct (lookup_lt_is_Some_2 (m_data t) i) as [col' Hi].
    { rewrite Hl. by eapply lookup_lt_Some. }
    destruct (Hcol' _ _ Hi) as (col0 & f & Hcol0 & _ & Hor).
    assert (col0 = col) as -> by congruence.
    assert (length col' = R) as <-.
    { destruct Hor as [-> | ->]; [rewrite length_pad; unfold R; lia | done]. }
    apply longest_le. by eapply list_elem_of_lookup_2.
Qed.

(** What [fill_to_match_columns] does to a table in good order. *)
Lemma fill_to_match_columns_Done (t : DoubleTable) :
  matching t → fits t →
  ∃ t', fill_to_match_columns t = Done tt t'
        ∧ columns_become (fun _ col f => pad (longest (m_data t)) f col) t t'.
Proof.
  intros Hm Hfits. pose proof Hfits as [Hn Hcols].
  unfold fill_to_match_columns, bind at 1.
  rewrite number_of_rows_Done by done. unfold bind at 1, get.
  set (R := longest (m_data t)).
  set (G := fun (_ : nat) (col : list double) f => pad R f col).
  destruct (for_columns_enough (fun k (_ : unit) => rewritten G t k)
              (length (m_data t))
              (fun i _ =>
                 col <- data_at i ;;
                 rows <- number_of_rows ;;
                 if int_of_size (length col) <? rows then
                   let column_size := int_of_size (length col) in
                   col' <- vec_resize (Z.of_nat R) col ;;
                   set_data_at i col' ;;
                   for_each (seqZ column_size (Z.of_nat R - column_size)) (fun j =>
                     fill <- fill_at i ;;
                     write_data_at i j fill)
                 else ret tt)
              Hn) with (fuel := S (length (m_data t))) (k := 0%nat) (a := tt) (t := t)
    as ([] & t' & Hrun & Hinv).
  - intros k [] t1 Hk Hrw. pose proof Hrw as (_ & _ & _ & Hl & _).
    rewrite <- Hl. apply number_of_columns_Done.
    + by eapply rewritten_matching.
    + rewrite Hl. lia.
  - intros k [] t1 Hk Hrw.
    pose proof Hrw as (Hn1 & Hf1 & _ & Hl & Hat).
    destruct (lookup_lt_is_Some_2 (m_data t) k Hk) as [col Hcol].
    destruct Hm as [Hmn Hmf].
    destruct (lookup_lt_is_Some_2 (m_fill_values t) k ltac:(lia)) as [f Hfill].
    assert (Hne : m_data t ≠ []) by (intros Heq; rewrite Heq in Hk; simpl in Hk; lia).
    destruct (filling_sizes t t1 k (conj Hmn Hmf) Hfits Hne Hrw) as [Hfits1 Hlong1].
    pose proof (Hat _ _ _ Hcol Hfill) as Hk1. rewrite decide_False in Hk1 by lia.
    exists tt, (set_data (<[k := G k col f]> (m_data t1)) t1).
    split; [|by apply rewritten_step].
    unfold bind at 1. rewrite (data_at_Done _ _ _ Hk1).
    unfold bind at 1. rewrite number_of_rows_Done, Hlong1
      by (done || by eapply rewritten_matching).
    fold R.
    assert (HcolR : (length col ≤ R)%nat).
    { apply longest_le. by eapply list_elem_of_lookup_2. }
    rewrite Forall_forall in Hcols.
    pose proof (Hcols col (list_elem_of_lookup_2 _ _ _ Hcol)) as Hcfit.
    rewrite int_of_size_id by lia.
    destruct (Z.ltb_spec (Z.of_nat (length col)) (Z.of_nat R)) as [Hlt|Hge].
    + cbn zeta. unfold bind at 1, vec_resize.
      destruct (Z.ltb_spec (Z.of_nat R) 0); [lia|]. cbn [ret].
      rewrite Nat2Z.id. unfold bind at 1.
      rewrite set_data_at_Done by (rewrite Hl; lia).
      replace (Z.of_nat R - Z.of_nat (length col))
        with (Z.of_nat (R - length col)) by lia.
      rewrite (fill_loop k f (R - length col) (length col) (resize R zero col)).
      * rewrite set_data_set_data. cbn [set_data m_data].
        rewrite list_insert_insert_eq. do 3 f_equal. unfold G, pad.
        rewrite resize_ge by lia. rewrite take_app_length.
        rewrite drop_ge by (rewrite length_app, length_replicate; lia).
        by rewrite app_nil_r.
      * cbn [set_data m_data]. apply list_lookup_insert_eq. rewrite Hl. lia.
      * cbn [set_data m_fill_values]. by rewrite Hf1.
      * rewrite length_resize. lia.
    + cbn [ret]. f_equal. unfold G, pad.
      replace (R - length col)%nat with 0%nat by lia.
      rewrite app_nil_r, list_insert_id by done. by destruct t1.
  - lia.
  - lia.
  - apply rewritten_start.
  - exists t'. split; [exact Hrun|]. by apply rewritten_all.
Qed.


(** ** [read_row] *)

(** Entry [index] of a column, or its fill value when the column is
    shorter. *)
Definition entry (index : nat) (col : list double) (f : double) : double :=
  default f (col !! index).

(** The row [read_row] returns. *)
Definition row_at (index : nat) (t : DoubleTable) : list double :=
  zip_with (entry index) (m_data t) (m_fill_values t).

Lemma read_row_Done (index : nat) (t : DoubleTable) :
  matching t → fits t →
  read_row (Z.of_nat index) t = Done (row_at index t) t.
Proof.
  intros Hm Hfits. pose proof Hfits as [Hn Hcols]. pose proof Hm as [Hmn Hmf].
  unfold read_row, bind at 1.
  rewrite table_assert_true by (apply Z.geb_le; lia).
  unfold bind at 1. rewrite number_of_columns_Done by (done || lia).
  unfold bind at 1. destruct (Z.ltb_spec (Z.of_nat (length (m_data t))) 0); [lia|].
  cbn [ret]. unfold bind at 1, get. rewrite Nat2Z.id.
  set (n := length (m_data t)).
  destruct (for_columns_enough
              (fun k (row : list double) t1 =>
                 t1 = t ∧ length row = n
                 ∧ ∀ i, (i < n)%nat →
                     row !! i = if decide (i < k)%nat then row_at index t !! i
                                else Some zero)
              n
              (fun i row =>
                 col <- data_at i ;;
                 if Z.of_nat index >=? int_of_size (length col) then
                   fill <- fill_at i ;;
                   vec_set row i fill
                 else
                   x <- vec_at col (Z.of_nat index) ;;
                   vec_set row i x)
              Hn) with (fuel := S n) (k := 0%nat) (a := replicate n zero) (t := t)
    as (row & t' & Hrun & -> & Hlen & Hrow).
  - intros k row t1 Hk (-> & _). apply number_of_columns_Done; [done | fold n; lia].
  - intros k row t1 Hk (-> & Hlen & Hrow).
    destruct (lookup_lt_is_Some_2 (m_data t) k Hk) as [col Hcol].
    destruct (lookup_lt_is_Some_2 (m_fill_values t) k ltac:(lia)) as [f Hfill].
    exists (<[k := entry index col f]> row), t. split.
    + unfold bind at 1. rewrite (data_at_Done _ _ _ Hcol).
      rewrite Forall_forall in Hcols.
      pose proof (Hcols col (list_elem_of_lookup_2 _ _ _ Hcol)) as Hcfit.
      rewrite int_of_size_id by lia. unfold entry.
      destruct (Z.geb_spec (Z.of_nat index) (Z.of_nat (length col))) as [Hge|Hlt].
      * unfold bind at 1. rewrite (fill_at_Done _ _ _ Hfill).
        rewrite lookup_ge_None_2 by lia. simpl.
        apply vec_set_Done. lia.
      * destruct (lookup_lt_is_Some_2 col index ltac:(lia)) as [x Hx].
        unfold bind at 1. rewrite (vec_at_Done _ _ _ _ Hx), Hx. simpl.
        apply vec_set_Done. lia.
    + split_and!; [done | by rewrite length_insert |].
      intros i Hi. destruct (decide (i = k)) as [->|Hne].
      * rewrite list_lookup_insert_eq by lia. rewrite decide_True by lia.
        unfold row_at. rewrite lookup_zip_with, Hcol. simpl. by rewrite Hfill.
      * rewrite list_lookup_insert_ne by done. rewrite Hrow by done.
        destruct (decide (i < k)%nat);
          [rewrite decide_True by lia | rewrite decide_False by lia]; done.
  - lia.
  - lia.
  - split_and!; [done | apply length_replicate |].
    intros i Hi. rewrite decide_False by lia. by apply lookup_replicate_2.
  - etrans; [exact Hrun|]. f_equal. apply list_eq. intros i.
    destruct (decide (i < n)%nat) as [Hi|Hi].
    + rewrite Hrow by done. by rewrite decide_True.
    + rewrite !lookup_ge_None_2; [done | |lia].
      unfold row_at. rewrite length_zip_with. fold n. lia.
Qed.


(** ** [add_row] *)

Lemma columns_become_matching G t t' :
  matching t → columns_become G t t' → matching t'.
Proof. intros [Hn Hf] (Hn' & Hf' & _ & Hl & _). split; congruence. Qed.

(** What [add_row] does to a table in good order, given a row of the right
    size. *)
Lemma add_row_Done (row_data : list double) (t : DoubleTable) :
  matching t → fits t →
  length row_data = length (m_data t) →
  ∃ t', add_row row_data t = Done tt t'
        ∧ columns_become
            (fun i col f => pad (longest (m_data t)) f col
                            ++ [default zero (row_data !! i)]) t t'.
Proof.
  intros Hm Hfits Hsize. pose proof Hfits as [Hn Hcols]. pose proof Hm as [Hmn Hmf].
  unfold add_row, bind at 1, get.
  unfold bind at 1. rewrite table_assert_true by by apply check_matching.
  unfold bind at 1. rewrite number_of_columns_Done by (done || lia).
  unfold bind at 1. rewrite int_of_size_id by lia.
  rewrite Hsize, Z.eqb_refl. cbn [negb ret].
  destruct (fill_to_match_columns_Done t Hm Hfits) as (t1 & Hfill & Hbec).
  unfold bind at 1. rewrite Hfill. unfold bind at 1.
  pose proof Hbec as (Hn1 & Hf1 & Hd1 & Hl1 & Hat1).
  pose proof (columns_become_matching _ _ _ Hm Hbec) as Hm1.
  set (R := longest (m_data t)) in *.
  set (G := fun (i : nat) (col : list double) (f : double) =>
              col ++ [default zero (row_data !! i)]).
  destruct (for_columns_enough (fun k (_ : unit) => rewritten G t1 k)
              (length (m_data t1))
              (fun i _ =>
                 x <- vec_at row_data i ;;
                 col <- data_at i ;;
                 set_data_at i (col ++ [x]))
              ltac:(lia)) with (fuel := S (length (m_data t1))) (k := 0%nat)
                               (a := tt) (t := t1)
    as ([] & t' & Hrun & Hinv).
  - intros k [] t2 Hk Hrw. pose proof Hrw as (_ & _ & _ & Hl & _).
    rewrite <- Hl. apply number_of_columns_Done.
    + by eapply rewritten_matching.
    + rewrite Hl. lia.
  - intros k [] t2 Hk Hrw.
    pose proof Hrw as (Hn2 & Hf2 & _ & Hl & Hat).
    destruct (lookup_lt_is_Some_2 (m_data t1) k Hk) as [col Hcol].
    destruct Hm1 as [Hmn1 Hmf1].
    destruct (lookup_lt_is_Some_2 (m_fill_values t1) k ltac:(lia)) as [f Hfl].
    destruct (lookup_lt_is_Some_2 row_data k ltac:(lia)) as [x Hx].
    pose proof (Hat _ _ _ Hcol Hfl) as Hk2. rewrite decide_False in Hk2 by lia.
    exists tt, (set_data (<[k := G k col f]> (m_data t2)) t2).
    split; [|by apply rewritten_step].
    unfold bind at 1. rewrite (vec_at_Done _ _ _ _ Hx).
    unfold bind at 1. rewrite (data_at_Done _ _ _ Hk2).
    unfold G. rewrite Hx. simpl. apply set_data_at_Done. lia.
  - lia.
  - lia.
  - apply rewritten_start.
  - exists t'. split; [exact Hrun|].
    apply rewritten_all in Hinv. destruct Hinv as (Hn2 & Hf2 & Hd2 & Hl2 & Hat2).
    split_and!; try congruence.
    intros i col f Hcol Hfl.
    apply (Hat2 i (pad R f col) f); [by apply Hat1 | congruence].
Qed.


(** ** [set_row] *)

(** The body of the loop of [set_row]. *)
Definition set_row_body (row : list double) (index : Z) (i : Z) (_ : unit) : T unit :=
  col <- data_at i ;;
  (if index >? int_of_size (length col) then
     let original_size := int_of_size (length col) in
     col' <- vec_resize (wrap_int (index + 1)) col ;;
     set_data_at i col' ;;
     for_each (seqZ original_size (index - original_size)) (fun j =>
       fill <- fill_at i ;;
       write_data_at i j fill)
   else ret tt) ;;
  x <- vec_at row i ;;
  write_data_at i index x.

(** What [set_row] makes of a column: the entry is replaced when the column
    has it; a shorter column is filled up to the row before. *)
Definition with_entry (row : list double) (index : nat) (i : nat)
    (col : list double) (f : double) : list double :=
  if decide (index < length col)%nat
  then <[index := default zero (row !! i)]> col
  else pad index f col ++ [default zero (row !! i)].

(** One iteration, on a column whose length is not [index]. *)
Lemma set_row_body_Done (row : list double) (index k : nat) (t0 t : DoubleTable)
    (col : list double) (f x : double) :
  rewritten (with_entry row index) t0 k t →
  m_data t0 !! k = Some col → m_fill_values t0 !! k = Some f → row !! k = Some x →
  Z.of_nat (length col) < INT_MAX → Z.of_nat index + 1 ≤ INT_MAX →
  length col ≠ index →
  set_row_body row (Z.of_nat index) (Z.of_nat k) tt t
  = Done tt (set_data (<[k := with_entry row index k col f]> (m_data t)) t).
Proof.
  intros Hrw Hcol Hfill Hx Hcfit Hifit Hne.
  pose proof Hrw as (Hn1 & Hf1 & _ & Hl & Hat).
  pose proof (Hat _ _ _ Hcol Hfill) as Hk. rewrite decide_False in Hk by lia.
  pose proof (lookup_lt_Some _ _ _ Hcol) as Hklt.
  unfold set_row_body, bind at 1. rewrite (data_at_Done _ _ _ Hk).
  rewrite int_of_size_id by lia. unfold with_entry. rewrite Hx. simpl default.
  destruct (Z.gtb_spec (Z.of_nat index) (Z.of_nat (length col))) as [Hgt|Hle].
  - rewrite decide_False by lia.
    cbn zeta. unfold bind at 1. unfold bind at 1, vec_resize.
    rewrite wrap_int_id by (unfold INT_MIN; lia).
    destruct (Z.ltb_spec (Z.of_nat index + 1) 0); [lia|]. cbn [ret].
    replace (Z.to_nat (Z.of_nat index + 1)) with (S index) by lia.
    unfold bind at 1. rewrite set_data_at_Done by (rewrite Hl; lia).
    replace (Z.of_nat index - Z.of_nat (length col))
      with (Z.of_nat (index - length col)) by lia.
    rewrite (fill_loop k f (index - length col) (length col) (resize (S index) zero col)).
    + unfold bind at 1.
      rewrite (vec_at_Done _ _ _ _ Hx).
      rewrite set_data_set_data. cbn [set_data m_data].
      rewrite list_insert_insert_eq.
      set (filled := take (length col) (resize (S index) zero col)
                     ++ replicate (index - length col) f
                     ++ drop (length col + (index - length col))
                             (resize (S index) zero col)).
      assert (Hfilled : filled = col ++ replicate (index - length col) f ++ [zero]).
      { unfold filled. rewrite resize_ge by lia. rewrite take_app_length.
        replace (S index - length col)%nat with (S (index - length col)) by lia.
        rewrite replicate_S_end.
        rewrite (app_assoc col (replicate _ zero) [zero]).
        rewrite drop_app_length'
          by (rewrite length_app, length_replicate; lia).
        done. }
      rewrite (write_data_at_Done k index x filled).
      * rewrite set_data_set_data. cbn [set_data m_data].
        rewrite list_insert_insert_eq. do 3 f_equal. unfold pad.
        rewrite Hfilled, (app_assoc col), insert_app_r_alt
          by (rewrite length_app, length_replicate; lia).
        rewrite length_app, length_replicate.
        replace (index - (length col + (index - length col)))%nat with 0%nat by lia.
        done.
      * cbn [set_data m_data]. apply list_lookup_insert_eq. rewrite Hl. lia.
      * rewrite Hfilled, !length_app, length_replicate. simpl. lia.
    + cbn [set_data m_data]. apply list_lookup_insert_eq. rewrite Hl. lia.
    + cbn [set_data m_fill_values]. by rewrite Hf1.
    + rewrite length_resize. lia.
  - rewrite decide_True by lia.
    unfold bind at 1. cbn [ret]. unfold bind at 1.
    rewrite (vec_at_Done _ _ _ _ Hx).
    apply (write_data_at_Done _ _ _ _ _ Hk). lia.
Qed.

(** One iteration, on a column whose length is [index]: the write is past
    the end of the column. *)
Lemma set_row_body_past_end (row : list double) (k : nat) (t : DoubleTable)
    (col : list double) (x : double) :
  m_data t !! k = Some col → row !! k = Some x →
  Z.of_nat (length col) ≤ INT_MAX →
  set_row_body row (Z.of_nat (length col)) (Z.of_nat k) tt t
  = Raised undefined_behaviour t.
Proof.
  intros Hk Hx Hcfit.
  unfold set_row_body, bind at 1. rewrite (data_at_Done _ _ _ Hk).
  rewrite int_of_size_id by lia. rewrite Z.gtb_ltb, Z.ltb_irrefl.
  unfold bind at 1. cbn [ret]. unfold bind at 1.
  rewrite (vec_at_Done _ _ _ _ Hx).
  unfold write_data_at, bind at 1. rewrite (data_at_Done _ _ _ Hk).
  unfold bind. by rewrite vec_set_past_end.
Qed.

Lemma set_row_unfold (row : list double) (index : nat) (t : DoubleTable) :
  matching t → Z.of_nat (length (m_data t)) ≤ INT_MAX →
  length row = length (m_data t) →
  set_row row (Z.of_nat index) t
  = for_columns (S (length (m_data t))) 0 (set_row_body row (Z.of_nat index)) tt t.
Proof.
  intros Hm Hn Hsize. unfold set_row, bind at 1.
  rewrite table_assert_true by (apply Z.geb_le; lia).
  unfold bind at 1. rewrite number_of_columns_Done by done.
  unfold bind at 1. rewrite int_of_size_id by lia.
  rewrite Hsize, Z.eqb_refl. cbn [negb ret]. reflexivity.
Qed.

Lemma set_row_Done (row : list double) (index : nat) (t : DoubleTable) :
  matching t → fits t → Z.of_nat index + 1 ≤ INT_MAX →
  length row = length (m_data t) →
  Forall (fun col => length col ≠ index) (m_data t) →
  ∃ t', set_row row (Z.of_nat index) t = Done tt t'
        ∧ columns_become (with_entry row index) t t'.
Proof.
  intros Hm Hfits Hifit Hsize Hlens.
  pose proof Hfits as [Hn Hcols]. pose proof Hm as [Hmn Hmf].
  rewrite set_row_unfold by (done || lia).
  destruct (for_columns_enough (fun k (_ : unit) => rewritten (with_entry row index) t k)
              (length (m_data t)) (set_row_body row (Z.of_nat index)) Hn)
    with (fuel := S (length (m_data t))) (k := 0%nat) (a := tt) (t := t)
    as ([] & t' & Hrun & Hinv).
  - intros k [] t1 Hk Hrw. pose proof Hrw as (_ & _ & _ & Hl & _).
    rewrite <- Hl. apply number_of_columns_Done.
    + by eapply rewritten_matching.
    + rewrite Hl. lia.
  - intros k [] t1 Hk Hrw.
    destruct (lookup_lt_is_Some_2 (m_data t) k Hk) as [col Hcol].
    destruct (lookup_lt_is_Some_2 (m_fill_values t) k ltac:(lia)) as [f Hfill].
    destruct (lookup_lt_is_Some_2 row k ltac:(lia)) as [x Hx].
    rewrite Forall_forall in Hcols, Hlens.
    pose proof (list_elem_of_lookup_2 _ _ _ Hcol) as Hin.
    exists tt, (set_data (<[k := with_entry row index k col f]> (m_data t1)) t1).
    split; [|by apply rewritten_step].
    by apply (set_row_body_Done row index k t t1 col f x); auto.
  - lia.
  - lia.
  - apply rewritten_start.
  - exists t'. split; [exact Hrun | by apply rewritten_all].
Qed.


(** ** Columns and their names *)

(** X17. [add_column(name, data)] on a table in good order appends a column
    with that name, that data and the default fill value, leaves every other
    column, name and fill value alone, and returns the new number of
    columns; [add_column()] does the same with an empty column named after
    the number of columns before the call.  The three vectors stay
    matched. *)
Theorem add_column_appends (column_name : string) (data : list double)
    (t : DoubleTable) :
  matching t → Z.of_nat (length (m_data t)) < INT_MAX →
  let added name col :=
    mk_table (m_data t ++ [col]) (m_data_names t ++ [name])
             (m_fill_values t ++ [m_default_fill_value t])
             (m_default_fill_value t) in
  add_column_with_data column_name data t
  = Done (Z.of_nat (length (m_data t)) + 1) (added column_name data)
  ∧ add_column t
    = Done (Z.of_nat (length (m_data t)) + 1)
           (added (to_string (Z.of_nat (length (m_data t)))) [])
  ∧ matching (added column_name data).
Proof.
  intros Hm Hn added.
  assert (Hadded : ∀ name col, matching (added name col)).
  { intros name col. destruct Hm as [Hmn Hmf]. split; simpl;
      rewrite !length_app; simpl; lia. }
  assert (Hcols : ∀ name col,
            number_of_columns (added name col)
            = Done (Z.of_nat (length (m_data t)) + 1) (added name col)).
  { intros name col. rewrite number_of_columns_Done; [|done|];
      simpl; rewrite length_app; simpl; [f_equal|]; lia. }
  assert (Hwith : ∀ name col,
            add_column_with_data name col t
            = Done (Z.of_nat (length (m_data t)) + 1) (added name col)).
  { intros name col. unfold add_column_with_data, bind, modify, default_fill_value, get.
    cbn [ret]. apply Hcols. }
  split_and!; [apply Hwith | | apply Hadded].
  unfold add_column, bind at 1. rewrite number_of_columns_Done by (done || lia).
  unfold bind at 1. unfold add_column_named, bind at 1.
  rewrite Hwith, Hcols. apply Hcols.
Qed.

(** [column_index] is [std::find] over the names: -1 for a name that is not
    there, the first position of the name otherwise. *)
Lemma column_index_Done (column_name_ : string) (t : DoubleTable) :
  matching t → Z.of_nat (length (m_data t)) ≤ INT_MAX →
  ∃ idx,
    column_index column_name_ t = Done idx t
    ∧ (idx = -1 ↔ column_name_ ∉ m_data_names t)
    ∧ (idx ≠ -1 →
         0 ≤ idx < Z.of_nat (length (m_data t))
         ∧ m_data_names t !! Z.to_nat idx = Some column_name_
         ∧ (∀ j, (j < Z.to_nat idx)%nat → m_data_names t !! j ≠ Some column_name_)).
Proof.
  intros Hm Hn. pose proof Hm as [Hmn Hmf].
  unfold column_index, bind, get.
  destruct (list_find _ _) as [[pos name]|] eqn:Hfind.
  - apply list_find_Some in Hfind as (Hpos & -> & Hfirst).
    pose proof (lookup_lt_Some _ _ _ Hpos) as Hlt.
    exists (int_of_size pos). rewrite int_of_size_id by lia.
    split; [done|]. split.
    + split; [lia|]. intros Hnot. destruct Hnot. by eapply list_elem_of_lookup_2.
    + intros _. rewrite Nat2Z.id. split_and!; [lia | lia | done |].
      intros j Hj Hname. by apply (Hfirst j column_name_).
  - apply list_find_None in Hfind. exists (-1). split; [done|].
    split; [|done]. split; [|done]. intros _ Hin.
    rewrite Forall_forall in Hfind. by apply (Hfind _ Hin).
Qed.

(** X18. [column_index] gives -1 exactly for a name that no column has;
    otherwise it gives the position of the first column of that name, so
    that a later column of the same name is not reached by name, and
    [column_name] at that position gives the name back. *)
Theorem column_index_finds_first_column (column_name_ : string) (t : DoubleTable) :
  matching t → Z.of_nat (length (m_data t)) ≤ INT_MAX →
  ∃ idx,
    column_index column_name_ t = Done idx t
    ∧ (idx = -1 ↔ column_name_ ∉ m_data_names t)
    ∧ (idx ≠ -1 →
         0 ≤ idx
         ∧ m_data_names t !! Z.to_nat idx = Some column_name_
         ∧ (∀ j, (j < Z.to_nat idx)%nat → m_data_names t !! j ≠ Some column_name_)
         ∧ column_name idx t = Done column_name_ t).
Proof.
  intros Hm Hn. pose proof Hm as [Hmn Hmf].
  destruct (column_index_Done column_name_ t Hm Hn) as (idx & Hidx & Hnone & Hsome).
  exists idx. split_and!; [done | done |].
  intros Hne. destruct (Hsome Hne) as (Hpos & Hat & Hbefore).
  split_and!; [lia | done | done |].
  unfold column_name, bind, get.
  rewrite table_assert_true
    by (rewrite int_of_size_id by lia; apply Z.ltb_lt; lia).
  rewrite table_assert_true by by apply check_matching.
  replace idx with (Z.of_nat (Z.to_nat idx)) by lia.
  by apply vec_at_Done.
Qed.

(** X19. [number_of_rows(column_name)] throws [std::invalid_argument] for a
    name that no column has, the table unchanged; otherwise it returns the
    length of the first column of that name. *)
Theorem number_of_rows_by_name_checks_name (column_name_ : string) (t : DoubleTable) :
  matching t → fits t →
  (column_name_ ∉ m_data_names t →
     number_of_rows_by_name column_name_ t = Raised invalid_argument t)
  ∧ (∀ pos col,
       m_data_names t !! pos = Some column_name_ →
       (∀ j, (j < pos)%nat → m_data_names t !! j ≠ Some column_name_) →
       m_data t !! pos = Some col →
       number_of_rows_by_name column_name_ t = Done (Z.of_nat (length col)) t).
Proof.
  intros Hm [Hn Hcols].
  destruct (column_index_Done column_name_ t Hm ltac:(lia))
    as (idx & Hidx & Hnone & Hsome).
  split.
  - intros Hnot. unfold number_of_rows_by_name, bind at 1. rewrite Hidx.
    apply Hnone in Hnot as ->. reflexivity.
  - intros pos col Hname Hfirst Hcol.
    assert (Hne : idx ≠ -1).
    { intros Heq%Hnone. destruct Heq. by eapply list_elem_of_lookup_2. }
    destruct (Hsome Hne) as (Hpos & Hat & Hbefore).
    assert (Z.to_nat idx = pos) as Hidxpos.
    { destruct (Nat.lt_trichotomy (Z.to_nat idx) pos) as [Hlt|[Heq|Hgt]]; [|done|].
      - by destruct (Hfirst _ Hlt).
      - by destruct (Hbefore _ Hgt). }
    apply Z.eqb_neq in Hne. unfold number_of_rows_by_name, bind at 1.
    rewrite Hidx. unfold bind at 1. rewrite Hne. cbn [ret].
    unfold bind at 1. replace idx with (Z.of_nat pos) by lia.
    rewrite (data_at_Done _ _ _ Hcol). cbn [ret]. f_equal.
    rewrite Forall_forall in Hcols.
    pose proof (Hcols col (list_elem_of_lookup_2 _ _ _ Hcol)).
    apply int_of_size_id. lia.
Qed.


(** ** Rows *)

(** X20. [read_row] on a table in good order never fails and leaves the
    table as it is; the row it returns has one entry per column: the entry
    of the column at [index], or the fill value of the column when the
    column has no such entry. *)
Theorem read_row_fills_short_columns (index : nat) (t : DoubleTable) :
  matching t → fits t →
  ∃ row,
    read_row (Z.of_nat index) t = Done row t
    ∧ length row = length (m_data t)
    ∧ ∀ i col f, m_data t !! i = Some col → m_fill_values t !! i = Some f →
        row !! i = Some (default f (col !! index)).
Proof.
  intros Hm Hfits. exists (row_at index t). split_and!.
  - by apply read_row_Done.
  - unfold row_at. destruct Hm as [_ Hmf]. rewrite length_zip_with. lia.
  - intros i col f Hcol Hfill. unfold row_at.
    rewrite lookup_zip_with, Hcol. simpl. by rewrite Hfill.
Qed.

(** X21. [add_row] with a row whose size is not the number of columns throws
    [std::length_error] and leaves the table as it was. *)
Theorem add_row_rejects_wrong_size (row_data : list double) (t : DoubleTable) :
  matching t → Z.of_nat (length (m_data t)) ≤ INT_MAX →
  Z.of_nat (length row_data) ≤ INT_MAX →
  length row_data ≠ length (m_data t) →
  add_row row_data t = Raised length_error t.
Proof.
  intros Hm Hn Hrow Hne. unfold add_row, bind at 1, get.
  unfold bind at 1. rewrite table_assert_true by by apply check_matching.
  unfold bind at 1. rewrite number_of_columns_Done by done.
  unfold bind at 1. rewrite int_of_size_id by done.
  destruct (Z.eqb_spec (Z.of_nat (length row_data)) (Z.of_nat (length (m_data t))));
    [lia | reflexivity].
Qed.

Lemma columns_become_fits G (t t' : DoubleTable) (m : nat) :
  matching t → fits t → columns_become G t t' →
  (∀ i col f, m_data t !! i = Some col → length (G i col f) = m) →
  Z.of_nat m < INT_MAX →
  fits t' ∧ Forall (fun col => length col = m) (m_data t').
Proof.
  intros [Hmn Hmf] [Hn Hcols] (_ & _ & _ & Hl & Hat) HG Hm.
  assert (Hall : Forall (fun col => length col = m) (m_data t')).
  { apply Forall_forall. intros col' (i & Hi)%list_elem_of_lookup.
    pose proof (lookup_lt_Some _ _ _ Hi) as Hlt.
    destruct (lookup_lt_is_Some_2 (m_data t) i ltac:(lia)) as [col Hcol].
    destruct (lookup_lt_is_Some_2 (m_fill_values t) i ltac:(lia)) as [f Hfill].
    rewrite (Hat _ _ _ Hcol Hfill) in Hi. injection Hi as <-. by eapply HG. }
  split; [split|done].
  - by rewrite Hl.
  - eapply Forall_impl; [exact Hall|]. simpl. intros col' ->. done.
Qed.

(** X22. [add_row] with a row of the right size, on a table in good order
    whose longest column has [rows] entries: every column is first filled up
    to [rows] entries with its fill value, then gets its entry of the row;
    afterwards all columns have [rows + 1] entries, [read_row(rows)] gives
    the row back, and [read_row] at an earlier index gives what it gave
    before the call. *)
Theorem add_row_then_read_row (row_data : list double) (t : DoubleTable) :
  matching t → fits t →
  Z.of_nat (longest (m_data t)) + 1 < INT_MAX →
  length row_data = length (m_data t) →
  ∃ t',
    add_row row_data t = Done tt t'
    ∧ matching t'
    ∧ Forall (fun col => length col = S (longest (m_data t))) (m_data t')
    ∧ read_row (Z.of_nat (longest (m_data t))) t' = Done row_data t'
    ∧ ∀ index, (index < longest (m_data t))%nat →
        ∃ row, read_row (Z.of_nat index) t = Done row t
               ∧ read_row (Z.of_nat index) t' = Done row t'.
Proof.
  intros Hm Hfits HR Hsize.
  destruct (add_row_Done row_data t Hm Hfits Hsize) as (t' & Hrun & Hbec).
  set (R := longest (m_data t)) in *.
  pose proof (columns_become_matching _ _ _ Hm Hbec) as Hm'.
  destruct (columns_become_fits _ t t' (S R) Hm Hfits Hbec) as [Hfits' Hall].
  { intros i col f Hcol. rewrite length_app, length_pad. simpl.
    pose proof (longest_le (m_data t) col (list_elem_of_lookup_2 _ _ _ Hcol)).
    unfold R. lia. }
  { lia. }
  pose proof Hbec as (Hn' & Hf' & _ & Hl' & Hat).
  pose proof Hm as [Hmn Hmf].
  assert (Hrow : ∀ index, row_at index t'
            = imap (fun i x =>
                let col := default [] (m_data t !! i) in
                let f := default zero (m_fill_values t !! i) in
                entry index (pad R f col ++ [x]) f) row_data).
  { intros index. apply list_eq. intros i. unfold row_at.
    rewrite lookup_zip_with, list_lookup_imap.
    destruct (decide (i < length (m_data t))%nat) as [Hi|Hi].
    - destruct (lookup_lt_is_Some_2 (m_data t) i Hi) as [col Hcol].
      destruct (lookup_lt_is_Some_2 (m_fill_values t) i ltac:(lia)) as [f Hfill].
      destruct (lookup_lt_is_Some_2 row_data i ltac:(lia)) as [x Hx].
      rewrite (Hat _ _ _ Hcol Hfill), Hf', Hfill, Hx, Hcol. done.
    - rewrite (lookup_ge_None_2 (m_data t')), (lookup_ge_None_2 row_data) by lia.
      done. }
  exists t'. split_and!; [done | done | done | |].
  - rewrite read_row_Done, Hrow by done. f_equal.
    apply list_eq. intros i. rewrite list_lookup_imap.
    destruct (row_data !! i) as [x|] eqn:Hx; [|done]. simpl. f_equal.
    pose proof (lookup_lt_Some _ _ _ Hx) as Hi.
    destruct (lookup_lt_is_Some_2 (m_data t) i ltac:(lia)) as [col Hcol].
    rewrite Hcol. simpl. unfold entry.
    pose proof (longest_le (m_data t) col (list_elem_of_lookup_2 _ _ _ Hcol)).
    rewrite lookup_app_r by (rewrite length_pad; lia).
    rewrite length_pad. replace (R - length col `max` R)%nat with 0%nat by lia.
    done.
  - intros index Hindex. exists (row_at index t).
    rewrite !read_row_Done by done. split; [done|]. f_equal.
    rewrite Hrow. apply list_eq. intros i. rewrite list_lookup_imap.
    unfold row_at. rewrite lookup_zip_with.
    destruct (decide (i < length (m_data t))%nat) as [Hi|Hi].
    + destruct (lookup_lt_is_Some_2 (m_data t) i Hi) as [col Hcol].
      destruct (lookup_lt_is_Some_2 (m_fill_values t) i ltac:(lia)) as [f Hfill].
      destruct (lookup_lt_is_Some_2 row_data i ltac:(lia)) as [x Hx].
      rewrite Hcol, Hfill, Hx. simpl. f_equal. unfold entry, pad.
      rewrite lookup_app_l by (rewrite length_app, length_replicate; lia).
      destruct (decide (index < length col)%nat) as [Hlt|Hge].
      * by rewrite lookup_app_l by lia.
      * rewrite lookup_app_r by lia.
        rewrite lookup_replicate_2 by lia.
        by rewrite (lookup_ge_None_2 col) by lia.
    + by rewrite (lookup_ge_None_2 (m_data t)), (lookup_ge_None_2 row_data) by lia.
Qed.


(** X23. [fill_to_match_columns] on a table in good order makes all columns
    as long as the longest one was, by appending to each shorter column its
    own fill value; it changes neither the names nor the fill values, and
    [read_row] gives for every index what it gave before. *)
Theorem fill_to_match_columns_squares (t : DoubleTable) :
  matching t → fits t →
  ∃ t',
    fill_to_match_columns t = Done tt t'
    ∧ m_data_names t' = m_data_names t
    ∧ m_fill_values t' = m_fill_values t
    ∧ Forall (fun col => length col = longest (m_data t)) (m_data t')
    ∧ (∀ i col f, m_data t !! i = Some col → m_fill_values t !! i = Some f →
         m_data t' !! i
         = Some (col ++ replicate (longest (m_data t) - length col) f))
    ∧ ∀ index, ∃ row, read_row (Z.of_nat index) t = Done row t
                      ∧ read_row (Z.of_nat index) t' = Done row t'.
Proof.
  intros Hm Hfits.
  destruct (fill_to_match_columns_Done t Hm Hfits) as (t' & Hrun & Hbec).
  set (R := longest (m_data t)) in *.
  pose proof (columns_become_matching _ _ _ Hm Hbec) as Hm'.
  pose proof Hbec as (Hn' & Hf' & _ & Hl' & Hat).
  pose proof Hm as [Hmn Hmf]. pose proof Hfits as [Hn Hcols].
  assert (Hsq : fits t' ∧ Forall (fun col => length col = R) (m_data t')).
  { destruct (decide (m_data t = [])) as [Hnil|Hne].
    - assert (m_data t' = []) as Hnil'.
      { apply nil_length_inv. by rewrite Hl', Hnil. }
      unfold fits. rewrite Hnil'. split; [split|]; [reflexivity | done | done].
    - apply (columns_become_fits _ t t' R Hm Hfits Hbec).
      + intros i col f Hcol. rewrite length_pad.
        pose proof (longest_le (m_data t) col (list_elem_of_lookup_2 _ _ _ Hcol)).
        unfold R. lia.
      + destruct (longest_attained _ Hne) as (i & col & Hcol & Hlen).
        rewrite Forall_forall in Hcols.
        pose proof (Hcols col (list_elem_of_lookup_2 _ _ _ Hcol)). unfold R. lia. }
  destruct Hsq as [Hfits' Hall].
  exists t'. split_and!; try done.
  intros index. exists (row_at index t). rewrite !read_row_Done by done.
  split; [done|]. f_equal. apply list_eq. intros i. unfold row_at.
  rewrite !lookup_zip_with, Hf'.
  destruct (decide (i < length (m_data t))%nat) as [Hi|Hi].
  - destruct (lookup_lt_is_Some_2 (m_data t) i Hi) as [col Hcol].
    destruct (lookup_lt_is_Some_2 (m_fill_values t) i ltac:(lia)) as [f Hfill].
    rewrite (Hat _ _ _ Hcol Hfill), Hcol, Hfill. simpl. f_equal.
    unfold entry, pad.
    destruct (decide (index < length col)%nat) as [Hlt|Hge].
    + by rewrite lookup_app_l by lia.
    + rewrite lookup_app_r by lia. rewrite (lookup_ge_None_2 col) by lia.
      destruct (decide (index - length col < R - length col)%nat).
      * by rewrite lookup_replicate_2.
      * by rewrite lookup_ge_None_2 by (rewrite length_replicate; lia).
  - by rewrite (lookup_ge_None_2 (m_data t)), (lookup_ge_None_2 (m_data t')) by lia.
Qed.

(** X24. [set_row] tests [index > m_data[i].size()] before it resizes a
    column, so a column that has exactly [index] entries is not resized, and
    [m_data[i][index] = row[i]] writes past its end: on a table in good
    order with such a column, also a table whose columns all end at
    [index], the call runs into undefined behaviour. *)
Theorem set_row_at_column_end_is_undefined (row : list double) (index : nat)
    (t : DoubleTable) :
  matching t → fits t →
  length row = length (m_data t) →
  (∃ col, col ∈ m_data t ∧ length col = index) →
  ∃ t', set_row row (Z.of_nat index) t = Raised undefined_behaviour t'.
Proof.
  intros Hm Hfits Hsize (col0 & Hin0 & Hlen0).
  pose proof Hfits as [Hn Hcols]. pose proof Hm as [Hmn Hmf].
  rewrite Forall_forall in Hcols.
  assert (Hifit : Z.of_nat index + 1 ≤ INT_MAX).
  { pose proof (Hcols col0 Hin0). lia. }
  destruct (list_find (fun col => length col = index) (m_data t))
    as [[j col]|] eqn:Hfind.
  2:{ apply list_find_None in Hfind. rewrite Forall_forall in Hfind.
      by destruct (Hfind col0 Hin0). }
  apply list_find_Some in Hfind as (Hj & Hlen & Hfirst).
  pose proof (lookup_lt_Some _ _ _ Hj) as Hjlt.
  rewrite set_row_unfold by (done || lia).
  apply (for_columns_fails
           (fun k (_ : unit) => rewritten (with_entry row index) t k)
           (length (m_data t)) j (set_row_body row (Z.of_nat index))
           undefined_behaviour Hn Hjlt) with (k := 0%nat).
  - intros k [] t1 Hk Hrw. pose proof Hrw as (_ & _ & _ & Hl & _).
    rewrite <- Hl. apply number_of_columns_Done.
    + by eapply rewritten_matching.
    + rewrite Hl. lia.
  - intros k [] t1 Hk Hrw.
    destruct (lookup_lt_is_Some_2 (m_data t) k ltac:(lia)) as [colk Hcolk].
    destruct (lookup_lt_is_Some_2 (m_fill_values t) k ltac:(lia)) as [f Hfill].
    destruct (lookup_lt_is_Some_2 row k ltac:(lia)) as [x Hx].
    pose proof (list_elem_of_lookup_2 _ _ _ Hcolk) as Hin.
    exists tt, (set_data (<[k := with_entry row index k colk f]> (m_data t1)) t1).
    split; [|by apply rewritten_step].
    apply (set_row_body_Done row index k t t1 colk f x Hrw Hcolk Hfill Hx
             (Hcols colk Hin) Hifit).
    by apply (Hfirst k colk).
  - intros [] t1 Hrw. exists t1.
    pose proof Hrw as (_ & _ & _ & Hl & Hat).
    destruct (lookup_lt_is_Some_2 (m_fill_values t) j ltac:(lia)) as [f Hfill].
    destruct (lookup_lt_is_Some_2 row j ltac:(lia)) as [x Hx].
    pose proof (Hat _ _ _ Hj Hfill) as Hj1. rewrite decide_False in Hj1 by lia.
    rewrite <- Hlen. apply (set_row_body_past_end row j t1 col x); [done | done |].
    pose proof (Hcols col (list_elem_of_lookup_2 _ _ _ Hj)). lia.
  - lia.
  - lia.
  - apply rewritten_start.
Qed.

(** X25. [set_row] at an index where no column ends, with a row of the
    right size, on a table in good order: a column that has the entry gets
    it replaced; a shorter column is first filled with its fill value up to
    the row before.  Afterwards [read_row(index)] gives the row back, and
    [read_row] at any other index gives what it gave before. *)
Theorem set_row_then_read_row (row : list double) (index : nat) (t : DoubleTable) :
  matching t → fits t → Z.of_nat index + 1 < INT_MAX →
  length row = length (m_data t) →
  Forall (fun col => length col ≠ index) (m_data t) →
  ∃ t',
    set_row row (Z.of_nat index) t = Done tt t'
    ∧ matching t'
    ∧ read_row (Z.of_nat index) t' = Done row t'
    ∧ ∀ other, other ≠ index →
        ∃ r, read_row (Z.of_nat other) t = Done r t
             ∧ read_row (Z.of_nat other) t' = Done r t'.
Proof.
  intros Hm Hfits Hifit Hsize Hlens.
  destruct (set_row_Done row index t Hm Hfits ltac:(lia) Hsize Hlens)
    as (t' & Hrun & Hbec).
  pose proof (columns_become_matching _ _ _ Hm Hbec) as Hm'.
  pose proof Hbec as (Hn' & Hf' & _ & Hl' & Hat).
  pose proof Hm as [Hmn Hmf]. pose proof Hfits as [Hn Hcols].
  rewrite Forall_forall in Hcols, Hlens.
  assert (Hfits' : fits t').
  { split; [by rewrite Hl'|]. apply Forall_forall.
    intros col' (i & Hi)%list_elem_of_lookup.
    pose proof (lookup_lt_Some _ _ _ Hi) as Hlt.
    destruct (lookup_lt_is_Some_2 (m_data t) i ltac:(lia)) as [col Hcol].
    destruct (lookup_lt_is_Some_2 (m_fill_values t) i ltac:(lia)) as [f Hfill].
    rewrite (Hat _ _ _ Hcol Hfill) in Hi. injection Hi as <-.
    pose proof (Hcols col (list_elem_of_lookup_2 _ _ _ Hcol)).
    unfold with_entry. destruct (decide _).
    - rewrite length_insert. lia.
    - rewrite length_app, length_pad. simpl. lia. }
  assert (Hentry : ∀ other i col f x,
            m_data t !! i = Some col → row !! i = Some x →
            entry other (with_entry row index i col f) f
            = if decide (other = index) then x else entry other col f).
  { intros other i col f x Hcol Hx. unfold entry, with_entry. rewrite Hx. simpl.
    pose proof (Hlens col (list_elem_of_lookup_2 _ _ _ Hcol)) as Hne.
    destruct (decide (index < length col)%nat) as [Hlt|Hge].
    - destruct (decide (other = index)) as [->|Hoi].
      + by rewrite list_lookup_insert_eq.
      + by rewrite list_lookup_insert_ne.
    - unfold pad. replace (index - length col)%nat with (index - length col)%nat by done.
      destruct (decide (other = index)) as [->|Hoi].
      + rewrite lookup_app_r by (rewrite length_app, length_replicate; lia).
        rewrite length_app, length_replicate.
        by replace (index - (length col + (index - length col)))%nat with 0%nat by lia.
      + destruct (decide (other < length col)%nat).
        * by rewrite <- app_assoc, lookup_app_l by lia.
        * rewrite (lookup_ge_None_2 col) by lia. simpl.
          destruct (decide (other < index)%nat).
          -- rewrite lookup_app_l by (rewrite length_app, length_replicate; lia).
             rewrite lookup_app_r by lia. by rewrite lookup_replicate_2 by lia.
          -- by rewrite lookup_ge_None_2
               by (rewrite !length_app, length_replicate; simpl; lia). }
  assert (Hrow : ∀ other, row_at other t'
            = if decide (other = index) then row else row_at other t).
  { intros other. apply list_eq. intros i. unfold row_at.
    rewrite lookup_zip_with, Hf'.
    destruct (decide (i < length (m_data t))%nat) as [Hi|Hi].
    - destruct (lookup_lt_is_Some_2 (m_data t) i Hi) as [col Hcol].
      destruct (lookup_lt_is_Some_2 (m_fill_values t) i ltac:(lia)) as [f Hfill].
      destruct (lookup_lt_is_Some_2 row i ltac:(lia)) as [x Hx].
      rewrite (Hat _ _ _ Hcol Hfill), Hfill. simpl.
      rewrite (Hentry other i col f x Hcol Hx).
      destruct (decide (other = index)); [done|].
      by rewrite lookup_zip_with, Hcol, Hfill.
    - rewrite (lookup_ge_None_2 (m_data t')) by lia. simpl.
      destruct (decide (other = index)).
      + by rewrite lookup_ge_None_2 by lia.
      + by rewrite lookup_zip_with, (lookup_ge_None_2 (m_data t)) by lia. }
  exists t'. split_and!; [done | done | |].
  - rewrite read_row_Done, Hrow by done. by rewrite decide_True.
  - intros other Hne. exists (row_at other t).
    rewrite !read_row_Done, Hrow by done. by rewrite decide_False.
Qed.

(** ** Fill values *)

(** X26. [fill_value(int)] asserts [column_index > 0]: with assertions
    compiled in, the fill value of column 0 cannot be read, by index or by
    the name of the column, although the column exists.  For a column after
    the first, [fill_value] returns what [fill_value(idx, value)] stored. *)
Theorem fill_value_skips_first_column (t : DoubleTable) (first : string)
    (idx : nat) (value : double) :
  NDEBUG = false → matching t → fits t →
  m_data_names t !! 0%nat = Some first →
  (0 < idx < length (m_data t))%nat →
  fill_value 0 t = Raised assert_failure t
  ∧ fill_value_by_name first t = Raised assert_failure t
  ∧ (set_fill_value (Z.of_nat idx) value ;; fill_value (Z.of_nat idx)) t
    = Done value (set_fill_values (<[idx := value]> (m_fill_values t)) t).
Proof.
  intros Hdebug Hm [Hn Hcols] Hfirst Hidx. pose proof Hm as [Hmn Hmf].
  assert (H0 : fill_value 0 t = Raised assert_failure t).
  { unfold fill_value, bind, get, assert. by rewrite Hdebug. }
  split_and!; [done | |].
  - destruct (column_index_Done first t Hm ltac:(lia))
      as (i & Hi & Hnone & Hsome).
    assert (Hne : i ≠ -1).
    { intros Heq%Hnone. destruct Heq. by eapply list_elem_of_lookup_2. }
    destruct (Hsome Hne) as (Hpos & _ & Hbefore).
    assert (i = 0) as ->.
    { destruct (decide (Z.to_nat i = 0)%nat); [lia|].
      by destruct (Hbefore 0%nat ltac:(lia)). }
    unfold fill_value_by_name, bind at 1. rewrite Hi.
    unfold bind at 1. cbn [ret Z.eqb]. exact H0.
  - unfold bind at 1, set_fill_value, bind at 1, get. unfold bind at 1.
    rewrite vec_set_Done by lia. cbn [modify].
    unfold fill_value, bind, get. cbn [m_fill_values set_fill_values].
    rewrite table_assert_true by (apply Z.gtb_lt; lia).
    rewrite table_assert_true
      by (rewrite length_insert, int_of_size_id by lia; apply Z.ltb_lt; lia).
    apply vec_at_Done. apply list_lookup_insert_eq. lia.
Qed.

(** X27. [operator[](column_name)], and [column(column_name)] with it,
    throws [std::range_error] for a name that no column has, the table
    unchanged; otherwise it gives the first column of that name, which is
    the column that [operator[](int)] gives at [column_index] of the name. *)
Theorem column_by_name_is_first_of_name (column_name_ : string) (t : DoubleTable) :
  matching t → fits t →
  (column_name_ ∉ m_data_names t →
     column_by_name column_name_ t = Raised range_error t)
  ∧ (∀ pos col,
       m_data_names t !! pos = Some column_name_ →
       (∀ j, (j < pos)%nat → m_data_names t !! j ≠ Some column_name_) →
       m_data t !! pos = Some col →
       column_by_name column_name_ t = Done col t
       ∧ (idx <- column_index column_name_ ;; column_by_index idx) t = Done col t).
Proof.
  intros Hm [Hn Hcols].
  destruct (column_index_Done column_name_ t Hm ltac:(lia))
    as (idx & Hidx & Hnone & Hsome).
  split.
  - intros Hnot. unfold column_by_name, bind at 1. rewrite Hidx.
    apply Hnone in Hnot as ->. reflexivity.
  - intros pos col Hname Hfirst Hcol.
    assert (Hne : idx ≠ -1).
    { intros Heq%Hnone. destruct Heq. by eapply list_elem_of_lookup_2. }
    destruct (Hsome Hne) as (Hpos & Hat & Hbefore).
    assert (Z.to_nat idx = pos) as Hidxpos.
    { destruct (Nat.lt_trichotomy (Z.to_nat idx) pos) as [Hlt|[Heq|Hgt]]; [|done|].
      - by destruct (Hfirst _ Hlt).
      - by destruct (Hbefore _ Hgt). }
    assert (Hge : (idx <? 0) = false) by (apply Z.ltb_ge; lia).
    assert (Hat_idx : column_by_index idx t = Done col t).
    { unfold column_by_index. replace idx with (Z.of_nat pos) by lia.
      by apply data_at_Done. }
    split.
    + unfold column_by_name, bind at 1. rewrite Hidx.
      unfold bind at 1. rewrite Hge. cbn [ret]. exact Hat_idx.
    + unfold bind at 1. rewrite Hidx. exact Hat_idx.
Qed.

End Spec.

End DoubleTableSpec.


(** * The properties of the table at work *)

Module DoubleTableWitness.
Import DoubleTable DoubleTableSpec.

(** Integers stand for the doubles; assertions are compiled in. *)
#[local] Instance sample : Env := {|
  NDEBUG := false;
  double := Z;
  zero := 0;
  NAN := -1;
  to_string := pretty
|}.

(** A table of two columns, the second shorter than the first. *)
Definition ragged : DoubleTable :=
  mk_table [[1; 2]; [3]] ["a"; "b"] [0; 9] NAN.

(** A row for it, and a row that is too short. *)
Definition new_row : list double := [5; 6].
Definition short_row : list double := [5].

Lemma ragged_matching : matching ragged.
Proof. split; reflexivity. Qed.

Lemma ragged_fits : fits ragged.
Proof. split; [reflexivity|]. repeat constructor. Qed.

Lemma add_column_appends_witness :
  matching ragged
  ∧ Z.of_nat (length (m_data ragged)) < INT_MAX
  ∧ add_column ragged
    = Done 3 (mk_table [[1; 2]; [3]; []] ["a"; "b"; "2"] [0; 9; NAN] NAN).
Proof.
  assert (Hn : Z.of_nat (length (m_data ragged)) < INT_MAX) by reflexivity.
  split; [exact ragged_matching|]. split; [exact Hn|].
  exact (proj1 (proj2 (add_column_appends "c" [] ragged ragged_matching Hn))).
Defined.

Lemma column_index_witness :
  matching ragged
  ∧ Z.of_nat (length (m_data ragged)) ≤ INT_MAX
  ∧ ∃ idx,
      column_index "b" ragged = Done idx ragged
      ∧ (idx = -1 ↔ "b" ∉ m_data_names ragged)
      ∧ (idx ≠ -1 →
           0 ≤ idx
           ∧ m_data_names ragged !! Z.to_nat idx = Some "b"
           ∧ (∀ j, (j < Z.to_nat idx)%nat → m_data_names ragged !! j ≠ Some "b")
           ∧ column_name idx ragged = Done "b" ragged).
Proof.
  assert (Hn : Z.of_nat (length (m_data ragged)) ≤ INT_MAX) by discriminate.
  split; [exact ragged_matching|]. split; [exact Hn|].
  exact (column_index_finds_first_column "b" ragged ragged_matching Hn).
Defined.

Lemma number_of_rows_by_name_witness :
  matching ragged ∧ fits ragged
  ∧ ("c" ∉ m_data_names ragged)
  ∧ number_of_rows_by_name "c" ragged = Raised invalid_argument ragged
  ∧ number_of_rows_by_name "b" ragged = Done 1 ragged.
Proof.
  assert (Hc : "c" ∉ m_data_names ragged).
  { intros Hin. repeat (apply elem_of_cons in Hin as [Heq|Hin]; [discriminate|]).
    by apply elem_of_nil in Hin. }
  destruct (number_of_rows_by_name_checks_name "c" ragged ragged_matching ragged_fits)
    as [Hmissing _].
  destruct (number_of_rows_by_name_checks_name "b" ragged ragged_matching ragged_fits)
    as [_ Hfound].
  split; [exact ragged_matching|]. split; [exact ragged_fits|].
  split; [exact Hc|]. split; [exact (Hmissing Hc)|].
  apply (Hfound 1%nat [3]); [reflexivity | | reflexivity].
  intros j Hj. assert (j = 0%nat) as -> by lia. discriminate.
Defined.

Lemma read_row_witness :
  matching ragged ∧ fits ragged
  ∧ read_row 1 ragged = Done [2; 9] ragged.
Proof.
  split; [exact ragged_matching|]. split; [exact ragged_fits|].
  destruct (read_row_fills_short_columns 1 ragged ragged_matching ragged_fits)
    as (row & Hrun & Hlen & Hat).
  change (Z.of_nat 1) with 1 in Hrun. rewrite Hrun. f_equal.
  pose proof (Hat 0%nat [1; 2] 0 eq_refl eq_refl) as H0.
  pose proof (Hat 1%nat [3] 9 eq_refl eq_refl) as H1.
  destruct row as [|x [|y [|z row]]]; simpl in Hlen; try discriminate.
  injection H0 as ->. injection H1 as ->. reflexivity.
Defined.

Lemma add_row_rejects_witness :
  matching ragged
  ∧ Z.of_nat (length (m_data ragged)) ≤ INT_MAX
  ∧ Z.of_nat (length short_row) ≤ INT_MAX
  ∧ length short_row ≠ length (m_data ragged)
  ∧ add_row short_row ragged = Raised length_error ragged.
Proof.
  assert (Hn : Z.of_nat (length (m_data ragged)) ≤ INT_MAX) by discriminate.
  assert (Hr : Z.of_nat (length short_row) ≤ INT_MAX) by discriminate.
  assert (Hne : length short_row ≠ length (m_data ragged)) by discriminate.
  split; [exact ragged_matching|]. split; [exact Hn|]. split; [exact Hr|].
  split; [exact Hne|].
  exact (add_row_rejects_wrong_size short_row ragged ragged_matching Hn Hr Hne).
Defined.

Lemma add_row_then_read_row_witness :
  matching ragged ∧ fits ragged
  ∧ Z.of_nat (longest (m_data ragged)) + 1 < INT_MAX
  ∧ length new_row = length (m_data ragged)
  ∧ ∃ t', add_row new_row ragged = Done tt t'
          ∧ read_row (Z.of_nat (longest (m_data ragged))) t' = Done new_row t'.
Proof.
  assert (HR : Z.of_nat (longest (m_data ragged)) + 1 < INT_MAX) by reflexivity.
  split; [exact ragged_matching|]. split; [exact ragged_fits|].
  split; [exact HR|]. split; [reflexivity|].
  destruct (add_row_then_read_row new_row ragged ragged_matching ragged_fits HR eq_refl)
    as (t' & Hrun & _ & _ & Hread & _).
  exists t'. split; [exact Hrun | exact Hread].
Defined.

Lemma fill_to_match_columns_witness :
  matching ragged ∧ fits ragged
  ∧ ∃ t', fill_to_match_columns ragged = Done tt t'
          ∧ m_data t' !! 1%nat = Some [3; 9]
          ∧ Forall (fun col => length col = 2%nat) (m_data t').
Proof.
  split; [exact ragged_matching|]. split; [exact ragged_fits|].
  destruct (fill_to_match_columns_squares ragged ragged_matching ragged_fits)
    as (t' & Hrun & _ & _ & Hall & Hat & _).
  exists t'. split; [exact Hrun|]. split; [|exact Hall].
  exact (Hat 1%nat [3] 9 eq_refl eq_refl).
Defined.

Lemma set_row_at_column_end_witness :
  matching ragged ∧ fits ragged
  ∧ length new_row = length (m_data ragged)
  ∧ (∃ col, col ∈ m_data ragged ∧ length col = 1%nat)
  ∧ ∃ t', set_row new_row (Z.of_nat 1) ragged = Raised undefined_behaviour t'.
Proof.
  assert (Hcol : ∃ col, col ∈ m_data ragged ∧ length col = 1%nat).
  { exists [3]. split; [|reflexivity]. right. left. }
  split; [exact ragged_matching|]. split; [exact ragged_fits|].
  split; [reflexivity|]. split; [exact Hcol|].
  exact (set_row_at_column_end_is_undefined new_row 1 ragged ragged_matching
           ragged_fits eq_refl Hcol).
Defined.

Lemma set_row_then_read_row_witness :
  matching ragged ∧ fits ragged
  ∧ Z.of_nat 3 + 1 < INT_MAX
  ∧ length new_row = length (m_data ragged)
  ∧ Forall (fun col => length col ≠ 3%nat) (m_data ragged)
  ∧ ∃ t', set_row new_row (Z.of_nat 3) ragged = Done tt t'
          ∧ read_row (Z.of_nat 3) t' = Done new_row t'.
Proof.
  assert (Hi : Z.of_nat 3 + 1 < INT_MAX) by reflexivity.
  assert (Hlens : Forall (fun col : list double => length col ≠ 3%nat) (m_data ragged)).
  { repeat constructor; discriminate. }
  split; [exact ragged_matching|]. split; [exact ragged_fits|].
  split; [exact Hi|]. split; [reflexivity|]. split; [exact Hlens|].
  destruct (set_row_then_read_row new_row 3 ragged ragged_matching ragged_fits
              Hi eq_refl Hlens) as (t' & Hrun & _ & Hread & _).
  exists t'. split; [exact Hrun | exact Hread].
Defined.

Lemma fill_value_skips_first_column_witness :
  NDEBUG = false ∧ matching ragged ∧ fits ragged
  ∧ m_data_names ragged !! 0%nat = Some "a"
  ∧ (0 < 1 < length (m_data ragged))%nat
  ∧ fill_value 0 ragged = Raised assert_failure ragged
  ∧ fill_value_by_name "a" ragged = Raised assert_failure ragged
  ∧ ((set_fill_value (Z.of_nat 1) 7 ;; fill_value (Z.of_nat 1)) ragged)
    = Done 7 (set_fill_values (<[1%nat := 7]> (m_fill_values ragged)) ragged).
Proof.
  assert (Hidx : (0 < 1 < length (m_data ragged))%nat) by (simpl; lia).
  split; [reflexivity|]. split; [exact ragged_matching|].
  split; [exact ragged_fits|]. split; [reflexivity|]. split; [exact Hidx|].
  exact (fill_value_skips_first_column ragged "a" 1 7 eq_refl ragged_matching
           ragged_fits eq_refl Hidx).
Defined.

Lemma column_by_name_witness :
  matching ragged ∧ fits ragged
  ∧ ("c" ∉ m_data_names ragged)
  ∧ column_by_name "c" ragged = Raised range_error ragged
  ∧ column_by_name "b" ragged = Done [3] ragged.
Proof.
  assert (Hc : "c" ∉ m_data_names ragged).
  { intros Hin. repeat (apply elem_of_cons in Hin as [Heq|Hin]; [discriminate|]).
    by apply elem_of_nil in Hin. }
  destruct (column_by_name_is_first_of_name "c" ragged ragged_matching ragged_fits)
    as [Hmissing _].
  destruct (column_by_name_is_first_of_name "b" ragged ragged_matching ragged_fits)
    as [_ Hfound].
  split; [exact ragged_matching|]. split; [exact ragged_fits|].
  split; [exact Hc|]. split; [exact (Hmissing Hc)|].
  apply (Hfound 1%nat [3]); [reflexivity | | reflexivity].
  intros j Hj. assert (j = 0%nat) as -> by lia. discriminate.
Defined.

End DoubleTableWitness.


(** * Token.cpp: the tokens of the lexer *)

Module Token.

(** [std::string::find(char)]: the position of the first occurrence,
    [None] for [npos]. *)
Fixpoint find (c : ascii) (s : string) : option nat :=
  match s with
  | EmptyString => None
  | String c' s' => if bool_decide (c' = c) then Some 0%nat else S <$> find c s'
  end.

(** [s[0]]: the first character, the null character for the empty string. *)
Definition front (s : string) : ascii :=
  match s with
  | EmptyString => "000"%char
  | String c _ => c
  end.

Section Token.

(** The enumeration of token types is declared in Token.h; the code names
    these enumerators of it. *)
Context {token_type : Type} `{EqDecision token_type}.
Variables INTEGER FLOAT VARIABLE WORD STRING PUNCTUATION WHITE_SPACE : token_type.

Record Token := mk_token {
  m_token_type : token_type;
  m_value : string;
  m_line : Z;
  m_char : Z
}.

Definition value (t : Token) : string := m_value t.
Definition line (t : Token) : Z := m_line t.
Definition char_idx (t : Token) : Z := m_char t.

Definition isnum (t : Token) : bool :=
  bool_decide (m_token_type t = INTEGER) || bool_decide (m_token_type t = FLOAT).

Definition isvar (t : Token) : bool := bool_decide (m_token_type t = VARIABLE).
Definition isword (t : Token) : bool := bool_decide (m_token_type t = WORD).
Definition isstr (t : Token) : bool := bool_decide (m_token_type t = STRING).
Definition ispunct (t : Token) : bool := bool_decide (m_token_type t = PUNCTUATION).

Definition iswhitespace (t : Token) : bool :=
  bool_decide (m_token_type t = WHITE_SPACE).

Definition isbracket (t : Token) : bool :=
  if bool_decide (m_token_type t ≠ PUNCTUATION) then false
  else
    if bool_decide (m_value t = "(") || bool_decide (m_value t = ")")
       || bool_decide (m_value t = "{") || bool_decide (m_value t = "}")
       || bool_decide (m_value t = "[") || bool_decide (m_value t = "]")
    then true else false.

Definition isopenbracket (t : Token) : bool :=
  if bool_decide (m_token_type t ≠ PUNCTUATION) then false
  else
    if bool_decide (m_value t = "(") || bool_decide (m_value t = "{")
       || bool_decide (m_value t = "[")
    then true else false.

Definition isclosebracket (t : Token) : bool :=
  if bool_decide (m_token_type t ≠ PUNCTUATION) then false
  else
    if bool_decide (m_value t = ")") || bool_decide (m_value t = "}")
       || bool_decide (m_value t = "]")
    then true else false.

Definition isinteger (t : Token) : bool :=
  if bool_decide (m_token_type t ≠ INTEGER) then false
  else if bool_decide (find "." (value t) ≠ None) then false else true.

Definition isfloat (t : Token) : bool :=
  if bool_decide (m_token_type t ≠ FLOAT) then false
  else if bool_decide (find "." (value t) ≠ None) then true else false.

Definition isnewline (t : Token) : bool :=
  bool_decide (m_token_type t = WHITE_SPACE)
  && bool_decide (front (m_value t) = "010"%char).

(** X28. A token is a bracket exactly when it is an opening or a closing
    bracket, never both, and every bracket is punctuation: the predicates
    look at the token type first, so that a string or word token whose text
    is a bracket is none of the three. *)
Theorem brackets_open_or_close (t : Token) :
  isbracket t = isopenbracket t || isclosebracket t
  ∧ isopenbracket t && isclosebracket t = false
  ∧ (isbracket t = true → ispunct t = true)
  ∧ (ispunct t = false →
       isbracket t = false ∧ isopenbracket t = false ∧ isclosebracket t = false).
Proof.
  unfold isbracket, isopenbracket, isclosebracket, ispunct.
  destruct (decide (m_token_type t = PUNCTUATION)) as [Hp|Hp].
  - rewrite (bool_decide_false (m_token_type t ≠ PUNCTUATION)) by tauto.
    rewrite (bool_decide_true _ Hp).
    split_and!; [| |done|done].
    + repeat case_bool_decide; try reflexivity; congruence.
    + repeat case_bool_decide; try reflexivity; congruence.
  - rewrite (bool_decide_true _ Hp), (bool_decide_false _ Hp). done.
Qed.

(** X29. [isinteger] and [isfloat] each imply [isnum] and exclude one
    another, but [isnum] is more than the two together: a token of type
    INTEGER whose text has a point, and a token of type FLOAT whose text has
    none, is a number that is neither an integer nor a float, and no other
    token is. *)
Theorem number_that_is_neither (t : Token) :
  INTEGER ≠ FLOAT →
  (isinteger t = true → isnum t = true ∧ find "." (value t) = None)
  ∧ (isfloat t = true → isnum t = true ∧ find "." (value t) ≠ None)
  ∧ isinteger t && isfloat t = false
  ∧ (isnum t = true ∧ isinteger t = false ∧ isfloat t = false
     ↔ (m_token_type t = INTEGER ∧ find "." (value t) ≠ None)
       ∨ (m_token_type t = FLOAT ∧ find "." (value t) = None)).
Proof.
  intros Hne. unfold isinteger, isfloat, isnum.
  destruct (find "." (value t)) as [pos|] eqn:Hfind;
    repeat case_bool_decide;
    repeat match goal with H : ¬ (_ ≠ _) |- _ => apply dec_stable in H end;
    cbn; intuition congruence.
Qed.

End Token.

End Token.

Module TokenWitness.
Import Token.

(** An enumeration with the seven enumerators that the code names. *)
Inductive token_type :=
  INTEGER | FLOAT | VARIABLE | WORD | STRING | PUNCTUATION | WHITE_SPACE.

#[local] Instance token_type_eq_dec : EqDecision token_type.
Proof. solve_decision. Defined.

(** The token of type INTEGER with the text [1.5]. *)
Definition one_point_five : Token := mk_token INTEGER "1.5" 1 0.

Lemma number_that_is_neither_witness :
  INTEGER ≠ FLOAT
  ∧ isnum INTEGER FLOAT one_point_five = true
  ∧ isinteger INTEGER one_point_five = false
  ∧ isfloat FLOAT one_point_five = false.
Proof.
  assert (Hne : INTEGER ≠ FLOAT) by discriminate.
  split; [exact Hne|].
  destruct (number_that_is_neither INTEGER FLOAT one_point_five Hne)
    as (_ & _ & _ & Hboth).
  apply Hboth. left. split; [reflexivity | discriminate].
Defined.

End TokenWitness.
